(** * app-store-api: the Helm client wrapper and the metrics snapshot service

    A shallow embedding of [pkg/helm/client.go], [pkg/helm/types.go],
    [pkg/metrics/service.go], [pkg/appcatalog] and [pkg/config], and of
    the handlers of [pkg/api/handlers.go] that use the client.

    The Go code is glue over external collaborators (the Helm SDK, the
    [helm] command line tool, the Kubernetes API server).  Every call that
    leaves the process is a _command_; a Go function is a command tree
    ([Prog]) that issues commands and continues with their answers.  A
    command tree is run sequentially against a handler that plays the
    external world, or interleaved with other goroutines under the
    semantics of [sync.Mutex]. *)

From Stdlib Require Import ZArith Lia.
From Stdlib Require Import Floats.SpecFloat.
From stdpp Require Import base option list strings gmap fin_maps pretty.

Local Open Scope string_scope.
Local Open Scope Z_scope.

(* ===================================================================== *)
(** * Go strings *)
(* ===================================================================== *)

Module GoStrings.

(** "\n" *)
Definition nl : string := String (Ascii.ascii_of_nat 10) EmptyString.

(** [strings.HasPrefix(s, p)] *)
Fixpoint HasPrefix (s p : string) {struct p} : bool :=
  match p with
  | EmptyString => true
  | String c p' =>
      match s with
      | EmptyString => false
      | String d s' => if Ascii.eqb c d then HasPrefix s' p' else false
      end
  end.

(** [strings.Contains(s, substr)]: [substr] occurs somewhere in [s]. *)
Fixpoint Contains (s substr : string) : bool :=
  HasPrefix s substr ||
  match s with
  | EmptyString => false
  | String _ s' => Contains s' substr
  end.

(** [strings.CutPrefix(s, p)]: the rest of [s] after the prefix [p]. *)
Fixpoint CutPrefix (s p : string) {struct p} : option string :=
  match p with
  | EmptyString => Some s
  | String c p' =>
      match s with
      | EmptyString => None
      | String d s' => if Ascii.eqb c d then CutPrefix s' p' else None
      end
  end.

(** [strings.Cut(s, sep)]: the text before and after the first occurrence
    of [sep] in [s]. *)
Fixpoint Cut (s sep : string) : option (string * string) :=
  match CutPrefix s sep with
  | Some after => Some (EmptyString, after)
  | None =>
      match s with
      | EmptyString => None
      | String c s' =>
          match Cut s' sep with
          | Some (before, after) => Some (String c before, after)
          | None => None
          end
      end
  end.

(** [strings.SplitN(s, sep, 2)] for a non-empty separator: the whole of
    [s] when [sep] does not occur in it, else the text before the first
    [sep] and the unsplit remainder. *)
Definition SplitN2 (s sep : string) : list string :=
  match Cut s sep with
  | None => [s]
  | Some (before, after) => [before; after]
  end.

End GoStrings.
Import GoStrings.

(* ===================================================================== *)
(** * Command trees *)
(* ===================================================================== *)

(** A Go [error] is observed by this code only through [err == nil] and
  [err.Error()]: [None] is [nil], [Some msg] an error with that text.
  [fmt.Errorf("...: %w", err)] builds the text with [err.Error()] at
  the place of the verb. *)
Abbreviation error := (option string).

Inductive Result (T : Type) : Type :=
| Ok (t : T)
| Err (msg : string).
Arguments Ok {T} t.
Arguments Err {T} msg.

Section Prog.
Context {E : Type -> Type}.

Inductive Prog (A : Type) : Type :=
| Ret (a : A)
| Vis {X : Type} (c : E X) (k : X -> Prog A).
Arguments Ret {A} a.
Arguments Vis {A X} c k.

Fixpoint bind {A B : Type} (p : Prog A) (f : A -> Prog B) : Prog B :=
  match p with
  | Ret a => f a
  | Vis c k => Vis c (fun x => bind (k x) f)
  end.

Definition call {X : Type} (c : E X) : Prog X := Vis c Ret.

(** An executed command with the answer it got. *)
Inductive Event : Type :=
| Ev {X : Type} (c : E X) (x : X).

(** The external world: a state and, for every command, its answer and
    the next state. *)
Definition Handler (W : Type) : Type := forall X : Type, E X -> W -> X * W.

(** Sequential execution: the result, the final world and the commands
    executed, in order. *)
Fixpoint run {W A : Type} (h : Handler W) (p : Prog A) (w : W)
  : A * W * list Event :=
  match p with
  | Ret a => (a, w, [])
  | Vis c k =>
      let '(x, w1) := h _ c w in
      let '(a, w2, tr) := run h (k x) w1 in
      (a, w2, Ev c x :: tr)
  end.

Definition result_of {W A} (h : Handler W) (p : Prog A) (w : W) : A :=
  (run h p w).1.1.
Definition world_of {W A} (h : Handler W) (p : Prog A) (w : W) : W :=
  (run h p w).1.2.
Definition trace_of {W A} (h : Handler W) (p : Prog A) (w : W) : list Event :=
  (run h p w).2.

End Prog.
Arguments Prog E A : clear implicits.
Arguments Event E : clear implicits.
Arguments Handler E W : clear implicits.
Arguments Ret {E A} a.
Arguments Vis {E A X} c k.
Arguments Ev {E X} c x.

Notation "'let*' x ':=' p 'in' q" := (bind p (fun x => q))
  (at level 10, x name, p at level 100, q at level 200, only parsing).
Notation "'let*' ' pat ':=' p 'in' q" :=
  (bind p (fun x => match x with pat => q end))
  (at level 10, pat pattern, p at level 100, q at level 200, only parsing).
Notation "'do' p 'in' q" := (bind p (fun _ => q))
  (at level 10, p at level 100, q at level 200, only parsing).

(* ===================================================================== *)
(** * pkg/helm: data model *)
(* ===================================================================== *)

Module Helm.

(** [types.go] *)
Record ChartDefinition : Type := {
  Name : string;      (* user-friendly name, "nginx" *)
  Chart : string;     (* full chart name, "bitnami/nginx" *)
  Version : string;
  RepoURL : string
}.

(** The fields of [config.AppConfig] and [cli.EnvSettings] the client
    reads after construction. *)
Record AppConfig : Type := {
  AppInstallNamespace : string;
  HelmTimeout : Z
}.

Record HelmClient : Type := {
  config : AppConfig;
  settings_KubeConfig : string
}.

(** [release.Release], as far as this package looks into it;
    [rLastDeployed] is [rel.Info.LastDeployed.Time.Format(time.RFC3339)]. *)
Record Release : Type := {
  rName : string;
  rNamespace : string;
  rVersion : Z;
  rLastDeployed : string;
  rStatus : string;
  rChartName : string;
  rChartVersion : string;
  rAppVersion : string
}.

(** A chart package as returned by [loader.Load]; [chName] is
    [chartRequested.Name()]. *)
Record LoadedChart : Type := {
  chName : string;
  chVersion : string
}.

(** [map[string]interface{}] values of an install request. *)
#[local] Unset Elimination Schemes.
Inductive JSON : Type :=
| JNull
| JBool (b : bool)
| JNumber (z : Z)
| JString (s : string)
| JArray (l : list JSON)
| JObject (l : list (string * JSON)).
#[local] Set Elimination Schemes.

Definition Values : Type := list (string * JSON).

(** The fields of [action.Install] that [InstallChart] sets. *)
Record Install : Type := {
  iNamespace : string;
  iReleaseName : string;
  iVersion : string;
  iWait : bool;
  iTimeout : Z
}.

Record UninstallReleaseResponse : Type := {
  uRelease : Release;
  uInfo : string
}.

(** [corev1.ServicePort] and [corev1.Service] *)
Record ServicePort : Type := {
  pName : string;
  pPort : Z;       (* int32 *)
  pNodePort : Z    (* int32 *)
}.

Record Service : Type := {
  sName : string;
  sType : string;
  sPorts : list ServicePort
}.

(** [types.go] *)
Record ReleaseInfo : Type := {
  riName : string;
  riNamespace : string;
  riVersion : Z;
  riUpdated : string;
  riStatus : string;
  riChart : string;
  riChartVersion : string;
  riAppVersion : string;
  riNodePorts : gmap string Z
}.

(** ** Commands

    Everything [client.go] asks of the outside: the mutex of the client,
    the logger, subprocesses, the Helm SDK actions and the Kubernetes
    API.  An answer has the shape of the Go return values. *)
Inductive Cmd : Type -> Type :=
| Lock : Cmd unit                          (* hc.repoUpdateMu.Lock() *)
| Unlock : Cmd unit                        (* hc.repoUpdateMu.Unlock() *)
| Log (msg : string) : Cmd unit            (* log.Printf / log.Println *)
| CombinedOutput (name : string) (args : list string) (extraEnv : list string)
    : Cmd (string * error)                 (* exec.Command(...).CombinedOutput(), Env = os.Environ() ++ extraEnv *)
| HistoryRun (max : Z) (name : string)
    : Cmd (list Release * error)           (* action.NewHistory(cfg).Run(name) *)
| LocateChart (version : string) (name : string)
    : Cmd (string * error)                 (* chartPathOptions.LocateChart(name, settings) *)
| LoaderLoad (path : string)
    : Cmd (LoadedChart * error)            (* loader.Load(path) *)
| InstallRun (client : Install) (chrt : LoadedChart) (vals : Values)
    : Cmd (Release * error)                (* client.Run(chart, values) *)
| ListRun : Cmd (list Release * error)     (* listClient.Run() with every state *)
| ServicesList (namespace labelSelector : string)
    : Cmd (list Service * error)           (* kubeClient.CoreV1().Services(ns).List *)
| UninstallRun (timeout : Z) (name : string)
    : Cmd (UninstallReleaseResponse * error)
| CmdRun (name : string) (args : list string) (extraEnv : list string)
    : Cmd (string * string * error)        (* cmd.Run() with Stdout and Stderr buffers *)
| Unmarshal (data : string)
    : Cmd (Values * error).                (* json.Unmarshal(data, &statusData) *)

Abbreviation HProg := (Prog Cmd).

Definition log (msg : string) : HProg unit := call (Log msg).

(** The environment added to [os.Environ()] for a [helm] subprocess. *)
Definition helmEnv (hc : HelmClient) : list string :=
  if String.eqb (settings_KubeConfig hc) "" then []
  else ["KUBECONFIG=" ++ settings_KubeConfig hc].

Definition repoAddArgs (repoName url : string) : list string :=
  ["repo"; "add"; repoName; url; "--force-update"].

(** ** UpdateRepos *)

(** The body of [for _, chart := range charts]; [addedRepos] is the map
    the loop updates. *)
Fixpoint UpdateRepos_loop (hc : HelmClient) (charts : list ChartDefinition)
    (addedRepos : gmap string bool) : HProg (gmap string bool) :=
  match charts with
  | [] => Ret addedRepos
  | chart :: rest =>
      if String.eqb (RepoURL chart) "" then UpdateRepos_loop hc rest addedRepos
      else
        let parts := SplitN2 (Chart chart) "/" in
        if (length parts <? 2)%nat then
          do log ("Skipping repo for chart '" ++ Chart chart
                  ++ "': invalid format, expected repo/chartname") in
          UpdateRepos_loop hc rest addedRepos
        else
          let repoName := nth 0 parts "" in
          match addedRepos !! repoName with
          | Some _ => UpdateRepos_loop hc rest addedRepos
          | None =>
              do log ("Ensuring Helm repo: " ++ repoName ++ " " ++ RepoURL chart) in
              let* '(output, err) :=
                call (CombinedOutput "helm" (repoAddArgs repoName (RepoURL chart))
                        (helmEnv hc)) in
              match err with
              | Some e =>
                  do log ("Error adding/updating repo " ++ repoName
                          ++ " with Helm CLI: " ++ e ++ nl ++ "Output: " ++ output) in
                  UpdateRepos_loop hc rest addedRepos
              | None =>
                  do log ("Repo " ++ repoName
                          ++ " added/updated successfully via Helm CLI.") in
                  UpdateRepos_loop hc rest (<[repoName := true]> addedRepos)
              end
          end
  end.

(** [if len(addedRepos) > 0 { helm repo update }] *)
Definition UpdateRepos_refresh (hc : HelmClient) (addedRepos : gmap string bool)
    : HProg unit :=
  if (0 <? size addedRepos)%nat then
    do log "Updating all Helm repositories via Helm CLI..." in
    let* '(output, err) :=
      call (CombinedOutput "helm" ["repo"; "update"] (helmEnv hc)) in
    match err with
    | Some e =>
        (* "Do not return error here, as it might be a transient issue
           for one repo.  The application can often proceed." *)
        log ("Warning: Error updating Helm repositories via Helm CLI: "
             ++ e ++ nl ++ "Output: " ++ output)
    | None => log "Helm repositories updated successfully via Helm CLI."
    end
  else Ret tt.

(** The function between [Lock] and the deferred [Unlock]. *)
Definition UpdateRepos_body (hc : HelmClient) (charts : list ChartDefinition)
    : HProg error :=
  let* addedRepos := UpdateRepos_loop hc charts ∅ in
  do UpdateRepos_refresh hc addedRepos in
  Ret None.

Definition UpdateRepos (hc : HelmClient) (charts : list ChartDefinition)
    : HProg error :=
  do call Lock in
  let* r := UpdateRepos_body hc charts in
  do call Unlock in
  Ret r.

(** ** InstallChart *)

(** The texts of [InstallChart] that its callers and the log see. *)
Definition alreadyExists (hc : HelmClient) (releaseName : string) : string :=
  "release '" ++ releaseName ++ "' already exists in namespace '"
  ++ AppInstallNamespace (config hc) ++ "'".

Definition locating (chartDef : ChartDefinition) : string :=
  "Locating chart '" ++ Chart chartDef ++ "' version '" ++ Version chartDef ++ "'...".

Definition retrying (chartDef : ChartDefinition) (e : string) : string :=
  "Error locating chart " ++ Chart chartDef ++ " (version " ++ Version chartDef
  ++ "): " ++ e ++ ". Attempting repo update before retry.".

Definition couldNotLocate (chartDef : ChartDefinition) (e : string) : string :=
  "could not locate chart '" ++ Chart chartDef ++ "' (version '"
  ++ Version chartDef ++ "') after repo update: " ++ e.

(** Lines 168-179: locate the chart, with one repository update and one
    retry when the first attempt fails.  [Err] is the early [return]. *)
Definition locateWithRetry (hc : HelmClient) (chartDef : ChartDefinition)
    : HProg (Result string) :=
  do log (locating chartDef) in
  let* '(cp, err) := call (LocateChart (Version chartDef) (Chart chartDef)) in
  match err with
  | None => Ret (Ok cp)
  | Some e =>
      do log (retrying chartDef e) in
      let* errUpdate := UpdateRepos hc [chartDef] in
      do match errUpdate with
         | Some eu => log ("Repo update failed during chart location for "
                           ++ Chart chartDef ++ ": " ++ eu)
         | None => Ret tt
         end in
      let* '(cp, err) := call (LocateChart (Version chartDef) (Chart chartDef)) in
      match err with
      | Some e2 => Ret (Err (couldNotLocate chartDef e2))
      | None => Ret (Ok cp)
      end
  end.

Definition installing (hc : HelmClient) (chartRequested : LoadedChart)
    (releaseName : string) : string :=
  "Installing chart '" ++ chName chartRequested ++ "' as release '"
  ++ releaseName ++ "' in namespace '" ++ AppInstallNamespace (config hc) ++ "'".

(** Lines 180-194: load the chart found at [cp] and install it. *)
Definition loadAndInstall (hc : HelmClient) (client : Install) (releaseName : string)
    (values : Values) (cp : string) : HProg (Result Release) :=
  do log ("Found chart at path: " ++ cp) in
  let* '(chartRequested, err) := call (LoaderLoad cp) in
  match err with
  | Some e => Ret (Err ("failed to load chart from path " ++ cp ++ ": " ++ e))
  | None =>
      do log (installing hc chartRequested releaseName) in
      let* '(rel, err) := call (InstallRun client chartRequested values) in
      match err with
      | Some e =>
          Ret (Err ("failed to install chart '" ++ chName chartRequested
                    ++ "': " ++ e))
      | None =>
          do log ("Successfully installed chart '" ++ rChartName rel
                  ++ "' (version " ++ rChartVersion rel ++ ") as release '"
                  ++ rName rel ++ "'") in
          Ret (Ok rel)
      end
  end.

(** [if releaseName == "" { releaseName = chartDef.Name }] *)
Definition resolveReleaseName (chartDef : ChartDefinition) (releaseName : string)
    : string :=
  if String.eqb releaseName "" then Name chartDef else releaseName.

(** The pre-check on the release history: the error [InstallChart]
    returns before doing anything else, if any.
    [if history, err := histClient.Run(releaseName); err == nil && len(history) > 0 {..}
     else if err != nil && !strings.Contains(err.Error(), "release: not found") {..}] *)
Definition checkHistory (hc : HelmClient) (releaseName : string)
    (history : list Release) (err : error) : option string :=
  match err with
  | None =>
      if (0 <? length history)%nat then Some (alreadyExists hc releaseName)
      else None
  | Some e =>
      if negb (Contains e "release: not found") then
        Some ("error checking history for release " ++ releaseName ++ ": " ++ e)
      else None
  end.

(** Lines 153-158: [client := action.NewInstall(hc.actionConfig)] and
    the fields set on it. *)
Definition installClient (hc : HelmClient) (chartDef : ChartDefinition)
    (releaseName : string) : Install :=
  {| iNamespace := AppInstallNamespace (config hc);
     iReleaseName := releaseName;
     iVersion := Version chartDef;
     iWait := true;
     iTimeout := HelmTimeout (config hc) |}.

Definition InstallChart (hc : HelmClient) (chartDef : ChartDefinition)
    (releaseName : string) (values : Values) : HProg (Result Release) :=
  let releaseName := resolveReleaseName chartDef releaseName in
  let* '(history, err) := call (HistoryRun 1 releaseName) in
  match checkHistory hc releaseName history err with
  | Some msg => Ret (Err msg)
  | None =>
      let client := installClient hc chartDef releaseName in
      let* located := locateWithRetry hc chartDef in
      match located with
      | Err msg => Ret (Err msg)
      | Ok cp => loadAndInstall hc client releaseName values cp
      end
  end.

(** ** ListInstalledReleases and getReleaseNodePorts *)

(** [fmt.Sprintf("%d", n)] *)
Definition Sprintf_d (n : Z) : string := pretty n.

(** [portName := port.Name; if portName == "" { portName = fmt.Sprintf("%d", port.Port) }] *)
Definition portName (port : ServicePort) : string :=
  if String.eqb (pName port) "" then Sprintf_d (pPort port) else pName port.

(** [if port.NodePort > 0 { nodePorts[portName] = port.NodePort }] *)
Definition addPort (nodePorts : gmap string Z) (port : ServicePort) : gmap string Z :=
  if 0 <? pNodePort port then <[portName port := pNodePort port]> nodePorts
  else nodePorts.

(** The inner loop [for _, port := range service.Spec.Ports]. *)
Definition collectPorts (ports : list ServicePort) (nodePorts : gmap string Z)
    : gmap string Z :=
  foldl addPort nodePorts ports.

Definition exposesNodePorts (service : Service) : bool :=
  String.eqb (sType service) "NodePort" || String.eqb (sType service) "LoadBalancer".

(** The outer loop [for _, service := range serviceList.Items], with its
    [break]. *)
Fixpoint scanServices (items : list Service) (nodePorts : gmap string Z)
    : gmap string Z :=
  match items with
  | [] => nodePorts
  | service :: rest =>
      if exposesNodePorts service then
        let nodePorts := collectPorts (sPorts service) nodePorts in
        if (0 <? size nodePorts)%nat then nodePorts
        else scanServices rest nodePorts
      else scanServices rest nodePorts
  end.

Definition instanceSelector (releaseName : string) : string :=
  "app.kubernetes.io/instance=" ++ releaseName.

Definition getReleaseNodePorts (releaseName namespace : string)
    : HProg (gmap string Z) :=
  let* '(items, err) :=
    call (ServicesList namespace (instanceSelector releaseName)) in
  match err with
  | Some e =>
      do log ("Warning: Could not list services for release '" ++ releaseName
              ++ "' in namespace '" ++ namespace ++ "': " ++ e) in
      Ret ∅
  | None => Ret (scanServices items ∅)
  end.

Definition toReleaseInfo (rel : Release) (nodePorts : gmap string Z) : ReleaseInfo :=
  {| riName := rName rel;
     riNamespace := rNamespace rel;
     riVersion := rVersion rel;
     riUpdated := rLastDeployed rel;
     riStatus := rStatus rel;
     riChart := rChartName rel;
     riChartVersion := rChartVersion rel;
     riAppVersion := rAppVersion rel;
     riNodePorts := nodePorts |}.

(** [for _, rel := range results] *)
Fixpoint ListInstalledReleases_loop (results : list Release) : HProg (list ReleaseInfo) :=
  match results with
  | [] => Ret []
  | rel :: rest =>
      let* nodePorts := getReleaseNodePorts (rName rel) (rNamespace rel) in
      let* infos := ListInstalledReleases_loop rest in
      Ret (toReleaseInfo rel nodePorts :: infos)
  end.

Definition ListInstalledReleases : HProg (Result (list ReleaseInfo)) :=
  let* '(results, err) := call ListRun in
  match err with
  | Some e => Ret (Err ("failed to list Helm releases: " ++ e))
  | None =>
      let* infos := ListInstalledReleases_loop results in
      Ret (Ok infos)
  end.

(** ** UninstallRelease *)

(** The two errors of [UninstallRelease]. *)
Definition releaseNotFound (hc : HelmClient) (releaseName : string) : string :=
  "release '" ++ releaseName ++ "' not found in namespace '"
  ++ AppInstallNamespace (config hc) ++ "'".

Definition uninstallFailed (releaseName e : string) : string :=
  "failed to uninstall release '" ++ releaseName ++ "': " ++ e.

Definition uninstalling (hc : HelmClient) (releaseName : string) : string :=
  "Uninstalling release '" ++ releaseName ++ "' from namespace '"
  ++ AppInstallNamespace (config hc) ++ "'".

Definition UninstallRelease (hc : HelmClient) (releaseName : string)
    : HProg (Result UninstallReleaseResponse) :=
  do log (uninstalling hc releaseName) in
  let* '(res, err) := call (UninstallRun (HelmTimeout (config hc)) releaseName) in
  match err with
  | Some e =>
      if Contains e "release: not found" then Ret (Err (releaseNotFound hc releaseName))
      else Ret (Err (uninstallFailed releaseName e))
  | None =>
      do log ("Successfully uninstalled release '" ++ releaseName ++ "'") in
      Ret (Ok res)
  end.

(** ** GetReleaseStatus *)

Definition GetReleaseStatus (hc : HelmClient) (releaseName : string)
    : HProg (Result Values) :=
  let* '(out, stderr, err) :=
    call (CmdRun "helm"
            ["status"; releaseName; "-n"; AppInstallNamespace (config hc); "-o"; "json"]
            (helmEnv hc)) in
  match err with
  | Some e =>
      Ret (Err ("error getting status for release '" ++ releaseName ++ "': " ++ e
                ++ ". Stderr: " ++ stderr))
  | None =>
      let* '(statusData, err) := call (Unmarshal out) in
      match err with
      | Some e =>
          Ret (Err ("error unmarshalling status JSON for release '" ++ releaseName
                    ++ "': " ++ e))
      | None => Ret (Ok statusData)
      end
  end.

End Helm.

(* ===================================================================== *)
(** * pkg/api: the uninstall handler *)
(* ===================================================================== *)

Module Api.
Import Helm.

(** What [c.JSON(code, gin.H{key: text})] sends. *)
Record Response : Type := {
  code : Z;
  key : string;
  text : string
}.

Definition StatusOK : Z := 200.
Definition StatusNotFound : Z := 404.
Definition StatusInternalServerError : Z := 500.

Definition UninstallReleaseHandler (hc : HelmClient) (releaseName : string)
    : HProg Response :=
  let* r := UninstallRelease hc releaseName in
  match r with
  | Err msg =>
      if Contains msg "not found" then
        Ret {| code := StatusNotFound; key := "error";
               text := "Release '" ++ releaseName ++ "' not found." |}
      else
        Ret {| code := StatusInternalServerError; key := "error"; text := msg |}
  | Ok _ =>
      Ret {| code := StatusOK; key := "message";
             text := "Release '" ++ releaseName ++ "' uninstalled successfully." |}
  end.

End Api.

(* ===================================================================== *)
(** * pkg/metrics: the cluster snapshot *)
(* ===================================================================== *)

Module Metrics.

(** Go [int64] arithmetic wraps around. *)
Definition wrap64 (z : Z) : Z := (z + 2^63) mod 2^64 - 2^63.

(** [float64(x)] of an [int64], and [float64] division, in IEEE 754
    binary64 with rounding to nearest even. *)
Definition float64 : Type := spec_float.
Definition float64_of_int64 (x : Z) : float64 := binary_normalize 53 1024 x 0 false.
Definition float64_div (x y : float64) : float64 := SFdiv 53 1024 x y.
Definition float64_zero : float64 := S754_zero false.

(** [resource.Format] *)
Inductive Format : Type := DecimalExponent | BinarySI | DecimalSI.

(** [resource.Quantity] belongs to k8s.io/apimachinery.  The service
    uses the zero value a Go map gives for a missing key, the two
    constructors and the two [int64] projections. *)
Class QuantityOps (Quantity : Type) : Type := {
  zeroValue : Quantity;
  NewMilliQuantity : Z -> Format -> Quantity;
  NewQuantity : Z -> Format -> Quantity;
  MilliValue : Quantity -> Z;
  Value : Quantity -> Z
}.

Section WithQuantity.
Context {Quantity : Type} {ops : QuantityOps Quantity}.

(** [metricsv1beta1.NodeMetrics] and [corev1.Node] *)
Record NodeMetricsItem : Type := {
  nmName : string;
  nmUsage : gmap string Quantity
}.

Record Node : Type := {
  nName : string;
  nAllocatable : gmap string Quantity
}.

(** [types.go] *)
Record NodeMetrics : Type := {
  nodeName : string;
  CPUUsageMilliCores : Z;
  MemoryUsageBytes : Z;
  CPUAvailableMilliCores : Z;
  MemoryAvailableBytes : Z;
  CPUUsagePercentage : float64;
  MemUsagePercentage : float64
}.

Record ClusterMetrics : Type := {
  TotalCPUUsageMilliCores : Z;
  TotalCPUCapacityMilliCores : Z;
  TotalMemoryUsageBytes : Z;
  TotalMemoryCapacityBytes : Z;
  AverageCPUUsagePercentage : float64;
  AverageMemUsagePercentage : float64;
  Nodes : list NodeMetrics
}.

Inductive Cmd : Type -> Type :=
| Log (msg : string) : Cmd unit
| NodeMetricsesList : Cmd (list NodeMetricsItem * error)
| NodesList : Cmd (list Node * error).

(** [m[key]] on a Go map of quantities. *)
Definition index (m : gmap string Quantity) (key : string) : Quantity :=
  default zeroValue (m !! key).

(** The inner loop: the usage of the first metrics entry named [name]. *)
Fixpoint findMetrics (items : list NodeMetricsItem) (name : string)
    : option (Quantity * Quantity) :=
  match items with
  | [] => None
  | nm :: rest =>
      if String.eqb (nmName nm) name
      then Some (index (nmUsage nm) "cpu", index (nmUsage nm) "memory")
      else findMetrics rest name
  end.

(** [x := 0.0; if capacity > 0 { x = float64(usage*100) / float64(capacity) }] *)
Definition percentage (usage capacity : Z) : float64 :=
  if 0 <? capacity
  then float64_div (float64_of_int64 (wrap64 (usage * 100))) (float64_of_int64 capacity)
  else float64_zero.

(** The variables the loop over the nodes updates. *)
Record Totals : Type := {
  detailedNodeMetrics : list NodeMetrics;
  totalCPUUsageMilliCores : Z;
  totalCPUCapacityMilliCores : Z;
  totalMemUsageBytes : Z;
  totalMemCapacityBytes : Z
}.

Definition noTotals : Totals :=
  {| detailedNodeMetrics := [];
     totalCPUUsageMilliCores := 0; totalCPUCapacityMilliCores := 0;
     totalMemUsageBytes := 0; totalMemCapacityBytes := 0 |}.

(** One iteration, after the usage of the node has been decided. *)
Definition addNode (n : Node) (nodeCPUUsage nodeMemUsage : Quantity) (t : Totals)
    : Totals :=
  let allocatableCPU := index (nAllocatable n) "cpu" in
  let allocatableMem := index (nAllocatable n) "memory" in
  let nodeCPUUsageMilli := MilliValue nodeCPUUsage in
  let nodeMemUsageBytes := Value nodeMemUsage in
  let allocatableCPUMilli := MilliValue allocatableCPU in
  let allocatableMemBytes := Value allocatableMem in
  {| totalCPUUsageMilliCores := wrap64 (totalCPUUsageMilliCores t + nodeCPUUsageMilli);
     totalCPUCapacityMilliCores := wrap64 (totalCPUCapacityMilliCores t + allocatableCPUMilli);
     totalMemUsageBytes := wrap64 (totalMemUsageBytes t + nodeMemUsageBytes);
     totalMemCapacityBytes := wrap64 (totalMemCapacityBytes t + allocatableMemBytes);
     detailedNodeMetrics :=
       detailedNodeMetrics t ++
       [ {| nodeName := nName n;
            CPUUsageMilliCores := nodeCPUUsageMilli;
            MemoryUsageBytes := nodeMemUsageBytes;
            CPUAvailableMilliCores := allocatableCPUMilli;
            MemoryAvailableBytes := allocatableMemBytes;
            CPUUsagePercentage := percentage nodeCPUUsageMilli allocatableCPUMilli;
            MemUsagePercentage := percentage nodeMemUsageBytes allocatableMemBytes |} ] |}.

(** [for _, n := range nodes.Items] *)
Fixpoint nodesLoop (items : list NodeMetricsItem) (nodes : list Node) (t : Totals)
    : Prog Cmd Totals :=
  match nodes with
  | [] => Ret t
  | n :: rest =>
      match findMetrics items (nName n) with
      | Some (nodeCPUUsage, nodeMemUsage) =>
          nodesLoop items rest (addNode n nodeCPUUsage nodeMemUsage t)
      | None =>
          do call (Log ("Warning: Metrics not found for node " ++ nName n)) in
          nodesLoop items rest
            (addNode n (NewMilliQuantity 0 DecimalSI) (NewQuantity 0 BinarySI) t)
      end
  end.

(** The usage the loop settles on for a node: that of its metrics
    entry, or the two zero quantities. *)
Definition usageOf (items : list NodeMetricsItem) (n : Node) : Quantity * Quantity :=
  match findMetrics items (nName n) with
  | Some usage => usage
  | None => (NewMilliQuantity 0 DecimalSI, NewQuantity 0 BinarySI)
  end.

Definition sumZ (l : list Z) : Z := foldr Z.add 0 l.

(** The loop, without its log lines. *)
Definition measure (items : list NodeMetricsItem) (t : Totals) (n : Node) : Totals :=
  addNode n (usageOf items n).1 (usageOf items n).2 t.

(** The entry of a node in the per-node list. *)
Definition entryOf (items : list NodeMetricsItem) (n : Node) : NodeMetrics :=
  let usage := usageOf items n in
  let allocatableCPUMilli := MilliValue (index (nAllocatable n) "cpu") in
  let allocatableMemBytes := Value (index (nAllocatable n) "memory") in
  {| nodeName := nName n;
     CPUUsageMilliCores := MilliValue usage.1;
     MemoryUsageBytes := Value usage.2;
     CPUAvailableMilliCores := allocatableCPUMilli;
     MemoryAvailableBytes := allocatableMemBytes;
     CPUUsagePercentage := percentage (MilliValue usage.1) allocatableCPUMilli;
     MemUsagePercentage := percentage (Value usage.2) allocatableMemBytes |}.

Definition summarize (t : Totals) : ClusterMetrics :=
  {| TotalCPUUsageMilliCores := totalCPUUsageMilliCores t;
     TotalCPUCapacityMilliCores := totalCPUCapacityMilliCores t;
     TotalMemoryUsageBytes := totalMemUsageBytes t;
     TotalMemoryCapacityBytes := totalMemCapacityBytes t;
     AverageCPUUsagePercentage :=
       percentage (totalCPUUsageMilliCores t) (totalCPUCapacityMilliCores t);
     AverageMemUsagePercentage :=
       percentage (totalMemUsageBytes t) (totalMemCapacityBytes t);
     Nodes := detailedNodeMetrics t |}.

(** [Service]: whether [metricsClient] is not nil. *)
Record Service : Type := { hasMetricsClient : bool }.

(** The two queries share a context with a one second timeout; a timeout
    is an error answer of the query.  The log lines that report elapsed
    time are left out. *)
Definition GetClusterMetricsSnapshot (s : Service) : Prog Cmd (Result ClusterMetrics) :=
  if negb (hasMetricsClient s) then
    Ret (Err "metrics client not initialized, ensure Metrics Server is installed and API has permissions")
  else
    let* '(nodeMetricsList, err) := call NodeMetricsesList in
    match err with
    | Some e => Ret (Err ("failed to list node metrics: " ++ e))
    | None =>
        let* '(nodes, err) := call NodesList in
        match err with
        | Some e => Ret (Err ("failed to list nodes: " ++ e))
        | None =>
            let* t := nodesLoop nodeMetricsList nodes noTotals in
            Ret (Ok (summarize t))
        end
    end.

End WithQuantity.

(** A stand-in for [resource.Quantity] to run the service on concrete
    inputs: a quantity is its number of thousandths. *)
#[global] Instance MilliUnits : QuantityOps Z := {|
  zeroValue := 0;
  NewMilliQuantity := fun v _ => v;
  NewQuantity := fun v _ => v * 1000;
  MilliValue := fun q => q;
  Value := fun q => - ((- q) / 1000)
|}.

(** A metrics server and an API server that answer with fixed lists. *)
Record Snapshot : Type := {
  nodeMetricses : list (@NodeMetricsItem Z);
  nodes : list (@Node Z)
}.

Definition servers : Handler (@Cmd Z) Snapshot :=
  fun X c =>
    match c in Cmd X return Snapshot -> X * Snapshot with
    | Log _ => fun w => (tt, w)
    | NodeMetricsesList => fun w => ((nodeMetricses w, None), w)
    | NodesList => fun w => ((nodes w, None), w)
    end.

Definition quantities (cpu memory : Z) : gmap string Z :=
  {[ "cpu" := cpu; "memory" := memory ]}.

(** Three nodes: one measured, one without metrics entry, one that
    reports no allocatable capacity. *)
Definition nodeA : @Node Z :=
  {| nName := "node-a"; nAllocatable := quantities 2000 (8192 * 1000) |}.
Definition nodeB : @Node Z :=
  {| nName := "node-b"; nAllocatable := quantities 4000 (16384 * 1000) |}.
Definition nodeC : @Node Z :=
  {| nName := "node-c"; nAllocatable := quantities 0 0 |}.

Definition measured : list (@NodeMetricsItem Z) :=
  [ {| nmName := "node-a"; nmUsage := quantities 500 (2048 * 1000) |};
    {| nmName := "node-c"; nmUsage := quantities 100 (1024 * 1000) |} ].

Definition threeNodes : Snapshot :=
  {| nodeMetricses := measured; nodes := [nodeA; nodeB; nodeC] |}.

Definition service : Service := {| hasMetricsClient := true |}.

End Metrics.

(* ===================================================================== *)
(** * Goroutines sharing one client *)
(* ===================================================================== *)

Module Sched.
Import Helm.

(** A goroutine is the rest of the call it runs. *)
Inductive Goroutine : Type :=
| Go {A : Type} (p : HProg A).

(** The process: the goroutines, the state of [hc.repoUpdateMu], the
    outside world and everything executed so far, each command with the
    index of the goroutine that issued it. *)
Record Machine (W : Type) : Type := {
  pool : list Goroutine;
  locked : bool;
  world : W;
  history : list (nat * Event Cmd)
}.
Arguments pool {W} m.
Arguments locked {W} m.
Arguments world {W} m.
Arguments history {W} m.

(** The commands [sync.Mutex] answers itself: [Some true] for [Lock],
    [Some false] for [Unlock], with the answer the goroutine gets. *)
Definition mutexOp {X : Type} (c : Cmd X) : option (bool * X) :=
  match c in Cmd X return option (bool * X) with
  | Lock => Some (true, tt)
  | Unlock => Some (false, tt)
  | _ => None
  end.

(** Goroutine [i] takes one step.  [Lock] on a locked mutex blocks: the
    goroutine has no step.  [Unlock] on an unlocked mutex is a fatal
    error of the Go runtime: no step either.  Any other command is
    answered by the world. *)
Definition step {W : Type} (h : Handler Cmd W) (i : nat) (m : Machine W)
    : option (Machine W) :=
  match pool m !! i with
  | Some (Go (Vis c k)) =>
      match mutexOp c with
      | Some (true, x) =>
          if locked m then None
          else Some {| pool := <[i := Go (k x)]> (pool m);
                       locked := true;
                       world := world m;
                       history := history m ++ [(i, Ev c x)] |}
      | Some (false, x) =>
          if locked m
          then Some {| pool := <[i := Go (k x)]> (pool m);
                       locked := false;
                       world := world m;
                       history := history m ++ [(i, Ev c x)] |}
          else None
      | None =>
          let '(x, w) := h _ c (world m) in
          Some {| pool := <[i := Go (k x)]> (pool m);
                  locked := locked m;
                  world := w;
                  history := history m ++ [(i, Ev c x)] |}
      end
  | _ => None
  end.

(** A schedule names the goroutine to run at each turn; a goroutine that
    has no step leaves the machine as it is. *)
Definition turn {W : Type} (h : Handler Cmd W) (m : Machine W) (i : nat) : Machine W :=
  default m (step h i m).

Definition exec {W : Type} (h : Handler Cmd W) (schedule : list nat) (m : Machine W)
    : Machine W :=
  foldl (turn h) m schedule.

(** The calls on the client that HTTP handlers and the catalog service
    make, each in a goroutine of its own. *)
Inductive ClientCall : Type :=
| CallUpdateRepos (charts : list ChartDefinition)
| CallInstallChart (chartDef : ChartDefinition) (releaseName : string) (values : Values)
| CallListInstalledReleases
| CallUninstallRelease (releaseName : string)
| CallGetReleaseStatus (releaseName : string).

Definition spawn (hc : HelmClient) (call : ClientCall) : Goroutine :=
  match call with
  | CallUpdateRepos charts => Go (UpdateRepos hc charts)
  | CallInstallChart chartDef releaseName values =>
      Go (InstallChart hc chartDef releaseName values)
  | CallListInstalledReleases => Go ListInstalledReleases
  | CallUninstallRelease releaseName => Go (UninstallRelease hc releaseName)
  | CallGetReleaseStatus releaseName => Go (GetReleaseStatus hc releaseName)
  end.

Definition start {W : Type} (hc : HelmClient) (calls : list ClientCall) (w : W)
    : Machine W :=
  {| pool := spawn hc <$> calls; locked := false; world := w; history := [] |}.

(** Reading a history: which goroutine is inside a synchronization pass.
    [Held i] says that goroutine [i] is between its [Lock] and its
    [Unlock]; [Broken] marks a history in which a goroutine locked the
    mutex while it was held, or unlocked it or ran [helm repo add] or
    [helm repo update] without holding it ([CombinedOutput] is how the
    client runs these two, and nothing else). *)
Inductive Pass : Type :=
| Free
| Held (i : nat)
| Broken.

Definition observe (st : Pass) (ev : nat * Event Cmd) : Pass :=
  match ev with
  | (i, Ev c _) =>
      match c with
      | Lock => match st with Free => Held i | _ => Broken end
      | Unlock =>
          match st with
          | Held j => if Nat.eqb i j then Free else Broken
          | _ => Broken
          end
      | CombinedOutput _ _ _ =>
          match st with
          | Held j => if Nat.eqb i j then st else Broken
          | _ => Broken
          end
      | _ => st
      end
  end.

Definition passOf (tr : list (nat * Event Cmd)) : Pass := foldl observe Free tr.

Definition serialized (tr : list (nat * Event Cmd)) : bool :=
  match passOf tr with
  | Broken => false
  | _ => true
  end.

Definition isHeld (st : Pass) : bool :=
  match st with Held _ => true | _ => false end.

Definition holds (st : Pass) (i : nat) : bool :=
  match st with Held j => Nat.eqb i j | _ => false end.

(** The locking discipline of a piece of code, given whether it holds
    the mutex when it starts: it locks only when it does not hold the
    mutex, it unlocks and it runs subprocesses only when it does, and
    where it returns [a], holding the mutex or not, [post] holds. *)
Fixpoint Disciplined {A : Type} (held : bool) (p : HProg A)
    (post : bool -> A -> Prop) : Prop :=
  match p with
  | Ret a => post held a
  | Vis c k =>
      match c with
      | Lock => if held then False else forall x, Disciplined true (k x) post
      | Unlock => if held then forall x, Disciplined false (k x) post else False
      | CombinedOutput _ _ _ =>
          if held then forall x, Disciplined true (k x) post else False
      | _ => forall x, Disciplined held (k x) post
      end
  end.

(** A call that starts and ends without the mutex. *)
Definition released {A : Type} (held : bool) (_ : A) : Prop := held = false.

Definition disciplined (held : bool) (g : Goroutine) : Prop :=
  match g with
  | Go p => Disciplined held p released
  end.

(** The invariant of the machine: its history is the history of
    disjoint passes, the mutex is locked exactly during a pass, and
    every goroutine keeps the discipline, the one inside the pass as the
    holder of the mutex. *)
Definition WellLocked {W : Type} (m : Machine W) : Prop :=
  passOf (history m) <> Broken /\
  locked m = isHeld (passOf (history m)) /\
  forall i g, pool m !! i = Some g -> disciplined (holds (passOf (history m)) i) g.

End Sched.

(* ===================================================================== *)
(** * A cluster to run the client against *)
(* ===================================================================== *)

(** An in-memory stand-in for the [helm] tool, the Helm release store
    and the API server, used to execute the client on concrete inputs. *)
Module Cluster.
Import Helm.

Record World : Type := {
  unreachable : list string;           (* repository URLs that cannot be fetched *)
  refreshFails : bool;                 (* [helm repo update] exits non-zero *)
  repositories : list (string * string); (* registered: name, URL *)
  indexed : list string;               (* repositories with a fetched index *)
  releases : list Release;             (* the release store, newest first *)
  services : list (string * Service);  (* instance label, service *)
  uninstallFault : option string       (* failure of the backend on uninstall *)
}.

Definition inb (s : string) (l : list string) : bool := existsb (String.eqb s) l.

Definition repoOf (chart : string) : string :=
  match Cut chart "/" with
  | Some (repo, _) => repo
  | None => chart
  end.

Definition helmCLI (args : list string) (w : World) : (string * error) * World :=
  match args with
  | ["repo"; "add"; name; url; "--force-update"] =>
      if inb url (unreachable w)
      then (("Error: looks like " ++ url ++ " is not a valid chart repository",
             Some "exit status 1"), w)
      else ((name ++ " has been added to your repositories", None),
            {| unreachable := unreachable w; refreshFails := refreshFails w;
               repositories := (name, url) :: repositories w;
               indexed := indexed w; releases := releases w;
               services := services w; uninstallFault := uninstallFault w |})
  | ["repo"; "update"] =>
      if refreshFails w
      then (("Error: failed to update repositories", Some "exit status 1"), w)
      else (("Update Complete.", None),
            {| unreachable := unreachable w; refreshFails := refreshFails w;
               repositories := repositories w;
               indexed := map fst (repositories w); releases := releases w;
               services := services w; uninstallFault := uninstallFault w |})
  | _ => (("Error: unknown command", Some "exit status 1"), w)
  end.

Definition newRelease (client : Install) (chrt : LoadedChart) : Release :=
  {| rName := iReleaseName client; rNamespace := iNamespace client;
     rVersion := 1; rLastDeployed := "2025-06-05T10:00:00Z";
     rStatus := "deployed"; rChartName := chName chrt;
     rChartVersion := chVersion chrt; rAppVersion := chVersion chrt |}.

Definition noRelease : Release :=
  {| rName := ""; rNamespace := ""; rVersion := 0; rLastDeployed := "";
     rStatus := ""; rChartName := ""; rChartVersion := ""; rAppVersion := "" |}.

Definition named (name : string) (r : Release) : bool := String.eqb (rName r) name.

Definition backend : Handler Cmd World :=
  fun X c =>
    match c in Cmd X return World -> X * World with
    | Lock => fun w => (tt, w)
    | Unlock => fun w => (tt, w)
    | Log _ => fun w => (tt, w)
    | CombinedOutput name args _ =>
        fun w =>
          if String.eqb name "helm" then helmCLI args w
          else (("", Some "executable file not found in $PATH"), w)
    | HistoryRun max name =>
        fun w =>
          match filter (fun r => named name r = true) (releases w) with
          | [] => (([], Some "release: not found"), w)
          | found => ((take (Z.to_nat max) found, None), w)
          end
    | LocateChart version name =>
        fun w =>
          if inb (repoOf name) (indexed w)
          then (("/cache/" ++ name ++ "-" ++ version ++ ".tgz", None), w)
          else (("", Some ("repo " ++ repoOf name ++ " not found")), w)
    | LoaderLoad path =>
        fun w => (({| chName := path; chVersion := "1.0.0" |}, None), w)
    | InstallRun client chrt _ =>
        fun w =>
          ((newRelease client chrt, None),
           {| unreachable := unreachable w; refreshFails := refreshFails w;
              repositories := repositories w; indexed := indexed w;
              releases := newRelease client chrt :: releases w;
              services := services w; uninstallFault := uninstallFault w |})
    | ListRun => fun w => ((releases w, None), w)
    | ServicesList _ labelSelector =>
        fun w =>
          ((map snd (filter (fun ls => String.eqb (instanceSelector ls.1) labelSelector = true)
                            (services w)), None), w)
    | UninstallRun _ name =>
        fun w =>
          match uninstallFault w with
          | Some e => (({| uRelease := noRelease; uInfo := "" |}, Some e), w)
          | None =>
              match filter (fun r => named name r = true) (releases w) with
              | [] =>
                  (({| uRelease := noRelease; uInfo := "" |},
                    Some ("uninstall: Release not loaded: " ++ name
                          ++ ": release: not found")), w)
              | r :: _ =>
                  (({| uRelease := r; uInfo := "" |}, None),
                   {| unreachable := unreachable w; refreshFails := refreshFails w;
                      repositories := repositories w; indexed := indexed w;
                      releases := filter (fun r => named name r = false) (releases w);
                      services := services w; uninstallFault := uninstallFault w |})
              end
          end
    | CmdRun _ args _ =>
        fun w =>
          match args with
          | [_; name; _; _; _; _] =>
              match filter (fun r => named name r = true) (releases w) with
              | [] => (("", "Error: release: not found", Some "exit status 1"), w)
              | r :: _ => (("{status: " ++ rStatus r ++ "}", "", None), w)
              end
          | _ => (("", "Error: unknown command", Some "exit status 1"), w)
          end
    | Unmarshal data => fun w => (([("info", JString data)], None), w)
    end.

Definition empty : World :=
  {| unreachable := []; refreshFails := false; repositories := []; indexed := [];
     releases := []; services := []; uninstallFault := None |}.

Definition hc : HelmClient :=
  {| config := {| AppInstallNamespace := "app-store-apps"; HelmTimeout := 300 |};
     settings_KubeConfig := "" |}.

Definition nginx : ChartDefinition :=
  {| Name := "nginx"; Chart := "bitnami/nginx"; Version := "15.0.0";
     RepoURL := "https://charts.bitnami.com/bitnami" |}.

Definition redis : ChartDefinition :=
  {| Name := "redis"; Chart := "bitnami/redis"; Version := "18.0.0";
     RepoURL := "https://charts.bitnami.com/bitnami" |}.

Definition local : ChartDefinition :=
  {| Name := "local"; Chart := "mychart"; Version := "0.1.0";
     RepoURL := "https://example.com/charts" |}.

Definition internal : Service :=
  {| sName := "nginx-headless"; sType := "ClusterIP";
     sPorts := [ {| pName := "http"; pPort := 80; pNodePort := 0 |} ] |}.

Definition web : Service :=
  {| sName := "nginx"; sType := "NodePort";
     sPorts := [ {| pName := "http"; pPort := 80; pNodePort := 30080 |};
                 {| pName := ""; pPort := 443; pNodePort := 30443 |} ] |}.

Definition balancer : Service :=
  {| sName := "nginx-metrics"; sType := "LoadBalancer";
     sPorts := [ {| pName := "metrics"; pPort := 9113; pNodePort := 31113 |} ] |}.

Definition exposed : World :=
  {| unreachable := []; refreshFails := false; repositories := []; indexed := [];
     releases := [];
     services := [("nginx", internal); ("nginx", web); ("nginx", balancer)];
     uninstallFault := None |}.

(** Two goroutines on the client: a repository synchronization and an
    installation whose first chart resolution fails.  The machine after
    eight turns: the first goroutine is inside its pass, the second has
    reached the [Lock] of its own. *)
Definition racing : list Sched.ClientCall :=
  [Sched.CallUpdateRepos [nginx]; Sched.CallInstallChart redis "" []].

Definition eightTurns : list nat := [0; 0; 1; 1; 1; 1; 1; 1]%nat.

Abbreviation contended :=
  (Sched.exec backend eightTurns (Sched.start hc racing empty)).

End Cluster.

(* ===================================================================== *)
(** * Reading traces *)
(* ===================================================================== *)

(** A property of every command a program can issue, whatever the
    answers. *)
Fixpoint Issues {E : Type -> Type} {A : Type} (P : forall X, E X -> Prop)
    (p : Prog E A) : Prop :=
  match p with
  | Ret _ => True
  | Vis c k => P _ c /\ forall x, Issues P (k x)
  end.

Definition command_of {E : Type -> Type} (P : forall X, E X -> Prop) (e : Event E) : Prop :=
  match e with
  | Ev c _ => P _ c
  end.

Module Observe.
Import Helm.

(** The Go [error] in the answer of a command. *)
Definition answerError {X : Type} (c : Cmd X) : X -> error :=
  match c in Cmd X return X -> error with
  | Lock | Unlock | Log _ => fun _ => None
  | CombinedOutput _ _ _ => snd
  | HistoryRun _ _ => snd
  | LocateChart _ _ => snd
  | LoaderLoad _ => snd
  | InstallRun _ _ _ => snd
  | ListRun => snd
  | ServicesList _ _ => snd
  | UninstallRun _ _ => snd
  | CmdRun _ _ _ => snd
  | Unmarshal _ => snd
  end.

Definition failed (e : Event Cmd) : bool :=
  match e with
  | Ev c x => match answerError c x with Some _ => true | None => false end
  end.

(** The kinds of commands. *)
Inductive Kind : Type :=
| KLock | KUnlock | KLog | KSubprocess | KHistory | KLocateChart
| KLoaderLoad | KInstallRun | KListRun | KServicesList | KUninstallRun
| KCmdRun | KUnmarshal.

Definition kind {X : Type} (c : Cmd X) : Kind :=
  match c with
  | Lock => KLock
  | Unlock => KUnlock
  | Log _ => KLog
  | CombinedOutput _ _ _ => KSubprocess
  | HistoryRun _ _ => KHistory
  | LocateChart _ _ => KLocateChart
  | LoaderLoad _ => KLoaderLoad
  | InstallRun _ _ _ => KInstallRun
  | ListRun => KListRun
  | ServicesList _ _ => KServicesList
  | UninstallRun _ _ => KUninstallRun
  | CmdRun _ _ _ => KCmdRun
  | Unmarshal _ => KUnmarshal
  end.

Definition Kind_eqb (k1 k2 : Kind) : bool :=
  match k1, k2 with
  | KLock, KLock | KUnlock, KUnlock | KLog, KLog | KSubprocess, KSubprocess
  | KHistory, KHistory | KLocateChart, KLocateChart | KLoaderLoad, KLoaderLoad
  | KInstallRun, KInstallRun | KListRun, KListRun
  | KServicesList, KServicesList | KUninstallRun, KUninstallRun
  | KCmdRun, KCmdRun | KUnmarshal, KUnmarshal => true
  | _, _ => false
  end.

(** [ofKind k e]: the event [e] is a command of kind [k]. *)
Definition ofKind (k : Kind) (e : Event Cmd) : bool :=
  match e with Ev c _ => Kind_eqb (kind c) k end.

(** No command of the program is of one of the kinds [ks]. *)
Definition Without (ks : list Kind) (X : Type) (c : Cmd X) : Prop :=
  forallb (fun k => negb (Kind_eqb (kind c) k)) ks = true.

Definition isSubprocess (e : Event Cmd) : bool := ofKind KSubprocess e.

(** [helm repo update] *)
Definition isRepoUpdateCmd {X : Type} (c : Cmd X) : bool :=
  match c with
  | CombinedOutput name args _ =>
      String.eqb name "helm" && bool_decide (args = ["repo"; "update"])
  | _ => false
  end.

Definition isRepoUpdate (e : Event Cmd) : bool :=
  match e with Ev c _ => isRepoUpdateCmd c end.

(** [helm repo add repoName ... --force-update], whatever the URL. *)
Definition addsRepo (repoName : string) (e : Event Cmd) : bool :=
  match e with
  | Ev c _ =>
      match c with
      | CombinedOutput name [a; b; n; _; f] _ =>
          String.eqb name "helm" && String.eqb a "repo" && String.eqb b "add"
          && String.eqb n repoName && String.eqb f "--force-update"
      | _ => false
      end
  end.

(** A registration of [repoName]: the subprocess ran and exited with
    status zero. *)
Definition registers (repoName : string) (e : Event Cmd) : bool :=
  addsRepo repoName e && negb (failed e).

(** A registration of [repoName] that failed. *)
Definition failsToRegister (repoName : string) (e : Event Cmd) : bool :=
  addsRepo repoName e && failed e.

Definition count (f : Event Cmd -> bool) (tr : list (Event Cmd)) : nat :=
  length (List.filter f tr).

(** Whether [repoName] is a key of [addedRepos], as a number. *)
Definition present (addedRepos : gmap string bool) (repoName : string) : nat :=
  match addedRepos !! repoName with
  | Some _ => 1
  | None => 0
  end.

(** The subprocesses [UpdateRepos] may run for [charts]: the refresh,
    and the registration of the repository of a definition that has a
    repository URL and a "/" in its chart reference, under the name
    before the first "/". *)
Definition FromCharts (hc : HelmClient) (charts : list ChartDefinition)
    (X : Type) (c : Cmd X) : Prop :=
  match c with
  | CombinedOutput name args env =>
      args = ["repo"; "update"] \/
      exists d repoName after,
        d ∈ charts /\ RepoURL d <> "" /\
        Cut (Chart d) "/" = Some (repoName, after) /\
        name = "helm" /\ args = repoAddArgs repoName (RepoURL d) /\ env = helmEnv hc
  | _ => True
  end.

(** The answer of the first [LocateChart] of a trace. *)
Fixpoint firstLocateChart (tr : list (Event Cmd)) : option (string * error) :=
  match tr with
  | [] => None
  | Ev c x :: rest =>
      match c in Cmd X return X -> option (string * error) with
      | LocateChart _ _ => fun x => Some x
      | _ => fun _ => firstLocateChart rest
      end x
  end.

(** The release name a command works on, if it is a history query or
    an installation. *)
Definition releaseNameOf {X : Type} (c : Cmd X) : option string :=
  match c with
  | HistoryRun _ name => Some name
  | InstallRun client _ _ => Some (iReleaseName client)
  | _ => None
  end.

Definition isLog (e : Event Cmd) : bool := ofKind KLog e.

Definition isSubprocessCmd {X : Type} (c : Cmd X) : bool :=
  Kind_eqb (kind c) KSubprocess.

(** The commands of a synchronization pass between [Lock] and
    [Unlock]: the logger, [helm repo add ... --force-update] and
    [helm repo update]. *)
Definition PassCommand (X : Type) (c : Cmd X) : Prop :=
  match c with
  | Log _ => True
  | CombinedOutput name args _ =>
      name = "helm" /\
      (args = ["repo"; "update"] \/ exists repoName url, args = repoAddArgs repoName url)
  | _ => False
  end.

Definition SyncCommand (X : Type) (c : Cmd X) : Prop :=
  match c with
  | Lock | Unlock => True
  | _ => PassCommand X c
  end.

(** Every subprocess that fails is followed at once by a log line. *)
Fixpoint failuresLogged (tr : list (Event Cmd)) : bool :=
  match tr with
  | [] => true
  | e :: rest =>
      (if isSubprocess e && failed e
       then match rest with e' :: _ => isLog e' | [] => false end
       else true)
      && failuresLogged rest
  end.

(** The same of a program: after a subprocess that answers with an
    error, the next command is [Log]. *)
Fixpoint LogsFailures {A : Type} (p : HProg A) : Prop :=
  match p with
  | Ret _ => True
  | Vis c k =>
      forall x,
        LogsFailures (k x) /\
        (isSubprocessCmd c = true -> answerError c x <> None ->
         exists msg k', k x = Vis (Log msg) k')
  end.

(** The command works on the release [name], if on any. *)
Definition WorksOn (name : string) (X : Type) (c : Cmd X) : Prop :=
  match releaseNameOf c with
  | Some n => n = name
  | None => True
  end.

(** Two facts about the outside world that a run of two installations
    in a row relies on: writing a log line changes nothing, and an
    installation that succeeds leaves a record in the history of its
    release. *)
(** The outside world lets an installation through at [w]: no history
    for the release, and the chart is located at once, loaded and
    installed without error. *)
Definition Succeeds {W : Type} (h : Handler Cmd W) (hc : HelmClient)
    (chartDef : ChartDefinition) (releaseName : string) (values : Values) (w : W)
    (rel : Release) : Prop :=
  let history := h _ (HistoryRun 1 releaseName) w in
  let a1 := h _ (Log (locating chartDef)) history.2 in
  let located := h _ (LocateChart (Version chartDef) (Chart chartDef)) a1.2 in
  let a2 := h _ (Log ("Found chart at path: " ++ located.1.1)) located.2 in
  let loaded := h _ (LoaderLoad located.1.1) a2.2 in
  let a3 := h _ (Log (installing hc loaded.1.1 releaseName)) loaded.2 in
  let installed :=
    h _ (InstallRun (installClient hc chartDef releaseName) loaded.1.1 values) a3.2 in
  checkHistory hc releaseName history.1.1 history.1.2 = None /\
  located.1.2 = None /\ loaded.1.2 = None /\ installed.1 = (rel, None).

Definition LogInert {W : Type} (h : Handler Cmd W) : Prop :=
  forall msg w, (h _ (Log msg) w).2 = w.

Definition InstallPersists {W : Type} (h : Handler Cmd W) : Prop :=
  forall client chrt vals w rel w1,
    h _ (InstallRun client chrt vals) w = ((rel, None), w1) ->
    exists history,
      history <> [] /\
      (h _ (HistoryRun 1 (iReleaseName client)) w1).1 = (history, None).

(** A Service of type NodePort or LoadBalancer with at least one port
    that has a node port. *)
Definition yieldsPorts (service : Service) : bool :=
  exposesNodePorts service && existsb (fun port => 0 <? pNodePort port) (sPorts service).

End Observe.

(* ===================================================================== *)
(** * pkg/appcatalog: the chart catalog *)
(* ===================================================================== *)

Module Catalog.
Import Helm.

(** [ChartMeta], an entry of the chart registry file. *)
Record ChartMeta : Type := {
  cmName : string;       (* user-friendly name, "nginx" *)
  cmChart : string;      (* full chart name, "bitnami/nginx" *)
  cmVersion : string;
  cmRepoURL : string;
  cmDescription : string
}.

(** What the package asks of the outside: the logger, the file system,
    the YAML decoder and the Go runtime, which starts a goroutine. *)
Inductive Cmd : Type -> Type :=
| Log (msg : string) : Cmd unit            (* log.Printf *)
| ReadFile (filePath : string)
    : Cmd (string * error)                 (* os.ReadFile(filePath) *)
| YamlUnmarshal (data : string)
    : Cmd (list ChartMeta * error)         (* yaml.Unmarshal(data, &registry), registry.Charts *)
| GoFunc (body : HProg unit) : Cmd unit.   (* go func() { body }() *)

Definition LoadChartRegistryFromFile (filePath : string)
    : Prog Cmd (Result (list ChartMeta)) :=
  let* '(data, err) := call (ReadFile filePath) in
  match err with
  | Some e =>
      Ret (Err ("failed to read chart config file " ++ filePath ++ ": " ++ e))
  | None =>
      let* '(charts, err) := call (YamlUnmarshal data) in
      match err with
      | Some e =>
          Ret (Err ("failed to unmarshal chart config from " ++ filePath ++ ": " ++ e))
      | None => Ret (Ok charts)
      end
  end.

(** [helm.ChartDefinition{Name: cm.Name, Chart: cm.Chart,
    Version: cm.Version, RepoURL: cm.RepoURL}], as [NewService] and
    [InstallChartHandler] write it. *)
Definition toChartDefinition (cm : ChartMeta) : ChartDefinition :=
  {| Name := cmName cm;
     Chart := cmChart cm;
     Version := cmVersion cm;
     RepoURL := cmRepoURL cm |}.

(** The goroutine [NewService] starts. *)
Definition initialRepoUpdate (hc : HelmClient)
    (helmChartDefinitions : list ChartDefinition) : HProg unit :=
  do log "Starting initial Helm repo update in background..." in
  let* err := UpdateRepos hc helmChartDefinitions in
  match err with
  | Some e => log ("Warning: Initial background Helm repo update failed: " ++ e)
  | None => log "Initial background Helm repo update completed."
  end.

Record Service : Type := {
  charts : list ChartMeta;
  helmClient : HelmClient
}.

Definition NewService (chartConfigPath : string) (hc : HelmClient)
    : Prog Cmd (Result Service) :=
  let* loaded := LoadChartRegistryFromFile chartConfigPath in
  match loaded with
  | Err e => Ret (Err ("could not load chart registry: " ++ e))
  | Ok charts =>
      do call (Log ("Loaded " ++ Sprintf_d (Z.of_nat (length charts))
                    ++ " chart configurations from " ++ chartConfigPath)) in
      let helmChartDefinitions := toChartDefinition <$> charts in
      do call (GoFunc (initialRepoUpdate hc helmChartDefinitions)) in
      Ret (Ok {| charts := charts; helmClient := hc |})
  end.

Definition GetAvailableCharts (s : Service) : list ChartMeta := charts s.

(** [for _, chart := range s.charts { if chart.Name == name { return &chart, nil } }]
    and the [return] after the loop. *)
Fixpoint GetChartByName_loop (charts : list ChartMeta) (name : string)
    : Result ChartMeta :=
  match charts with
  | [] => Err ("chart '" ++ name ++ "' not found in configured list")
  | chart :: rest =>
      if String.eqb (cmName chart) name then Ok chart
      else GetChartByName_loop rest name
  end.

Definition GetChartByName (s : Service) (name : string) : Result ChartMeta :=
  GetChartByName_loop (charts s) name.

End Catalog.

(* ===================================================================== *)
(** * pkg/api: the other handlers *)
(* ===================================================================== *)

Module ApiHandlers.
Import Catalog Helm Api.

(** [helm.InstallRequest] of [types.go]; [None] is the nil map. *)
Record InstallRequest : Type := {
  irReleaseName : string;
  irValues : option Values
}.

(** What a handler sends with [c.JSON(status, body)]. *)
Inductive Body : Type :=
| ErrorBody (text : string)                 (* gin.H{"error": text} *)
| InstalledBody (message name namespace : string) (version : Z) (status : string)
                                            (* gin.H{"message": .., "release": gin.H{..}} *)
| ReleasesBody (releases : list ReleaseInfo)
| StatusBody (statusData : Values)
| ChartsBody (charts : list ChartMeta).

Record Reply : Type := {
  status : Z;
  body : Body
}.

Definition GetChartsHandler (cs : Catalog.Service) : HProg Reply :=
  let charts := GetAvailableCharts cs in
  Ret {| status := StatusOK; body := ChartsBody charts |}.

(** Lines 45-53: [req] and [err] are what [c.ShouldBindJSON(&req)] left
    in the request and returned. *)
Definition bindRequest (chartSimpleName : string) (req : InstallRequest) (err : error)
    : HProg InstallRequest :=
  match err with
  | Some e =>
      do (if negb (String.eqb e "EOF") then
            log ("Warning: Could not bind JSON for install request for chart '"
                 ++ chartSimpleName ++ "': " ++ e)
          else Ret tt) in
      match irValues req with
      | None => Ret {| irReleaseName := irReleaseName req; irValues := Some [] |}
      | Some _ => Ret req
      end
  | None => Ret req
  end.

(** The entries of a values map; a nil map has none. *)
Definition entries (values : option Values) : Values := default [] values.

Definition installedMessage (chartMeta : ChartMeta) (release : Release) : string :=
  "Chart '" ++ cmChart chartMeta ++ "' installed successfully as release '"
  ++ rName release ++ "'".

Definition InstallChartHandler (cs : Catalog.Service) (hc : HelmClient)
    (chartSimpleName : string) (req : InstallRequest) (bindErr : error)
    : HProg Reply :=
  let* req := bindRequest chartSimpleName req bindErr in
  match GetChartByName cs chartSimpleName with
  | Err msg => Ret {| status := StatusNotFound; body := ErrorBody msg |}
  | Ok chartMeta =>
      let helmChartDef := toChartDefinition chartMeta in
      let* r := InstallChart hc helmChartDef (irReleaseName req) (entries (irValues req)) in
      match r with
      | Err msg => Ret {| status := StatusInternalServerError; body := ErrorBody msg |}
      | Ok release =>
          Ret {| status := StatusOK;
                 body := InstalledBody (installedMessage chartMeta release)
                           (rName release) (rNamespace release) (rVersion release)
                           (rStatus release) |}
      end
  end.

Definition ListReleasesHandler : HProg Reply :=
  let* r := ListInstalledReleases in
  match r with
  | Err msg => Ret {| status := StatusInternalServerError; body := ErrorBody msg |}
  | Ok releases => Ret {| status := StatusOK; body := ReleasesBody releases |}
  end.

Definition GetReleaseStatusHandler (hc : HelmClient) (releaseName : string)
    : HProg Reply :=
  let* r := GetReleaseStatus hc releaseName in
  match r with
  | Err msg =>
      if Contains msg "release: not found" || Contains msg "not found" then
        Ret {| status := StatusNotFound;
               body := ErrorBody ("Release '" ++ releaseName ++ "' not found.") |}
      else
        Ret {| status := StatusInternalServerError; body := ErrorBody msg |}
  | Ok statusData => Ret {| status := StatusOK; body := StatusBody statusData |}
  end.

End ApiHandlers.

(* ===================================================================== *)
(** * The running server *)
(* ===================================================================== *)

(** The goroutines that use the client once the server is up: the one
    [appcatalog.NewService] started and, for every request in flight, the
    goroutine in which net/http runs the handler of its route. *)
Module Server.
Import Catalog Helm Api ApiHandlers Sched.

(** The routes of [SetupRouter] that reach the client or the catalog. *)
Inductive Request : Type :=
| GetCharts                                        (* GET /api/charts *)
| PostInstall (chartName : string) (req : InstallRequest) (bindErr : error)
                                                   (* POST /api/charts/:chartName/install *)
| GetReleases                                      (* GET /api/releases *)
| GetStatus (releaseName : string)                 (* GET /api/releases/:releaseName/status *)
| DeleteRelease (releaseName : string).            (* DELETE /api/releases/:releaseName *)

Definition handle (cs : Catalog.Service) (hc : HelmClient) (r : Request) : Goroutine :=
  match r with
  | GetCharts => Go (GetChartsHandler cs)
  | PostInstall chartName req bindErr =>
      Go (InstallChartHandler cs hc chartName req bindErr)
  | GetReleases => Go ListReleasesHandler
  | GetStatus releaseName => Go (GetReleaseStatusHandler hc releaseName)
  | DeleteRelease releaseName => Go (UninstallReleaseHandler hc releaseName)
  end.

(** The goroutine has returned. *)
Definition finished (g : Goroutine) : bool :=
  match g with
  | Go (Ret _) => true
  | Go (Vis _ _) => false
  end.

(** [main]: the catalog service and the handlers share one client. *)
Definition serving {W : Type} (cs : Catalog.Service) (requests : list Request) (w : W)
    : Machine W :=
  {| pool := Go (initialRepoUpdate (helmClient cs) (toChartDefinition <$> charts cs))
             :: (handle cs (helmClient cs) <$> requests);
     locked := false;
     world := w;
     history := [] |}.

End Server.

(* ===================================================================== *)
(** * Before the server listens: pkg/config and the construction of the client *)
(* ===================================================================== *)

Module Config.

(** [config.AppConfig] *)
Record AppConfig : Type := {
  ListenPort : string;
  GinMode : string;
  AppInstallNamespace : string;
  KubeconfigPath : string;
  HelmDriver : string;
  HelmTimeout : Z;          (* time.Duration: nanoseconds, int64 *)
  ChartConfigPath : string
}.

(** [time.Second] *)
Definition Second : Z := 1000000000.

End Config.

(** [config.LoadConfig] and [helm.NewHelmClient], over one command type:
    both read the environment of the process. *)
Module Startup.
Import Helm Config.

Inductive Cmd : Type -> Type :=
| LookupEnv (key : string)
    : Cmd (string * bool)                  (* os.LookupEnv(key) *)
| Getenv (key : string) : Cmd string       (* os.Getenv(key) *)
| HomeDir : Cmd string                     (* homedir.HomeDir() *)
| CliNew : Cmd string                      (* cli.New(): the KubeConfig of the new settings *)
| ActionInit (kubeConfig namespace helmDriver : string)
    : Cmd error                            (* actionCfg.Init(configFlags, namespace, helmDriver, log.Printf) *)
| NamespacesGet (name : string)
    : Cmd error                            (* kubeClient.CoreV1().Namespaces().Get(ctx, name, ..) *)
| Log (msg : string) : Cmd unit.           (* log.Printf *)

(** ** strconv.Atoi, for a 64-bit [int] *)

Definition plus : Ascii.ascii := Ascii.ascii_of_nat 43.
Definition minus : Ascii.ascii := Ascii.ascii_of_nat 45.

(** [ch -= '0'; if ch > 9 { syntax error }] *)
Definition digitOf (ch : Ascii.ascii) : option N :=
  let n := Ascii.N_of_ascii ch in
  if ((48 <=? n) && (n <=? 57))%N then Some (n - 48)%N else None.

(** [n = n*10 + int(ch)] over the digits of [s] *)
Fixpoint digits (s : string) (n : N) : option N :=
  match s with
  | EmptyString => Some n
  | String ch rest =>
      match digitOf ch with
      | Some d => digits rest (n * 10 + d)%N
      | None => None
      end
  end.

(** At least one digit, and digits only. *)
Definition unsigned (s : string) : option Z :=
  match s with
  | EmptyString => None
  | _ => Z.of_N <$> digits s 0%N
  end.

(** The integer [s] writes: an optional sign, then digits. *)
Definition integer (s : string) : option Z :=
  match s with
  | String ch rest =>
      if Ascii.eqb ch minus then Z.opp <$> unsigned rest
      else if Ascii.eqb ch plus then unsigned rest
      else unsigned s
  | EmptyString => None
  end.

Section Libraries.
(** [strconv.Quote] and [filepath.Join] are taken as they are. *)
Variable Quote : string -> string.
Variable Join : list string -> string.

Definition Atoi (s : string) : Z * error :=
  match integer s with
  | None => (0, Some ("strconv.Atoi: parsing " ++ Quote s ++ ": invalid syntax"))
  | Some n =>
      if (- 2 ^ 63 <=? n) && (n <? 2 ^ 63) then (n, None)
      else (if n <? 0 then - 2 ^ 63 else 2 ^ 63 - 1,
            Some ("strconv.Atoi: parsing " ++ Quote s ++ ": value out of range"))
  end.

(** ** pkg/config *)

Definition getEnv (key fallback : string) : Prog Cmd string :=
  let* '(value, exists_) := call (LookupEnv key) in
  match exists_ with
  | true => Ret value
  | false => Ret fallback
  end.

Definition LoadConfig : Prog Cmd (AppConfig * error) :=
  let* home := call HomeDir in
  let defaultKubeconfig :=
    if negb (String.eqb home "") then Join [home; ".kube"; "config"] else "" in
  let* helmTimeoutStr := getEnv "HELM_TIMEOUT_SECONDS" "300" in
  let '(parsed, err) := Atoi helmTimeoutStr in
  let* helmTimeoutSec :=
    match err with
    | Some e =>
        do call (Log ("Warning: Invalid HELM_TIMEOUT_SECONDS value '" ++ helmTimeoutStr
                      ++ "', using default 300s. Error: " ++ e)) in
        Ret 300
    | None => Ret parsed
    end in
  let* listenPort := getEnv "APP_PORT" "8080" in
  let* ginMode := getEnv "GIN_MODE" "debug" in
  let* appInstallNamespace := getEnv "APP_INSTALL_NAMESPACE" "app-store-apps" in
  let* kubeconfigPath := getEnv "KUBECONFIG" defaultKubeconfig in
  let* helmDriver := getEnv "HELM_DRIVER" "secret" in
  let* chartConfigPath := getEnv "CHART_CONFIG_PATH" "charts.yaml" in
  Ret ({| ListenPort := listenPort;
          GinMode := ginMode;
          AppInstallNamespace := appInstallNamespace;
          KubeconfigPath := kubeconfigPath;
          HelmDriver := helmDriver;
          HelmTimeout := Metrics.wrap64 (helmTimeoutSec * Second);
          ChartConfigPath := chartConfigPath |}, None).

End Libraries.

(** ** NewHelmClient *)

(** [os.Getenv("KUBERNETES_SERVICE_HOST") != "" &&
     os.Getenv("KUBERNETES_SERVICE_PORT") != ""] *)
Definition inCluster : Prog Cmd bool :=
  let* host := call (Getenv "KUBERNETES_SERVICE_HOST") in
  if negb (String.eqb host "") then
    let* port := call (Getenv "KUBERNETES_SERVICE_PORT") in
    Ret (negb (String.eqb port ""))
  else Ret false.

(** [&HelmClient{config: cfg, settings: settings, ..}], as far as the
    client reads it later. *)
Definition clientOf (cfg : Config.AppConfig) (settingsKubeConfig : string) : HelmClient :=
  {| config := {| Helm.AppInstallNamespace := Config.AppInstallNamespace cfg;
                  Helm.HelmTimeout := Config.HelmTimeout cfg |};
     settings_KubeConfig := settingsKubeConfig |}.

(** Lines 56-76, with the [KubeConfig] of the configuration flags and of
    the settings as lines 38-53 left them. *)
Definition initialize (cfg : Config.AppConfig) (flagsKubeConfig settingsKubeConfig : string)
    : Prog Cmd (Result HelmClient) :=
  let* err :=
    call (ActionInit flagsKubeConfig (Config.AppInstallNamespace cfg)
            (Config.HelmDriver cfg)) in
  match err with
  | Some e => Ret (Err ("failed to initialize Helm action configuration: " ++ e))
  | None =>
      let hc := clientOf cfg settingsKubeConfig in
      let* errNs := call (NamespacesGet (Config.AppInstallNamespace cfg)) in
      do match errNs with
         | Some e =>
             if Contains e "not found" then
               call (Log ("Target application namespace "
                          ++ Config.AppInstallNamespace cfg
                          ++ " not found. Please ensure it exists."))
             else
               call (Log ("Error checking namespace "
                          ++ Config.AppInstallNamespace cfg ++ ": " ++ e))
         | None => Ret tt
         end in
      Ret (Ok hc)
  end.

Definition NewHelmClient (cfg : Config.AppConfig) : Prog Cmd (Result HelmClient) :=
  let* settingsKubeConfig := call CliNew in
  let* inCluster := inCluster in
  if negb inCluster then
    if String.eqb (Config.KubeconfigPath cfg) "" then
      Ret (Err "kubeconfig path is not set for out-of-cluster configuration")
    else
      initialize cfg (Config.KubeconfigPath cfg) (Config.KubeconfigPath cfg)
  else
    (* "If in-cluster, configFlags with empty KubeConfig path will use
       in-cluster mechanisms." *)
    initialize cfg "" settingsKubeConfig.

End Startup.

(* ===================================================================== *)
(** * Reading traces of the client *)
(* ===================================================================== *)

Module Traces.
Import Helm.

(** The installations a trace attempted: the install action, the chart,
    the values and the answer of the backend. *)
Definition installAttempt (e : Event Cmd)
    : option (Install * LoadedChart * Values * (Release * error)) :=
  match e with
  | Ev c x =>
      match c in Cmd X
            return X -> option (Install * LoadedChart * Values * (Release * error)) with
      | InstallRun client chrt vals => fun x => Some (client, chrt, vals, x)
      | _ => fun _ => None
      end x
  end.

Definition installAttempts (tr : list (Event Cmd))
    : list (Install * LoadedChart * Values * (Release * error)) :=
  omap installAttempt tr.

(** The Service queries of a trace: namespace, label selector, answer. *)
Definition serviceQuery (e : Event Cmd)
    : option (string * string * (list Service * error)) :=
  match e with
  | Ev c x =>
      match c in Cmd X return X -> option (string * string * (list Service * error)) with
      | ServicesList namespace labelSelector => fun x => Some (namespace, labelSelector, x)
      | _ => fun _ => None
      end x
  end.

Definition serviceQueries (tr : list (Event Cmd))
    : list (string * string * (list Service * error)) :=
  omap serviceQuery tr.

(** The node ports [getReleaseNodePorts] makes of the answer to its
    query. *)
Definition portsOf (answer : list Service * error) : gmap string Z :=
  match answer.2 with
  | None => scanServices answer.1 ∅
  | Some _ => ∅
  end.

(** The port contributes the entry [k] to the node port map. *)
Definition reports (k : string) (port : ServicePort) : Prop :=
  0 < pNodePort port /\ portName port = k.

(** [helm repo add], whatever the repository. *)
Definition isRepoAdd (e : Event Cmd) : bool :=
  match e with
  | Ev c _ =>
      match c with
      | CombinedOutput name [a; b; _; _; f] _ =>
          String.eqb name "helm" && String.eqb a "repo" && String.eqb b "add"
          && String.eqb f "--force-update"
      | _ => false
      end
  end.

(** A [helm repo add] that exited with status zero. *)
Definition registered (e : Event Cmd) : bool := isRepoAdd e && negb (Observe.failed e).

(** The log lines of a trace. *)
Definition logLine (e : Event Cmd) : option string :=
  match e with
  | Ev c _ =>
      match c with
      | Log msg => Some msg
      | _ => None
      end
  end.

Definition logLines (tr : list (Event Cmd)) : list string := omap logLine tr.

(** The goroutines a run of the catalog package started. *)
Definition started (e : Event Catalog.Cmd) : option (HProg unit) :=
  match e with
  | Ev c _ =>
      match c with
      | Catalog.GoFunc body => Some body
      | _ => None
      end
  end.

(** Every [helm] process the command starts gets [env] on top of the
    environment of the server. *)
Definition UsesEnv (env : list string) (X : Type) (c : Cmd X) : Prop :=
  match c with
  | CombinedOutput _ _ extraEnv => extraEnv = env
  | CmdRun _ _ extraEnv => extraEnv = env
  | _ => True
  end.

(** The initializations of the Helm SDK a run of the constructor asked
    for: the kubeconfig of the flags, the namespace, the driver, and
    the answer. *)
Definition initialization (e : Event Startup.Cmd)
    : option (string * string * string * error) :=
  match e with
  | Ev c x =>
      match c in Startup.Cmd X return X -> option (string * string * string * error) with
      | Startup.ActionInit kubeConfig namespace helmDriver =>
          fun x => Some (kubeConfig, namespace, helmDriver, x)
      | _ => fun _ => None
      end x
  end.

Definition initializations (tr : list (Event Startup.Cmd))
    : list (string * string * string * error) :=
  omap initialization tr.


End Traces.

(* ===================================================================== *)
(** * Scenarios *)
(* ===================================================================== *)

(** Worlds, catalogs and failures to run the server on concrete inputs. *)
Module Scenario.
Import Helm Observe.

(** The answer of a command that fails with [e]. *)
Definition failure {X : Type} (e : string) (c : Cmd X) : X :=
  match c in Cmd X return X with
  | Lock | Unlock | Log _ => tt
  | CombinedOutput _ _ _ => ("Error: " ++ e, Some "exit status 1")
  | HistoryRun _ _ => ([], Some e)
  | LocateChart _ _ => ("", Some e)
  | LoaderLoad _ => ({| chName := ""; chVersion := "" |}, Some e)
  | InstallRun _ _ _ => (Cluster.noRelease, Some e)
  | ListRun => ([], Some e)
  | ServicesList _ _ => ([], Some e)
  | UninstallRun _ _ => ({| uRelease := Cluster.noRelease; uInfo := "" |}, Some e)
  | CmdRun _ _ _ => ("", "Error: " ++ e, Some "exit status 1")
  | Unmarshal _ => ([], Some e)
  end.

Definition unreachable : string :=
  "Kubernetes cluster unreachable: dial tcp 10.0.0.1:443: i/o timeout".

(** The in-memory cluster with the commands of the kinds [ks] failing. *)
Definition failing (ks : list Kind) : Handler Cmd Cluster.World :=
  fun X c w =>
    if existsb (Kind_eqb (kind c)) ks then (failure unreachable c, w)
    else Cluster.backend X c w.

(** A cluster whose repository cache knows the bitnami repository. *)
Definition cached : Cluster.World :=
  {| Cluster.unreachable := []; Cluster.refreshFails := false;
     Cluster.repositories := [("bitnami", "https://charts.bitnami.com/bitnami")];
     Cluster.indexed := ["bitnami"];
     Cluster.releases := []; Cluster.services := [];
     Cluster.uninstallFault := None |}.

Definition nginxRelease : Release :=
  {| rName := "nginx"; rNamespace := "app-store-apps"; rVersion := 1;
     rLastDeployed := "2025-06-05T10:00:00Z"; rStatus := "deployed";
     rChartName := "nginx"; rChartVersion := "15.0.0"; rAppVersion := "1.25.0" |}.

Definition redisRelease : Release :=
  {| rName := "redis"; rNamespace := "app-store-apps"; rVersion := 3;
     rLastDeployed := "2025-06-06T08:30:00Z"; rStatus := "failed";
     rChartName := "redis"; rChartVersion := "18.0.0"; rAppVersion := "7.2.0" |}.

(** The cluster with two releases; the first has the Services of
    [Cluster.exposed]. *)
Definition deployed : Cluster.World :=
  {| Cluster.unreachable := []; Cluster.refreshFails := false;
     Cluster.repositories := [("bitnami", "https://charts.bitnami.com/bitnami")];
     Cluster.indexed := ["bitnami"];
     Cluster.releases := [nginxRelease; redisRelease];
     Cluster.services := Cluster.services Cluster.exposed;
     Cluster.uninstallFault := None |}.

Definition nginxMeta : Catalog.ChartMeta :=
  {| Catalog.cmName := "nginx"; Catalog.cmChart := "bitnami/nginx";
     Catalog.cmVersion := "15.0.0";
     Catalog.cmRepoURL := "https://charts.bitnami.com/bitnami";
     Catalog.cmDescription := "NGINX web server" |}.

Definition redisMeta : Catalog.ChartMeta :=
  {| Catalog.cmName := "redis"; Catalog.cmChart := "bitnami/redis";
     Catalog.cmVersion := "18.0.0";
     Catalog.cmRepoURL := "https://charts.bitnami.com/bitnami";
     Catalog.cmDescription := "Redis key-value store" |}.

(** A second entry named "nginx", after the first. *)
Definition nginxEdge : Catalog.ChartMeta :=
  {| Catalog.cmName := "nginx"; Catalog.cmChart := "edge/nginx";
     Catalog.cmVersion := "16.0.0";
     Catalog.cmRepoURL := "https://example.com/edge";
     Catalog.cmDescription := "NGINX, edge channel" |}.

Definition catalog : Catalog.Service :=
  {| Catalog.charts := [nginxMeta; redisMeta; nginxEdge];
     Catalog.helmClient := Cluster.hc |}.

(** The request body [{}], and no body at all. *)
Definition emptyObject : ApiHandlers.InstallRequest :=
  {| ApiHandlers.irReleaseName := ""; ApiHandlers.irValues := None |}.

(** The process environment and the cluster the constructor meets. *)
Record Host : Type := {
  variables : list (string * string);
  initError : error;
  namespaceError : error
}.

Definition getenv (variables : list (string * string)) (key : string) : string :=
  match List.find (fun kv => String.eqb kv.1 key) variables with
  | Some kv => kv.2
  | None => ""
  end.

Definition host : Handler Startup.Cmd Host :=
  fun X c =>
    match c in Startup.Cmd X return Host -> X * Host with
    | Startup.LookupEnv key =>
        fun w =>
          match List.find (fun kv => String.eqb kv.1 key) (variables w) with
          | Some kv => ((kv.2, true), w)
          | None => (("", false), w)
          end
    | Startup.HomeDir => fun w => (getenv (variables w) "HOME", w)
    | Startup.CliNew => fun w => ("", w)
    | Startup.Getenv key => fun w => (getenv (variables w) key, w)
    | Startup.ActionInit _ _ _ => fun w => (initError w, w)
    | Startup.NamespacesGet _ => fun w => (namespaceError w, w)
    | Startup.Log _ => fun w => (tt, w)
    end.

(** A workstation: no service account, and the target namespace does not
    exist yet. *)
Definition workstation : Host :=
  {| variables := [("HOME", "/home/dev")];
     initError := None;
     namespaceError := Some "namespaces app-store-apps not found" |}.

Definition settings (kubeconfigPath : string) : Config.AppConfig :=
  {| Config.ListenPort := "8080"; Config.GinMode := "debug";
     Config.AppInstallNamespace := "app-store-apps";
     Config.KubeconfigPath := kubeconfigPath;
     Config.HelmDriver := "secret";
     Config.HelmTimeout := 300 * 1000000000;
     Config.ChartConfigPath := "charts.yaml" |}.

End Scenario.

(* ===================================================================== *)
(** * Facts about command trees *)
(* ===================================================================== *)

Section ProgFacts.
Context {E : Type -> Type} {W : Type} (h : Handler E W).

Lemma run_bind {A B : Type} (p : Prog E A) (f : A -> Prog E B) (w : W) :
  run h (bind p f) w =
  let '(a, w1, t1) := run h p w in
  let '(b, w2, t2) := run h (f a) w1 in
  (b, w2, (t1 ++ t2)%list).
Proof.
  revert w. induction p as [a | X c k IH]; intros w; simpl.
  - by destruct (run h (f a) w) as [[b w2] t2].
  - destruct (h X c w) as [x w1]. rewrite IH.
    destruct (run h (k x) w1) as [[a w2] t1].
    by destruct (run h (f a) w2) as [[b w3] t2].
Qed.

Lemma result_bind {A B : Type} (p : Prog E A) (f : A -> Prog E B) (w : W) :
  result_of h (bind p f) w = result_of h (f (result_of h p w)) (world_of h p w).
Proof.
  unfold result_of, world_of. rewrite run_bind.
  destruct (run h p w) as [[a w1] t1]; simpl.
  by destruct (run h (f a) w1) as [[b w2] t2].
Qed.

Lemma world_bind {A B : Type} (p : Prog E A) (f : A -> Prog E B) (w : W) :
  world_of h (bind p f) w = world_of h (f (result_of h p w)) (world_of h p w).
Proof.
  unfold result_of, world_of. rewrite run_bind.
  destruct (run h p w) as [[a w1] t1]; simpl.
  by destruct (run h (f a) w1) as [[b w2] t2].
Qed.

Lemma trace_bind {A B : Type} (p : Prog E A) (f : A -> Prog E B) (w : W) :
  trace_of h (bind p f) w =
  (trace_of h p w ++ trace_of h (f (result_of h p w)) (world_of h p w))%list.
Proof.
  unfold trace_of, result_of, world_of. rewrite run_bind.
  destruct (run h p w) as [[a w1] t1]; simpl.
  by destruct (run h (f a) w1) as [[b w2] t2].
Qed.

Lemma result_call {X B : Type} (c : E X) (f : X -> Prog E B) (w : W) :
  result_of h (bind (call c) f) w = result_of h (f (h X c w).1) (h X c w).2.
Proof.
  unfold result_of; simpl. destruct (h X c w) as [x w1]; simpl.
  by destruct (run h (f x) w1) as [[b w2] t2].
Qed.

Lemma world_call {X B : Type} (c : E X) (f : X -> Prog E B) (w : W) :
  world_of h (bind (call c) f) w = world_of h (f (h X c w).1) (h X c w).2.
Proof.
  unfold world_of; simpl. destruct (h X c w) as [x w1]; simpl.
  by destruct (run h (f x) w1) as [[b w2] t2].
Qed.

Lemma trace_call {X B : Type} (c : E X) (f : X -> Prog E B) (w : W) :
  trace_of h (bind (call c) f) w =
  Ev c (h X c w).1 :: trace_of h (f (h X c w).1) (h X c w).2.
Proof.
  unfold trace_of; simpl. destruct (h X c w) as [x w1]; simpl.
  by destruct (run h (f x) w1) as [[b w2] t2].
Qed.

Lemma trace_ret {A : Type} (a : A) (w : W) : trace_of h (Ret a) w = [].
Proof. done. Qed.

Lemma trace_single {X : Type} (c : E X) (w : W) :
  trace_of h (call c) w = [Ev c (h X c w).1].
Proof. unfold trace_of; simpl. by destruct (h X c w) as [x w1]. Qed.

Lemma world_single {X : Type} (c : E X) (w : W) :
  world_of h (call c) w = (h X c w).2.
Proof. unfold world_of; simpl. by destruct (h X c w) as [x w1]. Qed.

Lemma result_single {X : Type} (c : E X) (w : W) :
  result_of h (call c) w = (h X c w).1.
Proof. unfold result_of; simpl. by destruct (h X c w) as [x w1]. Qed.

Lemma Issues_bind {A B : Type} (P : forall X, E X -> Prop)
    (p : Prog E A) (f : A -> Prog E B) :
  Issues P p -> (forall a, Issues P (f a)) -> Issues P (bind p f).
Proof.
  intros Hp Hf. induction p as [a | X c k IH]; simpl in *; [done|].
  destruct Hp as [Hc Hk]. split; [done|]. intros x. by apply IH.
Qed.

Lemma Issues_weaken {A : Type} (P Q : forall X, E X -> Prop) (p : Prog E A) :
  (forall X (c : E X), P X c -> Q X c) -> Issues P p -> Issues Q p.
Proof.
  intros HPQ. induction p as [a | X c k IH]; simpl; [done|].
  intros [Hc Hk]. split; [by apply HPQ|]. intros x. by apply IH.
Qed.

(** A property of all the commands of a program holds of every event of
    each of its runs. *)
Lemma Issues_trace {A : Type} (P : forall X, E X -> Prop) (p : Prog E A) (w : W) :
  Issues P p -> Forall (command_of P) (trace_of h p w).
Proof.
  revert w. induction p as [a | X c k IH]; intros w Hp.
  - constructor.
  - destruct Hp as [Hc Hk]. unfold trace_of in *. simpl.
    destruct (h X c w) as [x w1]. specialize (IH x w1 (Hk x)).
    destruct (run h (k x) w1) as [[a w2] t]. simpl in *.
    constructor; [exact Hc | exact IH].
Qed.

End ProgFacts.

(* ===================================================================== *)
(** * Facts about Go strings *)
(* ===================================================================== *)

Section StringFacts.
#[local] Arguments String.append !_ _ / : simpl nomatch.

Lemma append_assoc (a b c : string) : (a ++ b) ++ c = a ++ b ++ c.
Proof. induction a as [|x a IH]; simpl; [done|]. by rewrite IH. Qed.

Lemma HasPrefix_app (p r : string) : HasPrefix (p ++ r) p = true.
Proof.
  induction p as [|c p IH]; simpl; [done|].
  by rewrite Ascii.eqb_refl.
Qed.

Lemma HasPrefix_inv (s p : string) :
  HasPrefix s p = true -> exists r, s = p ++ r.
Proof.
  revert s. induction p as [|c p IH]; intros s H; simpl in *.
  - by exists s.
  - destruct s as [|d s]; [done|].
    destruct (Ascii.eqb_spec c d) as [->|]; [|done].
    destruct (IH s H) as [r ->]. by exists r.
Qed.

Lemma Contains_HasPrefix (s sub : string) :
  HasPrefix s sub = true -> Contains s sub = true.
Proof. intros H. destruct s; simpl; rewrite H; done. Qed.

Lemma Contains_intro (a sub b : string) : Contains (a ++ sub ++ b) sub = true.
Proof.
  induction a as [|c a IH]; simpl.
  - apply Contains_HasPrefix, HasPrefix_app.
  - rewrite IH. by rewrite orb_true_r.
Qed.

Lemma Contains_inv (s sub : string) :
  Contains s sub = true -> exists a b, s = a ++ sub ++ b.
Proof.
  induction s as [|c s IH]; simpl; intros H.
  - rewrite orb_false_r in H. destruct (HasPrefix_inv _ _ H) as [r Hr].
    by exists "", r.
  - apply orb_true_iff in H as [H|H].
    + destruct (HasPrefix_inv _ _ H) as [r Hr]. by exists "", r.
    + destruct (IH H) as (a & b & ->). by exists (String c a), b.
Qed.

Lemma CutPrefix_inv (s p r : string) : CutPrefix s p = Some r -> s = p ++ r.
Proof.
  revert s. induction p as [|c p IH]; intros s H; simpl in *.
  - congruence.
  - destruct s as [|d s]; [done|].
    destruct (Ascii.eqb_spec c d) as [->|]; [|done].
    by rewrite (IH s H).
Qed.

Lemma CutPrefix_HasPrefix (s p : string) :
  CutPrefix s p = None <-> HasPrefix s p = false.
Proof.
  revert s. induction p as [|c p IH]; intros s; simpl.
  - done.
  - destruct s as [|d s]; [done|]. destruct (Ascii.eqb c d); [apply IH | done].
Qed.

(** [Cut] splits at an occurrence of the separator... *)
Lemma Cut_Some (s sep before after : string) :
  Cut s sep = Some (before, after) -> s = before ++ sep ++ after.
Proof.
  revert before. induction s as [|c s IH]; intros before; simpl.
  - destruct (CutPrefix "" sep) eqn:Hp; [|done].
    intros [= <- <-]. exact (CutPrefix_inv _ _ _ Hp).
  - destruct (CutPrefix (String c s) sep) eqn:Hp.
    + intros [= <- <-]. exact (CutPrefix_inv _ _ _ Hp).
    + destruct (Cut s sep) as [[b a]|] eqn:Hc; [|done].
      intros [= <- <-]. by rewrite (IH b).
Qed.

(** ... which is the first one: the separator does not start inside the
    text before it. *)
Lemma Cut_first (s sep before after : string) :
  Cut s sep = Some (before, after) ->
  forall a b, before = a ++ b -> b <> "" -> HasPrefix (b ++ sep ++ after) sep = false.
Proof.
  revert before. induction s as [|c s IH]; intros before; simpl.
  - destruct (CutPrefix "" sep) eqn:Hp; [|done].
    intros [= <- <-] a b Hab Hb. by destruct a, b.
  - destruct (CutPrefix (String c s) sep) eqn:Hp.
    + intros [= <- <-] a b Hab Hb. by destruct a, b.
    + destruct (Cut s sep) as [[b0 a0]|] eqn:Hc; [|done].
      intros [= <- <-] a b Hab Hb.
      destruct a as [|d a]; simpl in Hab.
      * subst b. simpl. apply CutPrefix_HasPrefix.
        by rewrite <- (Cut_Some _ _ _ _ Hc).
      * injection Hab as -> ->. by apply (IH _ eq_refl a b).
Qed.

Lemma Cut_None (s sep : string) : Cut s sep = None <-> Contains s sep = false.
Proof.
  induction s as [|c s IH]; simpl.
  - rewrite orb_false_r. destruct (CutPrefix "" sep) eqn:Hp.
    + split; [done|]. intros H. apply CutPrefix_HasPrefix in H. congruence.
    + split; [|done]. intros _. by apply CutPrefix_HasPrefix.
  - destruct (CutPrefix (String c s) sep) eqn:Hp.
    + split; [done|]. intros H. apply orb_false_iff in H as [H _].
      apply CutPrefix_HasPrefix in H. congruence.
    + apply CutPrefix_HasPrefix in Hp. rewrite Hp. simpl.
      destruct (Cut s sep) as [[b a]|]; split; try done.
      * intros H. apply IH in H. done.
      * intros _. by apply IH.
Qed.

(** The text before the first "/" has no "/" in it. *)
Lemma Cut_byte (d c : Ascii.ascii) (s : string) :
  Cut (String c s) (String d "") =
  if Ascii.eqb d c then Some ("", s)
  else match Cut s (String d "") with
       | Some (before, after) => Some (String c before, after)
       | None => None
       end.
Proof. cbn [Cut CutPrefix]. by destruct (Ascii.eqb d c). Qed.

Lemma Contains_byte (d c : Ascii.ascii) (s : string) :
  Contains (String c s) (String d "") = Ascii.eqb d c || Contains s (String d "").
Proof. cbn [Contains HasPrefix]. by destruct (Ascii.eqb d c). Qed.

Lemma Cut_byte_before (d : Ascii.ascii) (s before after : string) :
  Cut s (String d "") = Some (before, after) -> Contains before (String d "") = false.
Proof.
  revert before. induction s as [|c s IH]; intros before; [done|].
  rewrite Cut_byte. destruct (Ascii.eqb d c) eqn:He.
  - by intros [= <- <-].
  - destruct (Cut s (String d "")) as [[b a]|] eqn:Hc; [|done].
    intros [= <- <-]. rewrite Contains_byte, He. by apply (IH b).
Qed.

Lemma Cut_slash_before (s before after : string) :
  Cut s "/" = Some (before, after) -> Contains before "/" = false.
Proof. apply Cut_byte_before. Qed.

(** [len(strings.SplitN(s, "/", 2)) < 2] exactly when [s] has no "/". *)
Lemma SplitN2_short (s : string) :
  (length (SplitN2 s "/") <? 2)%nat = negb (Contains s "/").
Proof.
  unfold SplitN2. destruct (Cut s "/") as [[b a]|] eqn:Hc; simpl.
  - destruct (Contains s "/") eqn:Hs; [done|].
    apply Cut_None in Hs. congruence.
  - apply Cut_None in Hc. by rewrite Hc.
Qed.

End StringFacts.

(* ===================================================================== *)
(** * UpdateRepos *)
(* ===================================================================== *)

Section UpdateReposFacts.
Import Helm Observe.
Context {W : Type} (h : Handler Cmd W).

Lemma LogsFailures_bind {A B : Type} (p : HProg A) (f : A -> HProg B) :
  LogsFailures p -> (forall a, LogsFailures (f a)) -> LogsFailures (bind p f).
Proof.
  intros Hp Hf. induction p as [a | X c k IH]; simpl in *; [done|].
  intros x. destruct (Hp x) as [Hk Hlog]. split; [by apply IH|].
  intros Hc Hx. destruct (Hlog Hc Hx) as (msg & k' & ->). simpl. eauto.
Qed.

Lemma LogsFailures_trace {A : Type} (p : HProg A) (w : W) :
  LogsFailures p -> failuresLogged (trace_of h p w) = true.
Proof.
  revert w. induction p as [a | X c k IH]; intros w Hp; [done|].
  unfold trace_of in *. cbn [run].
  destruct (h X c w) as [x w1] eqn:Hh. destruct (Hp x) as [Hk Hlog].
  specialize (IH x w1 Hk).
  destruct (run h (k x) w1) as [[a w2] t] eqn:Hr.
  cbn [snd failuresLogged] in *. rewrite IH, andb_true_r.
  change (isSubprocess (Ev c x)) with (isSubprocessCmd c).
  destruct (isSubprocessCmd c) eqn:Hc; [|done].
  unfold failed. destruct (answerError c x) eqn:He; [|done].
  destruct Hlog as (msg & k' & Hkx); [done..|].
  rewrite Hkx in Hr. cbn [run] in Hr.
  destruct (h unit (Log msg) w1) as [u w3].
  destruct (run h (k' u) w3) as [[a' w4] t']. by injection Hr as <- <- <-.
Qed.

Lemma UpdateRepos_loop_pass (hc : HelmClient) (charts : list ChartDefinition)
    (addedRepos : gmap string bool) :
  Issues PassCommand (UpdateRepos_loop hc charts addedRepos).
Proof.
  revert addedRepos. induction charts as [|chart rest IH]; intros addedRepos; simpl; [done|].
  destruct (String.eqb (RepoURL chart) ""); [apply IH|].
  destruct (length (SplitN2 (Chart chart) "/") <? 2)%nat.
  { simpl. split; [done|]. intros _. apply IH. }
  destruct (addedRepos !! _); [apply IH|].
  simpl. split; [done|]. intros _. split; [split; [done|right; eauto]|].
  intros [output [e|]]; simpl; (split; [done|]); intros _; apply IH.
Qed.

Lemma UpdateRepos_refresh_pass (hc : HelmClient) (addedRepos : gmap string bool) :
  Issues PassCommand (UpdateRepos_refresh hc addedRepos).
Proof.
  unfold UpdateRepos_refresh. destruct (0 <? size addedRepos)%nat; simpl; [|done].
  split; [done|]. intros _. split; [split; [done|by left]|].
  by intros [output [e|]]; simpl.
Qed.

Lemma UpdateRepos_body_pass (hc : HelmClient) (charts : list ChartDefinition) :
  Issues PassCommand (UpdateRepos_body hc charts).
Proof.
  unfold UpdateRepos_body. apply Issues_bind; [apply UpdateRepos_loop_pass|].
  intros addedRepos. apply Issues_bind; [apply UpdateRepos_refresh_pass|done].
Qed.

Lemma UpdateRepos_sync (hc : HelmClient) (charts : list ChartDefinition) :
  Issues SyncCommand (UpdateRepos hc charts).
Proof.
  unfold UpdateRepos. simpl. split; [done|]. intros _.
  apply Issues_bind.
  - eapply Issues_weaken; [|apply UpdateRepos_body_pass]. by intros X [].
  - intros r. simpl. done.
Qed.

Lemma UpdateRepos_loop_logs (hc : HelmClient) (charts : list ChartDefinition)
    (addedRepos : gmap string bool) :
  LogsFailures (UpdateRepos_loop hc charts addedRepos).
Proof.
  revert addedRepos. induction charts as [|chart rest IH]; intros addedRepos; simpl; [done|].
  destruct (String.eqb (RepoURL chart) ""); [apply IH|].
  destruct (length (SplitN2 (Chart chart) "/") <? 2)%nat.
  { simpl. intros _. split; [apply IH|done]. }
  destruct (addedRepos !! _); [apply IH|].
  simpl. intros _. split; [|done].
  intros [output [e|]]; simpl.
  - split; [|eauto]. intros _. split; [apply IH|done].
  - split; [|done]. intros _. split; [apply IH|done].
Qed.

Lemma UpdateRepos_logs (hc : HelmClient) (charts : list ChartDefinition) :
  LogsFailures (UpdateRepos hc charts).
Proof.
  unfold UpdateRepos, UpdateRepos_body. simpl. intros _. split; [|done].
  apply LogsFailures_bind; [apply LogsFailures_bind|].
  - apply UpdateRepos_loop_logs.
  - intros addedRepos. apply LogsFailures_bind; [|done].
    unfold UpdateRepos_refresh. destruct (0 <? size addedRepos)%nat; simpl; [|done].
    intros _. split; [|done]. intros [output [e|]]; simpl; (split; [|eauto]); done.
  - intros r. simpl. done.
Qed.

Lemma UpdateRepos_body_result (hc : HelmClient) (charts : list ChartDefinition) (w : W) :
  result_of h (UpdateRepos_body hc charts) w = None.
Proof. unfold UpdateRepos_body. by rewrite !result_bind. Qed.

Lemma UpdateRepos_result (hc : HelmClient) (charts : list ChartDefinition) (w : W) :
  result_of h (UpdateRepos hc charts) w = None.
Proof.
  unfold UpdateRepos. rewrite result_call, result_bind, result_call.
  apply UpdateRepos_body_result.
Qed.

(** C1 (as the code has it): whatever the outside world answers, and so
    also when the final [helm repo update] exits with an error,
    [UpdateRepos] returns [nil].  A subprocess that fails, be it one
    registration or the final refresh, is followed by a log line and
    the pass goes on; the pass runs nothing but [helm repo add ...
    --force-update] and [helm repo update], so nothing registered is
    taken back. *)
Theorem UpdateRepos_returns_nil (hc : HelmClient) (charts : list ChartDefinition) (w : W) :
  result_of h (UpdateRepos hc charts) w = None /\
  failuresLogged (trace_of h (UpdateRepos hc charts) w) = true /\
  Forall (command_of SyncCommand) (trace_of h (UpdateRepos hc charts) w).
Proof.
  split; [apply UpdateRepos_result|]. split.
  - apply LogsFailures_trace, UpdateRepos_logs.
  - apply Issues_trace, UpdateRepos_sync.
Qed.

Lemma count_cons (f : Event Cmd -> bool) (e : Event Cmd) (tr : list (Event Cmd)) :
  count f (e :: tr) = ((if f e then 1 else 0) + count f tr)%nat.
Proof. unfold count. simpl. by destruct (f e). Qed.

Lemma count_app (f : Event Cmd -> bool) (t1 t2 : list (Event Cmd)) :
  count f (t1 ++ t2)%list = (count f t1 + count f t2)%nat.
Proof. unfold count. by rewrite List.filter_app, length_app. Qed.

Lemma present_insert (addedRepos : gmap string bool) (repoName name : string) :
  addedRepos !! repoName = None ->
  present (<[repoName := true]> addedRepos) name =
  ((if String.eqb repoName name then 1 else 0) + present addedRepos name)%nat.
Proof.
  intros Hnone. unfold present. destruct (String.eqb_spec repoName name) as [->|Hne].
  - by rewrite lookup_insert_eq, Hnone.
  - by rewrite lookup_insert_ne.
Qed.

(** The registrations of [name] by the loop are what separates the final
    [addedRepos] from the initial one. *)
Lemma UpdateRepos_loop_registers (hc : HelmClient) (name : string)
    (charts : list ChartDefinition) (addedRepos : gmap string bool) (w : W) :
  (count (registers name) (trace_of h (UpdateRepos_loop hc charts addedRepos) w)
   + present addedRepos name)%nat
  = present (result_of h (UpdateRepos_loop hc charts addedRepos) w) name.
Proof.
  revert addedRepos w.
  induction charts as [|chart rest IH]; intros addedRepos w; cbn [UpdateRepos_loop]; [done|].
  destruct (String.eqb (RepoURL chart) ""); [apply IH|].
  destruct (length (SplitN2 (Chart chart) "/") <? 2)%nat.
  { unfold log. rewrite trace_call, result_call, count_cons. apply IH. }
  set (repoName := nth 0 (SplitN2 (Chart chart) "/") "").
  destruct (addedRepos !! repoName) eqn:Hadded; [apply IH|].
  unfold log. rewrite !trace_call, !result_call, !count_cons.
  match goal with
  | |- context [h ?X (CombinedOutput ?a ?b ?c) ?w1] =>
      destruct (h X (CombinedOutput a b c) w1) as [[output err] w2] eqn:Hcmd
  end.
  cbn [fst snd].
  destruct err as [e|].
  - rewrite trace_call, result_call, count_cons.
    unfold registers at 2. cbn [failed answerError snd]. rewrite andb_false_r.
    cbn [registers isLog addsRepo andb]. apply IH.
  - rewrite trace_call, result_call, count_cons.
    rewrite <- IH, (present_insert _ _ _ Hadded).
    unfold registers at 2. cbn [failed answerError snd negb]. rewrite andb_true_r.
    unfold addsRepo, repoAddArgs. rewrite !String.eqb_refl. cbn [andb registers addsRepo].
    rewrite andb_true_r. lia.
Qed.

Lemma UpdateRepos_refresh_registers (hc : HelmClient) (name : string)
    (addedRepos : gmap string bool) (w : W) :
  count (registers name) (trace_of h (UpdateRepos_refresh hc addedRepos) w) = 0%nat.
Proof.
  unfold UpdateRepos_refresh, log. destruct (0 <? size addedRepos)%nat; [|done].
  rewrite !trace_call, !count_cons.
  match goal with
  | |- context [h ?X (CombinedOutput ?a ?b ?c) ?w1] =>
      destruct (h X (CombinedOutput a b c) w1) as [[output [e|]] w2]
  end; cbn [fst snd]; by rewrite trace_single.
Qed.

Lemma UpdateRepos_registers (hc : HelmClient) (name : string)
    (charts : list ChartDefinition) (w : W) :
  count (registers name) (trace_of h (UpdateRepos hc charts) w)
  = present (result_of h (UpdateRepos_loop hc charts ∅) (h _ Lock w).2) name.
Proof.
  unfold UpdateRepos, UpdateRepos_body.
  rewrite trace_call, count_cons, !trace_bind, !count_app.
  rewrite <- UpdateRepos_loop_registers, UpdateRepos_refresh_registers.
  rewrite !trace_ret, trace_single. unfold present at 1. rewrite lookup_empty.
  simpl. change (count (registers name) []) with 0%nat. lia.
Qed.

Lemma UpdateRepos_loop_from_charts (hc : HelmClient) (all charts : list ChartDefinition)
    (addedRepos : gmap string bool) :
  charts ⊆ all -> Issues (FromCharts hc all) (UpdateRepos_loop hc charts addedRepos).
Proof.
  revert addedRepos. induction charts as [|chart rest IH]; intros addedRepos Hsub; simpl; [done|].
  assert (rest ⊆ all) as Hrest by set_solver.
  destruct (String.eqb_spec (RepoURL chart) "") as [|Hurl]; [by apply IH|].
  unfold SplitN2. destruct (Cut (Chart chart) "/") as [[repoName after]|] eqn:Hcut; simpl.
  - destruct (addedRepos !! repoName); [by apply IH|].
    simpl. split; [done|]. intros _. split.
    { right. exists chart, repoName, after. set_solver. }
    intros [output [e|]]; simpl; (split; [done|]); intros _; by apply IH.
  - split; [done|]. intros _. by apply IH.
Qed.

Lemma UpdateRepos_from_charts (hc : HelmClient) (charts : list ChartDefinition) :
  Issues (FromCharts hc charts) (UpdateRepos hc charts).
Proof.
  unfold UpdateRepos, UpdateRepos_body. simpl. split; [done|]. intros _.
  apply Issues_bind; [apply Issues_bind|].
  - by apply UpdateRepos_loop_from_charts.
  - intros addedRepos. apply Issues_bind; [|done].
    unfold UpdateRepos_refresh. destruct (0 <? size addedRepos)%nat; simpl; [|done].
    split; [done|]. intros _. split; [by left|]. by intros [output [e|]]; simpl.
  - intros r. simpl. done.
Qed.

Lemma count_addsRepo (name : string) (tr : list (Event Cmd)) :
  count (addsRepo name) tr
  = (count (registers name) tr + count (failsToRegister name) tr)%nat.
Proof.
  induction tr as [|e tr IH]; [done|]. rewrite !count_cons, IH.
  unfold registers, failsToRegister. destruct (addsRepo name e), (failed e); simpl; lia.
Qed.

(** C4: in one call of [UpdateRepos], whatever the outside world
    answers, a repository name is registered at most once, however many
    definitions of the list share it ([helm repo add] runs once for the
    name unless a run for it fails); and each [helm repo add] the call
    runs for a name comes from a definition of the list with a
    repository URL whose chart reference has a "/", the name being the
    text before the first "/": a definition without "/" is skipped. *)
Theorem UpdateRepos_registers_once (hc : HelmClient) (charts : list ChartDefinition)
    (w : W) (name : string) :
  (count (registers name) (trace_of h (UpdateRepos hc charts) w) <= 1)%nat /\
  (count (addsRepo name) (trace_of h (UpdateRepos hc charts) w)
   <= 1 + count (failsToRegister name) (trace_of h (UpdateRepos hc charts) w))%nat /\
  Forall (fun e =>
            addsRepo name e = true ->
            exists d after x,
              d ∈ charts /\ RepoURL d <> "" /\
              Chart d = name ++ "/" ++ after /\ Contains name "/" = false /\
              e = Ev (CombinedOutput "helm" (repoAddArgs name (RepoURL d)) (helmEnv hc)) x)
         (trace_of h (UpdateRepos hc charts) w).
Proof.
  assert (count (registers name) (trace_of h (UpdateRepos hc charts) w) <= 1)%nat as Honce.
  { rewrite UpdateRepos_registers. unfold present. destruct (_ !! name); lia. }
  split; [exact Honce|]. split.
  - rewrite count_addsRepo. lia.
  - eapply Forall_impl; [apply Issues_trace, UpdateRepos_from_charts|].
    intros [X c x] Hc Hadds. destruct c; try done. simpl in Hc, Hadds.
    destruct Hc as [->|(d & repoName & after & Hd & Hurl & Hcut & -> & -> & ->)]; [done|].
    unfold repoAddArgs in Hadds. simpl in Hadds.
    destruct (String.eqb_spec repoName name) as [->|]; [|done].
    exists d, after, x. split_and!; try done.
    + by apply Cut_Some.
    + by eapply Cut_slash_before.
Qed.

End UpdateReposFacts.

(** Two definitions that share a repository whose URL cannot be fetched:
    the registration is tried for each and succeeds for neither, and
    with no repository added the refresh does not run. *)
Example UpdateRepos_failed_registration_tried_again :
  let w := {| Cluster.unreachable := ["https://charts.bitnami.com/bitnami"];
              Cluster.refreshFails := false;
              Cluster.repositories := []; Cluster.indexed := [];
              Cluster.releases := []; Cluster.services := [];
              Cluster.uninstallFault := None |} in
  let tr := trace_of Cluster.backend
              (Helm.UpdateRepos Cluster.hc [Cluster.nginx; Cluster.redis]) w in
  Observe.count (Observe.addsRepo "bitnami") tr = 2%nat /\
  Observe.count (Observe.registers "bitnami") tr = 0%nat /\
  Observe.count Observe.isRepoUpdate tr = 0%nat.
Proof. vm_compute. done. Qed.

(** Two definitions that share a repository that can be fetched: it is
    registered once. *)
Example UpdateRepos_shared_repository :
  let tr := trace_of Cluster.backend
              (Helm.UpdateRepos Cluster.hc [Cluster.nginx; Cluster.redis; Cluster.local])
              Cluster.empty in
  Observe.count (Observe.addsRepo "bitnami") tr = 1%nat /\
  Observe.count (Observe.registers "bitnami") tr = 1%nat /\
  Observe.count Observe.isSubprocess tr = 2%nat.
Proof. vm_compute. done. Qed.

(** C1 (as the spec has it) fails: the only repository of the call is
    registered, the final [helm repo update] exits with status 1, and
    the call returns [nil], not an error. *)
Lemma UpdateRepos_refresh_error_not_returned :
  let w := {| Cluster.unreachable := []; Cluster.refreshFails := true;
              Cluster.repositories := []; Cluster.indexed := [];
              Cluster.releases := []; Cluster.services := [];
              Cluster.uninstallFault := None |} in
  let tr := trace_of Cluster.backend (Helm.UpdateRepos Cluster.hc [Cluster.nginx]) w in
  existsb (fun e => Observe.isRepoUpdate e && Observe.failed e) tr = true /\
  result_of Cluster.backend (Helm.UpdateRepos Cluster.hc [Cluster.nginx]) w = None.
Proof. vm_compute. done. Qed.

(* ===================================================================== *)
(** * InstallChart *)
(* ===================================================================== *)

Section InstallChartFacts.
Import Helm Observe.
Context {W : Type} (h : Handler Cmd W).

Lemma count_nil (f : Event Cmd -> bool) : count f [] = 0%nat.
Proof. done. Qed.

Lemma count_zero (f : Event Cmd -> bool) (tr : list (Event Cmd)) :
  Forall (fun e => f e = false) tr -> count f tr = 0%nat.
Proof.
  induction 1 as [|e tr He _ IH]; [done|]. by rewrite count_cons, He, IH.
Qed.

Lemma Without_count {A : Type} (ks : list Kind) (k : Kind) (p : HProg A) (w : W) :
  Issues (Without ks) p -> In k ks -> count (ofKind k) (trace_of h p w) = 0%nat.
Proof.
  intros Hp Hk. apply count_zero.
  eapply Forall_impl; [by apply Issues_trace|].
  intros [X c x] Hc. unfold command_of, Without in Hc. simpl.
  rewrite forallb_forall in Hc.
  specialize (Hc k Hk). by destruct (Kind_eqb (kind c) k).
Qed.

Lemma Without_incl {A : Type} (ks ks' : list Kind) (p : HProg A) :
  incl ks' ks -> Issues (Without ks) p -> Issues (Without ks') p.
Proof.
  intros Hsub. apply Issues_weaken. intros X c Hc. unfold Without in *.
  rewrite forallb_forall in *. intros k Hk. apply Hc, Hsub, Hk.
Qed.

Ltac count_all :=
  repeat first [rewrite count_cons | rewrite count_app | rewrite count_nil].
Ltac in_list := simpl; tauto.
Ltac incl_list := intros ? ?; simpl in *; tauto.

Lemma UpdateRepos_body_kinds (hc : HelmClient) (charts : list ChartDefinition) :
  Issues (Without [KLock; KUnlock; KHistory; KLocateChart; KLoaderLoad; KInstallRun;
                   KListRun; KServicesList; KUninstallRun])
         (UpdateRepos_body hc charts).
Proof.
  eapply Issues_weaken; [|apply UpdateRepos_body_pass]. by intros X [].
Qed.

Lemma UpdateRepos_kinds (hc : HelmClient) (charts : list ChartDefinition) :
  Issues (Without [KHistory; KLocateChart; KLoaderLoad; KInstallRun;
                   KListRun; KServicesList; KUninstallRun])
         (UpdateRepos hc charts).
Proof.
  eapply Issues_weaken; [|apply UpdateRepos_sync]. by intros X [].
Qed.

Lemma UpdateRepos_one_lock (hc : HelmClient) (charts : list ChartDefinition) (w : W) :
  count (ofKind KLock) (trace_of h (UpdateRepos hc charts) w) = 1%nat.
Proof.
  unfold UpdateRepos. rewrite trace_call, count_cons, trace_bind, count_app.
  rewrite (Without_count _ KLock _ _ (UpdateRepos_body_kinds hc charts)) by in_list.
  rewrite trace_call, count_cons, trace_ret. done.
Qed.

Lemma loadAndInstall_kinds (hc : HelmClient) (client : Install) (releaseName : string)
    (values : Values) (cp : string) :
  Issues (Without [KLock; KUnlock; KSubprocess; KHistory; KLocateChart;
                   KListRun; KServicesList; KUninstallRun])
         (loadAndInstall hc client releaseName values cp).
Proof.
  unfold loadAndInstall. simpl. split; [done|]. intros _. split; [done|].
  intros [chrt [e|]]; simpl; [done|]. split; [done|]. intros _. split; [done|].
  by intros [rel [e|]]; simpl.
Qed.

Ltac next_answer :=
  match goal with
  | |- context [h ?X ?c ?w] =>
      is_var w; destruct (h X c w) as [? ?] eqn:?; cbn [fst snd] in *
  end.

(** What [locateWithRetry] does, step by step. *)
Lemma locateWithRetry_run (hc : HelmClient) (cd : ChartDefinition) (w : W) :
  let locate := LocateChart (Version cd) (Chart cd) in
  let a0 := h _ (Log (locating cd)) w in
  let a1 := h _ locate a0.2 in
  run h (locateWithRetry hc cd) w =
  match a1.1.2 with
  | None => (Ok a1.1.1, a1.2, [Ev (Log (locating cd)) a0.1; Ev locate a1.1])
  | Some e =>
      let a2 := h _ (Log (retrying cd e)) a1.2 in
      let w3 := world_of h (UpdateRepos hc [cd]) a2.2 in
      let a3 := h _ locate w3 in
      (match a3.1.2 with
       | Some e2 => Err (couldNotLocate cd e2)
       | None => Ok a3.1.1
       end,
       a3.2,
       [Ev (Log (locating cd)) a0.1; Ev locate a1.1; Ev (Log (retrying cd e)) a2.1]
       ++ trace_of h (UpdateRepos hc [cd]) a2.2 ++ [Ev locate a3.1])%list
  end.
Proof.
  cbv zeta. unfold locateWithRetry, log. cbn [run bind call].
  next_answer. next_answer.
  destruct p as [cp [e|]]; cbn [fst snd run]; [|done].
  next_answer.
  rewrite run_bind.
  pose proof (UpdateRepos_result h hc [cd] w2) as Hres.
  unfold world_of, trace_of, result_of in *.
  destruct (run h (UpdateRepos hc [cd]) w2) as [[r w3] t3]. cbn [fst snd] in *. subst r.
  cbn [bind run].
  next_answer. destruct p as [cp2 [e2|]]; cbn [fst snd run]; done.
Qed.

(** [InstallChart] is the history check, then [locateWithRetry], then
    [loadAndInstall]. *)
Lemma InstallChart_run (hc : HelmClient) (cd : ChartDefinition) (releaseName : string)
    (values : Values) (w : W) :
  let rn := resolveReleaseName cd releaseName in
  let a0 := h _ (HistoryRun 1 rn) w in
  run h (InstallChart hc cd releaseName values) w =
  match checkHistory hc rn a0.1.1 a0.1.2 with
  | Some msg => (Err msg, a0.2, [Ev (HistoryRun 1 rn) a0.1])
  | None =>
      let '(located, w1, t1) := run h (locateWithRetry hc cd) a0.2 in
      match located with
      | Err msg => (Err msg, w1, Ev (HistoryRun 1 rn) a0.1 :: t1)
      | Ok cp =>
          let '(r, w2, t2) :=
            run h (loadAndInstall hc (installClient hc cd rn) rn values cp) w1 in
          (r, w2, (Ev (HistoryRun 1 rn) a0.1 :: t1 ++ t2)%list)
      end
  end.
Proof.
  cbv zeta. unfold InstallChart. cbn [run bind call].
  next_answer. destruct p as [history err]. cbn [fst snd].
  destruct (checkHistory hc _ history err) as [msg|]; [done|].
  rewrite run_bind. fold (installClient hc cd (resolveReleaseName cd releaseName)).
  destruct (run h (locateWithRetry hc cd) w0) as [[[cp|msg] w1] t1]; cbn [run]; [|by rewrite app_nil_r].
  by destruct (run h (loadAndInstall _ _ _ _ _) w1) as [[r w2] t2].
Qed.

(** When [loadAndInstall] returns a release, the backend installed it
    and the last thing done was a log line. *)
Lemma loadAndInstall_Ok (hc : HelmClient) (client : Install) (rn : string)
    (values : Values) (cp : string) (w : W) (rel : Release) :
  result_of h (loadAndInstall hc client rn values cp) w = Ok rel ->
  exists chrt wa wb msg,
    h _ (InstallRun client chrt values) wa = ((rel, None), wb) /\
    world_of h (loadAndInstall hc client rn values cp) w = (h _ (Log msg) wb).2.
Proof.
  unfold loadAndInstall, log, result_of, world_of. cbn [run bind call].
  next_answer. next_answer. destruct p as [chrt [e|]]; cbn [run fst snd]; [done|].
  next_answer. next_answer. destruct p as [rel' [e|]]; cbn [run fst snd]; [done|].
  destruct (h _ (Log _) w3) as [u2 w4] eqn:Hlog. cbn [fst snd].
  intros [= ->]. eexists chrt, w2, w3, _. split; [done|]. by rewrite Hlog.
Qed.

Lemma locateWithRetry_works_on (hc : HelmClient) (cd : ChartDefinition) (name : string) :
  Issues (WorksOn name) (locateWithRetry hc cd).
Proof.
  unfold locateWithRetry, log. cbn [Issues bind call]. split; [done|]. intros _. split; [done|].
  intros [cp [e|]]; cbn [Issues bind call]; [|done]. split; [done|]. intros _.
  apply Issues_bind.
  - eapply Issues_weaken; [|apply UpdateRepos_sync]. by intros X [].
  - intros [eu|]; cbn [Issues bind call].
    + split; [done|]. intros _. split; [done|]. by intros [cp2 [e2|]].
    + split; [done|]. by intros [cp2 [e2|]].
Qed.

Lemma InstallChart_works_on (hc : HelmClient) (cd : ChartDefinition)
    (releaseName : string) (values : Values) :
  Issues (WorksOn (resolveReleaseName cd releaseName))
         (InstallChart hc cd releaseName values).
Proof.
  unfold InstallChart. cbn [Issues bind call]. split; [done|]. intros [history err].
  destruct (checkHistory _ _ _ _); [done|].
  apply Issues_bind; [apply locateWithRetry_works_on|].
  intros [cp|msg]; [|done].
  unfold loadAndInstall, log. cbn [Issues bind call]. split; [done|]. intros _. split; [done|].
  intros [chrt [e|]]; cbn [Issues bind call]; [done|]. split; [done|]. intros _. split; [done|].
  by intros [rel [e|]]; cbn [Issues bind call].
Qed.

(** C9: when the caller supplies no release name, the release name is
    the [Name] of the chart definition: the call is the call with that
    name, it starts with the history query for that name, and every
    history query and installation of any of its runs is for that
    name. *)
Theorem InstallChart_default_release_name (hc : HelmClient) (cd : ChartDefinition)
    (values : Values) (w : W) :
  resolveReleaseName cd "" = Name cd /\
  InstallChart hc cd "" values = InstallChart hc cd (Name cd) values /\
  (exists answer rest,
     trace_of h (InstallChart hc cd "" values) w
     = Ev (HistoryRun 1 (Name cd)) answer :: rest) /\
  Forall (command_of (WorksOn (Name cd))) (trace_of h (InstallChart hc cd "" values) w).
Proof.
  split; [done|]. split; [|split].
  - unfold InstallChart, resolveReleaseName. simpl.
    by destruct (String.eqb (Name cd) "").
  - unfold trace_of. rewrite InstallChart_run. cbv zeta.
    change (resolveReleaseName cd "") with (Name cd).
    destruct (checkHistory _ _ _ _); [by eauto|].
    destruct (run h (locateWithRetry hc cd) _) as [[[cp|msg] w1] t1]; [|by eauto].
    destruct (run h (loadAndInstall _ _ _ _ _) w1) as [[r w2] t2]. by eauto.
  - apply Issues_trace. apply (InstallChart_works_on hc cd "" values).
Qed.

Lemma InstallChart_succeeds (hc : HelmClient) (cd : ChartDefinition)
    (releaseName : string) (values : Values) (w : W) (rel : Release) :
  Succeeds h hc cd (resolveReleaseName cd releaseName) values w rel ->
  result_of h (InstallChart hc cd releaseName values) w = Ok rel.
Proof.
  unfold Succeeds. cbv zeta. intros (Hcheck & Hlocated & Hloaded & Hinstalled).
  revert Hcheck Hlocated Hloaded Hinstalled.
  unfold InstallChart, locateWithRetry, loadAndInstall, log, result_of.
  fold (installClient hc cd (resolveReleaseName cd releaseName)).
  cbn [run bind call].
  destruct (h _ (HistoryRun _ _) w) as [[history herr] w0]. cbn [fst snd].
  intros ->. cbn [run bind call].
  destruct (h _ (Log (locating cd)) w0) as [u1 w1]. cbn [fst snd].
  destruct (h _ (LocateChart _ _) w1) as [[cp lerr] w2]. cbn [fst snd].
  intros ->. cbn [run bind call].
  destruct (h _ (Log _) w2) as [u3 w3]. cbn [fst snd].
  destruct (h _ (LoaderLoad cp) w3) as [[chrt err] w4]. cbn [fst snd].
  intros ->. cbn [run bind call].
  fold (installing hc chrt (resolveReleaseName cd releaseName)).
  destruct (h _ (Log (installing _ _ _)) w4) as [u5 w5]. cbn [fst snd].
  destruct (h _ (InstallRun _ _ _) w5) as [[rel' ierr] w6]. cbn [fst snd].
  intros [= -> ->]. cbn [run bind call].
  by destruct (h _ (Log _) w6) as [u7 w7].
Qed.

Lemma checkHistory_exists (hc : HelmClient) (rn : string) (history : list Release) :
  history <> [] -> checkHistory hc rn history None = Some (alreadyExists hc rn).
Proof. by destruct history. Qed.

(** C2: if the history query for the resolved release name answers with
    at least one record, [InstallChart] returns the "already exists"
    error and that query is all it did.  An [InstallChart] that the
    outside world lets through returns the release.  Hence, against a
    world where logging changes nothing and a successful installation
    leaves a history record, an [InstallChart] that succeeded is
    followed by one, with the same arguments, that fails with that
    error without attempting an installation. *)
Theorem InstallChart_already_exists (hc : HelmClient) (cd : ChartDefinition)
    (releaseName : string) (values : Values) :
  let rn := resolveReleaseName cd releaseName in
  (forall w history,
      (h _ (HistoryRun 1 rn) w).1 = (history, None) -> history <> [] ->
      result_of h (InstallChart hc cd releaseName values) w
      = Err (alreadyExists hc rn) /\
      trace_of h (InstallChart hc cd releaseName values) w
      = [Ev (HistoryRun 1 rn) (history, None)]) /\
  (forall w rel,
      Succeeds h hc cd rn values w rel ->
      result_of h (InstallChart hc cd releaseName values) w = Ok rel) /\
  (LogInert h -> InstallPersists h ->
   forall w rel,
     result_of h (InstallChart hc cd releaseName values) w = Ok rel ->
     let w1 := world_of h (InstallChart hc cd releaseName values) w in
     result_of h (InstallChart hc cd releaseName values) w1
     = Err (alreadyExists hc rn) /\
     count (ofKind KInstallRun) (trace_of h (InstallChart hc cd releaseName values) w1)
     = 0%nat).
Proof.
  intros rn.
  assert (forall w history,
      (h _ (HistoryRun 1 rn) w).1 = (history, None) -> history <> [] ->
      result_of h (InstallChart hc cd releaseName values) w
      = Err (alreadyExists hc rn) /\
      trace_of h (InstallChart hc cd releaseName values) w
      = [Ev (HistoryRun 1 rn) (history, None)]) as Hcheck.
  { intros w history Hanswer Hhistory. unfold result_of, trace_of.
    rewrite InstallChart_run. cbv zeta. fold rn. rewrite Hanswer. cbn [fst snd].
    by rewrite checkHistory_exists. }
  split; [exact Hcheck|]. split; [intros w rel; apply InstallChart_succeeds|].
  intros Hlog Hpersists w rel Hok w1.
  assert (exists history, history <> [] /\
            (h _ (HistoryRun 1 rn) w1).1 = (history, None)) as (history & Hne & Hanswer).
  { subst w1. revert Hok. unfold result_of, world_of.
    rewrite InstallChart_run. cbv zeta. fold rn.
    destruct (checkHistory _ _ _ _); [done|].
    destruct (run h (locateWithRetry hc cd) _) as [[[cp|msg] wl] tl]; [|done].
    pose proof (loadAndInstall_Ok hc (installClient hc cd rn) rn values cp wl rel) as Hinst.
    unfold result_of, world_of in Hinst.
    destruct (run h (loadAndInstall _ _ _ _ _) wl) as [[r w2] t2]. cbn [fst snd] in *.
    intros ->. destruct (Hinst eq_refl) as (chrt & wa & wb & msg & Hrun & ->).
    rewrite Hlog. exact (Hpersists _ _ _ _ _ _ Hrun). }
  destruct (Hcheck w1 history Hanswer Hne) as [Hres Htr]. split; [done|].
  by rewrite Htr.
Qed.

(** C3: if the first [LocateChart] of an [InstallChart] fails, the call
    runs one synchronization pass, [UpdateRepos] on the list of that one
    chart definition, and then locates the chart a second and last
    time; if that fails too, the call ends there with the "could not
    locate chart" error and nothing is loaded or installed. *)
Theorem InstallChart_locate_retry (hc : HelmClient) (cd : ChartDefinition)
    (releaseName : string) (values : Values) (w : W) (cp e : string) :
  let tr := trace_of h (InstallChart hc cd releaseName values) w in
  firstLocateChart tr = Some (cp, Some e) ->
  exists before w1 retry after,
    tr = (before ++ trace_of h (UpdateRepos hc [cd]) w1
          ++ Ev (LocateChart (Version cd) (Chart cd)) retry :: after)%list /\
    count (ofKind KLock) tr = 1%nat /\
    count (ofKind KLocateChart) tr = 2%nat /\
    (forall e2, retry.2 = Some e2 ->
       after = [] /\
       count (ofKind KLoaderLoad) tr = 0%nat /\
       count (ofKind KInstallRun) tr = 0%nat /\
       result_of h (InstallChart hc cd releaseName values) w
       = Err (couldNotLocate cd e2)).
Proof.
  intros tr. subst tr. unfold trace_of, result_of.
  rewrite InstallChart_run. cbv zeta.
  set (rn := resolveReleaseName cd releaseName).
  destruct (h _ (HistoryRun 1 rn) w) as [[history herr] w0]. cbn [fst snd].
  destruct (checkHistory hc rn history herr) as [msg|]; [done|].
  rewrite locateWithRetry_run. cbv zeta.
  destruct (h _ (Log (locating cd)) w0) as [u0 wa]. cbn [fst snd].
  destruct (h _ (LocateChart (Version cd) (Chart cd)) wa) as [[cp1 [e1|]] wb];
    cbn [fst snd].
  2:{ destruct (run h (loadAndInstall _ _ _ _ _) wb) as [[r w2] t2]. done. }
  destruct (h _ (Log (retrying cd e1)) wb) as [u1 wc]. cbn [fst snd].
  set (pass := trace_of h (UpdateRepos hc [cd]) wc).
  set (wd := world_of h (UpdateRepos hc [cd]) wc).
  destruct (h _ (LocateChart (Version cd) (Chart cd)) wd) as [[cp2 err2] we].
  cbn [fst snd].
  set (rest := match err2 with
               | Some e2 => Ret (Err (couldNotLocate cd e2))
               | None => loadAndInstall hc (installClient hc cd rn) rn values cp2
               end).
  assert (Issues (Without [KLock; KLocateChart; KSubprocess]) rest) as Hrest.
  { subst rest. destruct err2; [done|].
    eapply Without_incl; [|apply loadAndInstall_kinds]. incl_list. }
  intros _.
  exists [Ev (HistoryRun 1 rn) (history, herr); Ev (Log (locating cd)) u0;
          Ev (LocateChart (Version cd) (Chart cd)) (cp1, Some e1);
          Ev (Log (retrying cd e1)) u1], wc, (cp2, err2), (trace_of h rest we).
  assert (count (ofKind KLock) pass = 1%nat) as Hlock
    by apply UpdateRepos_one_lock.
  assert (count (ofKind KLocateChart) pass = 0%nat) as Hlocate.
  { apply (Without_count _ KLocateChart _ _ (UpdateRepos_kinds hc [cd])). in_list. }
  assert (count (ofKind KLoaderLoad) pass = 0%nat) as Hload.
  { apply (Without_count _ KLoaderLoad _ _ (UpdateRepos_kinds hc [cd])). in_list. }
  assert (count (ofKind KInstallRun) pass = 0%nat) as Hinstall.
  { apply (Without_count _ KInstallRun _ _ (UpdateRepos_kinds hc [cd])). in_list. }
  pose proof (Without_count _ KLock _ we Hrest ltac:(in_list)) as Hrest_lock.
  pose proof (Without_count _ KLocateChart _ we Hrest ltac:(in_list)) as Hrest_locate.
  unfold trace_of in *. subst rest.
  destruct err2 as [e2|]; cbn [run fst snd] in *.
  - rewrite ?app_nil_r. split; [reflexivity|].
    count_all. rewrite Hlock, Hlocate, Hload, Hinstall.
    cbn. split; [done|]. split; [done|]. intros e2' [= ->]. done.
  - destruct (run h (loadAndInstall _ _ _ _ _) we) as [[r w2] t2]. cbn [fst snd] in *.
    split; [by rewrite <- !app_assoc|].
    count_all. rewrite Hlock, Hlocate, Hrest_lock, Hrest_locate.
    cbn. split; [done|]. split; [done|]. done.
Qed.

End InstallChartFacts.

(** The in-memory cluster keeps what it installs. *)
Lemma backend_log_inert : Observe.LogInert Cluster.backend.
Proof. by intros msg w. Qed.

Lemma backend_install_persists : Observe.InstallPersists Cluster.backend.
Proof.
  intros client chrt vals w rel w1 [= <- <-].
  exists [Cluster.newRelease client chrt]. split; [done|].
  cbn [Cluster.backend Cluster.releases fst].
  rewrite filter_cons_True by (unfold Cluster.named; simpl; apply String.eqb_refl).
  done.
Qed.

(** An installation into the empty cluster succeeds; the same
    installation again finds the release and installs nothing. *)
Lemma InstallChart_already_exists_witness :
  let first := Helm.InstallChart Cluster.hc Cluster.nginx "" [] in
  (exists rel, result_of Cluster.backend first Cluster.empty = Ok rel) /\
  result_of Cluster.backend first (world_of Cluster.backend first Cluster.empty)
  = Err (Helm.alreadyExists Cluster.hc "nginx") /\
  Observe.count (Observe.ofKind Observe.KInstallRun)
    (trace_of Cluster.backend first (world_of Cluster.backend first Cluster.empty))
  = 0%nat.
Proof.
  intros first. split.
  - eexists. vm_compute. reflexivity.
  - eapply (proj2 (proj2
              (InstallChart_already_exists Cluster.backend Cluster.hc Cluster.nginx "" []))
              backend_log_inert backend_install_persists Cluster.empty).
    vm_compute. reflexivity.
Defined.

(** An installation of a chart whose repository cannot be fetched: the
    first resolution fails, one pass runs, the second resolution fails. *)
Lemma InstallChart_locate_retry_witness :
  let w := {| Cluster.unreachable := ["https://charts.bitnami.com/bitnami"];
              Cluster.refreshFails := false;
              Cluster.repositories := []; Cluster.indexed := [];
              Cluster.releases := []; Cluster.services := [];
              Cluster.uninstallFault := None |} in
  let tr := trace_of Cluster.backend (Helm.InstallChart Cluster.hc Cluster.nginx "" []) w in
  Observe.firstLocateChart tr = Some ("", Some "repo bitnami not found") /\
  Observe.count (Observe.ofKind Observe.KLock) tr = 1%nat /\
  Observe.count (Observe.ofKind Observe.KLocateChart) tr = 2%nat.
Proof.
  intros w tr.
  assert (Observe.firstLocateChart tr = Some ("", Some "repo bitnami not found")) as Hfirst
    by (vm_compute; reflexivity).
  split; [exact Hfirst|].
  destruct (InstallChart_locate_retry Cluster.backend Cluster.hc Cluster.nginx "" [] w
              "" "repo bitnami not found" Hfirst)
    as (before & w1 & retry & after & _ & Hlock & Hlocate & _).
  split; [exact Hlock | exact Hlocate].
Defined.

(* ===================================================================== *)
(** * getReleaseNodePorts *)
(* ===================================================================== *)

Section NodePortsFacts.
Import Helm Observe.
Context {W : Type} (h : Handler Cmd W).

Lemma collectPorts_none (ports : list ServicePort) (m : gmap string Z) :
  existsb (fun port => 0 <? pNodePort port) ports = false -> collectPorts ports m = m.
Proof.
  revert m. induction ports as [|p ports IH]; intros m; simpl; [done|].
  intros H. apply orb_false_iff in H as [Hp Hrest].
  unfold collectPorts in *. simpl. unfold addPort at 2. rewrite Hp. by apply IH.
Qed.

Lemma collectPorts_nonempty (ports : list ServicePort) (m : gmap string Z) :
  m <> ∅ -> collectPorts ports m <> ∅.
Proof.
  revert m. induction ports as [|p ports IH]; intros m Hm; [done|].
  unfold collectPorts in *. simpl. apply IH. unfold addPort.
  destruct (0 <? pNodePort p); [|done]. apply insert_non_empty.
Qed.

Lemma collectPorts_some (ports : list ServicePort) (m : gmap string Z) :
  existsb (fun port => 0 <? pNodePort port) ports = true -> collectPorts ports m <> ∅.
Proof.
  revert m. induction ports as [|p ports IH]; intros m; simpl; [done|].
  intros H. unfold collectPorts in *. simpl. unfold addPort at 2.
  destruct (0 <? pNodePort p) eqn:Hp.
  - apply (collectPorts_nonempty ports). apply insert_non_empty.
  - by apply IH.
Qed.

(** The map has an entry after a Service exactly when the Service has a
    port with a node port. *)
Lemma collectPorts_size (ports : list ServicePort) :
  (0 <? size (collectPorts ports ∅))%nat = existsb (fun port => 0 <? pNodePort port) ports.
Proof.
  destruct (existsb _ ports) eqn:Hex.
  - apply Nat.ltb_lt. pose proof (collectPorts_some ports ∅ Hex) as Hne.
    apply map_size_non_empty_iff in Hne. lia.
  - by rewrite collectPorts_none.
Qed.

(** Every entry of the map comes from a port with a node port, under
    the name of the port or else its number. *)
Lemma collectPorts_lookup (ports : list ServicePort) (m : gmap string Z) (k : string) (v : Z) :
  collectPorts ports m !! k = Some v ->
  m !! k = Some v \/
  exists port, port ∈ ports /\ 0 < pNodePort port /\ portName port = k /\ pNodePort port = v.
Proof.
  revert m. induction ports as [|p ports IH]; intros m; [by left|].
  unfold collectPorts in *. simpl. intros H.
  destruct (IH _ H) as [Hm|(port & Hin & Hpos & Hname & Hv)].
  - unfold addPort in Hm. destruct (0 <? pNodePort p) eqn:Hp; [|by left].
    destruct (decide (portName p = k)) as [<-|Hne].
    + rewrite lookup_insert_eq in Hm. injection Hm as <-. right. exists p.
      split; [by left|]. split; [by apply Z.ltb_lt|done].
    + rewrite lookup_insert_ne in Hm by done. by left.
  - right. exists port. split; [by right|done].
Qed.

(** The scan returns the ports of the first Service that yields any. *)
Lemma scanServices_first (items : list Service) :
  scanServices items ∅ =
  match List.find yieldsPorts items with
  | Some service => collectPorts (sPorts service) ∅
  | None => ∅
  end.
Proof.
  induction items as [|s items IH]; [done|].
  cbn [scanServices List.find]. unfold yieldsPorts at 1.
  destruct (exposesNodePorts s); [|exact IH]. cbn [andb].
  rewrite collectPorts_size.
  destruct (existsb _ (sPorts s)) eqn:Hex; [done|].
  by rewrite collectPorts_none.
Qed.

Lemma find_first (pre post : list Service) (s : Service) :
  yieldsPorts s = true -> Forall (fun s' => yieldsPorts s' = false) pre ->
  List.find yieldsPorts (pre ++ s :: post) = Some s.
Proof.
  intros Hs Hpre. induction Hpre as [|s' pre Hs' _ IH]; simpl.
  - by rewrite Hs.
  - by rewrite Hs'.
Qed.

Lemma getReleaseNodePorts_run (releaseName namespace : string) (w : W) :
  let query := ServicesList namespace (instanceSelector releaseName) in
  let a := h _ query w in
  run h (getReleaseNodePorts releaseName namespace) w =
  match a.1.2 with
  | None => (scanServices a.1.1 ∅, a.2, [Ev query a.1])
  | Some e =>
      let msg := "Warning: Could not list services for release '" ++ releaseName
                 ++ "' in namespace '" ++ namespace ++ "': " ++ e in
      (∅, (h _ (Log msg) a.2).2, [Ev query a.1; Ev (Log msg) (h _ (Log msg) a.2).1])
  end.
Proof.
  cbv zeta. unfold getReleaseNodePorts, log. cbn [run bind call].
  destruct (h _ (ServicesList _ _) w) as [[items [e|]] w1]; cbn [fst snd run]; [|done].
  by destruct (h _ (Log _) w1) as [u w2].
Qed.

(** C7: for a release of the listing, [getReleaseNodePorts] asks for the
    Services with the instance label of the release, once; every entry
    of the map it returns is the node port of a port of a Service of
    type NodePort or LoadBalancer of the answer, under the name of the
    port or else its number; and the map is that of the first such
    Service with a port that has a node port: the Services after it do
    not contribute. *)
Theorem getReleaseNodePorts_first_service (releaseName namespace : string) (w : W) :
  let query := ServicesList namespace ("app.kubernetes.io/instance=" ++ releaseName) in
  let answer := (h _ query w).1 in
  let nodePorts := result_of h (getReleaseNodePorts releaseName namespace) w in
  (forall rel rest,
     rName rel = releaseName -> rNamespace rel = namespace ->
     result_of h (ListInstalledReleases_loop (rel :: rest)) w
     = toReleaseInfo rel nodePorts
       :: result_of h (ListInstalledReleases_loop rest)
            (world_of h (getReleaseNodePorts releaseName namespace) w)) /\
  (exists rest,
     trace_of h (getReleaseNodePorts releaseName namespace) w = Ev query answer :: rest /\
     count (ofKind KServicesList) rest = 0%nat) /\
  (forall k v,
     nodePorts !! k = Some v ->
     exists service port,
       service ∈ answer.1 /\ exposesNodePorts service = true /\
       port ∈ sPorts service /\ 0 < pNodePort port /\
       portName port = k /\ pNodePort port = v) /\
  (forall pre service post,
     answer = ((pre ++ service :: post)%list, None) ->
     yieldsPorts service = true ->
     Forall (fun s => yieldsPorts s = false) pre ->
     nodePorts = collectPorts (sPorts service) ∅).
Proof.
  cbv zeta. fold (instanceSelector releaseName).
  pose proof (getReleaseNodePorts_run releaseName namespace w) as Hrun. cbv zeta in Hrun.
  split; [|split; [|split]].
  - intros rel rest <- <-. cbn [ListInstalledReleases_loop].
    by rewrite !result_bind.
  - unfold trace_of. rewrite Hrun.
    destruct (h _ (ServicesList _ _) w) as [[items [e|]] w1]; cbn [fst snd]; by eauto.
  - unfold result_of. rewrite Hrun.
    destruct (h _ (ServicesList _ _) w) as [[items [e|]] w1]; cbn [fst snd]; [done|].
    intros k v. rewrite scanServices_first.
    destruct (List.find yieldsPorts items) as [s|] eqn:Hfind; [|done].
    apply List.find_some in Hfind as [Hin Hy].
    apply andb_true_iff in Hy as [Hexp _].
    intros Hk. apply collectPorts_lookup in Hk as [Hk|(port & Hp & Hpos & Hname & Hv)]; [done|].
    exists s, port. split; [by apply list_elem_of_In|done].
  - intros pre s post Hanswer Hs Hpre. unfold result_of. rewrite Hrun, Hanswer.
    cbn [fst snd]. by rewrite scanServices_first, find_first.
Qed.

End NodePortsFacts.

(** Three Services of one release: a ClusterIP one, a NodePort one with
    two ports and a LoadBalancer one.  The map is that of the second. *)
Lemma getReleaseNodePorts_first_service_witness :
  result_of Cluster.backend (Helm.getReleaseNodePorts "nginx" "app-store-apps")
    Cluster.exposed
  = Helm.collectPorts (Helm.sPorts Cluster.web) ∅ /\
  Helm.collectPorts (Helm.sPorts Cluster.web) ∅ !! "http" = Some 30080 /\
  Helm.collectPorts (Helm.sPorts Cluster.web) ∅ !! "443" = Some 30443 /\
  Helm.collectPorts (Helm.sPorts Cluster.web) ∅ !! "metrics" = None.
Proof.
  split.
  - apply (proj2 (proj2 (proj2
      (getReleaseNodePorts_first_service Cluster.backend "nginx" "app-store-apps"
         Cluster.exposed)))
      [Cluster.internal] Cluster.web [Cluster.balancer]).
    + vm_compute. reflexivity.
    + vm_compute. reflexivity.
    + repeat constructor.
  - vm_compute. done.
Defined.

(* ===================================================================== *)
(** * UninstallRelease and its handler *)
(* ===================================================================== *)

Section UninstallFacts.
Import Helm Api Observe.
Context {W : Type} (h : Handler Cmd W).

Lemma UninstallRelease_run (hc : HelmClient) (releaseName : string) (w : W) :
  let a0 := h _ (Log (uninstalling hc releaseName)) w in
  let a1 := h _ (UninstallRun (HelmTimeout (config hc)) releaseName) a0.2 in
  result_of h (UninstallRelease hc releaseName) w =
  match a1.1.2 with
  | Some e =>
      if Contains e "release: not found" then Err (releaseNotFound hc releaseName)
      else Err (uninstallFailed releaseName e)
  | None => Ok a1.1.1
  end.
Proof.
  cbv zeta. unfold UninstallRelease, log, result_of. cbn [run bind call].
  destruct (h _ (Log _) w) as [u0 w0]. cbn [fst snd].
  destruct (h _ (UninstallRun _ _) w0) as [[res [e|]] w1]; cbn [fst snd run].
  - by destruct (Contains e "release: not found").
  - by destruct (h _ (Log _) w1) as [u1 w2].
Qed.

Lemma releaseNotFound_not_found (hc : HelmClient) (releaseName : string) :
  Contains (releaseNotFound hc releaseName) "not found" = true.
Proof.
  unfold releaseNotFound.
  change ("' not found in namespace '" ++ AppInstallNamespace (config hc) ++ "'")
    with ("' " ++ "not found" ++ " in namespace '" ++ AppInstallNamespace (config hc) ++ "'").
  rewrite <- (append_assoc releaseName), <- (append_assoc "release '").
  apply Contains_intro.
Qed.

(** C8 (as the code has it): [UninstallRelease] turns a backend error
    whose text contains "release: not found" into its not-found error,
    which the handler answers with 404; it turns any other backend
    error into "failed to uninstall release '<name>': <text>", which the
    handler answers with 500 unless that text contains "not found",
    and then with 404; a success is answered with 200 and the
    confirmation. *)
Theorem UninstallRelease_not_found (hc : HelmClient) (releaseName : string) (w : W) :
  let a0 := h _ (Log (uninstalling hc releaseName)) w in
  let backend := (h _ (UninstallRun (HelmTimeout (config hc)) releaseName) a0.2).1 in
  let returned := result_of h (UninstallRelease hc releaseName) w in
  let response := result_of h (UninstallReleaseHandler hc releaseName) w in
  match backend.2 with
  | Some e =>
      if Contains e "release: not found" then
        returned = Err (releaseNotFound hc releaseName) /\
        response = {| code := 404; key := "error";
                      text := "Release '" ++ releaseName ++ "' not found." |}
      else
        returned = Err (uninstallFailed releaseName e) /\
        response =
          if Contains (uninstallFailed releaseName e) "not found"
          then {| code := 404; key := "error";
                  text := "Release '" ++ releaseName ++ "' not found." |}
          else {| code := 500; key := "error"; text := uninstallFailed releaseName e |}
  | None =>
      returned = Ok backend.1 /\
      response = {| code := 200; key := "message";
                    text := "Release '" ++ releaseName ++ "' uninstalled successfully." |}
  end.
Proof.
  cbv zeta. unfold UninstallReleaseHandler. rewrite result_bind.
  rewrite UninstallRelease_run. cbv zeta.
  destruct (h _ (UninstallRun _ _) _) as [[res [e|]] w1]; cbn [fst snd];
    [|by split].
  destruct (Contains e "release: not found"); (split; [done|]).
  - by rewrite releaseNotFound_not_found.
  - by destruct (Contains (uninstallFailed releaseName e) "not found").
Qed.

End UninstallFacts.

(** C8 (as the spec has it) fails: the backend error below does not
    contain "release: not found", [UninstallRelease] returns the
    generic failure, and the handler answers 404, not 500. *)
Lemma UninstallReleaseHandler_generic_failure_404 :
  let w := {| Cluster.unreachable := []; Cluster.refreshFails := false;
              Cluster.repositories := []; Cluster.indexed := [];
              Cluster.releases := []; Cluster.services := [];
              Cluster.uninstallFault := Some "namespaces app-store-apps not found" |} in
  Contains "namespaces app-store-apps not found" "release: not found" = false /\
  result_of Cluster.backend (Helm.UninstallRelease Cluster.hc "nginx") w
  = Err (Helm.uninstallFailed "nginx" "namespaces app-store-apps not found") /\
  Api.code (result_of Cluster.backend (Api.UninstallReleaseHandler Cluster.hc "nginx") w)
  = 404.
Proof. vm_compute. done. Qed.

(* ===================================================================== *)
(** * The metrics snapshot *)
(* ===================================================================== *)

Section MetricsFacts.
Import Metrics.
Context {Quantity : Type} {ops : QuantityOps Quantity}.
Context {W : Type} (h : Handler (@Cmd Quantity) W).

(** What [k8s.io/apimachinery] promises of the two zero quantities. *)
Hypothesis MilliValue_zero : MilliValue (NewMilliQuantity 0 DecimalSI) = 0.
Hypothesis Value_zero : Value (NewQuantity 0 BinarySI) = 0.

Lemma wrap64_add (x y : Z) : wrap64 (wrap64 x + y) = wrap64 (x + y).
Proof.
  unfold wrap64. f_equal.
  replace ((x + 2 ^ 63) mod 2 ^ 64 - 2 ^ 63 + y + 2 ^ 63)
    with ((x + 2 ^ 63) mod 2 ^ 64 + y) by lia.
  rewrite Zplus_mod_idemp_l. f_equal. lia.
Qed.

Lemma nodesLoop_result (items : list NodeMetricsItem) (nodes : list Node)
    (t : Totals) (w : W) :
  result_of h (nodesLoop items nodes t) w = foldl (measure items) t nodes.
Proof.
  revert t w. induction nodes as [|n nodes IH]; intros t w; [done|].
  cbn [nodesLoop foldl]. unfold measure at 2, usageOf.
  destruct (findMetrics items (nName n)) as [[cpu mem]|]; [apply IH|].
  rewrite result_call. apply IH.
Qed.

Lemma measure_detailed (items : list NodeMetricsItem) (nodes : list Node) (t : Totals) :
  detailedNodeMetrics (foldl (measure items) t nodes)
  = (detailedNodeMetrics t ++ map (entryOf items) nodes)%list.
Proof.
  revert t. induction nodes as [|n nodes IH]; intros t; simpl.
  - by rewrite app_nil_r.
  - rewrite IH. simpl. by rewrite <- app_assoc.
Qed.

Lemma measure_totals (items : list NodeMetricsItem) (nodes : list Node) (t : Totals)
    (a b c d : Z) :
  totalCPUUsageMilliCores t = wrap64 a ->
  totalCPUCapacityMilliCores t = wrap64 b ->
  totalMemUsageBytes t = wrap64 c ->
  totalMemCapacityBytes t = wrap64 d ->
  let t' := foldl (measure items) t nodes in
  let entries := map (entryOf items) nodes in
  totalCPUUsageMilliCores t' = wrap64 (a + sumZ (map CPUUsageMilliCores entries)) /\
  totalCPUCapacityMilliCores t' = wrap64 (b + sumZ (map CPUAvailableMilliCores entries)) /\
  totalMemUsageBytes t' = wrap64 (c + sumZ (map MemoryUsageBytes entries)) /\
  totalMemCapacityBytes t' = wrap64 (d + sumZ (map MemoryAvailableBytes entries)).
Proof.
  revert t a b c d. induction nodes as [|n nodes IH]; intros t a b c d Ha Hb Hc Hd; simpl.
  - by rewrite !Z.add_0_r.
  - destruct (IH (measure items t n)
                (a + CPUUsageMilliCores (entryOf items n))
                (b + CPUAvailableMilliCores (entryOf items n))
                (c + MemoryUsageBytes (entryOf items n))
                (d + MemoryAvailableBytes (entryOf items n)))
      as (Ha' & Hb' & Hc' & Hd').
    + simpl. by rewrite Ha, wrap64_add.
    + simpl. by rewrite Hb, wrap64_add.
    + simpl. by rewrite Hc, wrap64_add.
    + simpl. by rewrite Hd, wrap64_add.
    + rewrite Ha', Hb', Hc', Hd'. by rewrite !Z.add_assoc.
Qed.

Lemma findMetrics_absent (items : list NodeMetricsItem) (name : string) :
  Forall (fun nm => nmName nm <> name) items -> findMetrics items name = None.
Proof.
  induction 1 as [|nm items Hnm _ IH]; simpl; [done|].
  by destruct (String.eqb_spec (nmName nm) name).
Qed.

Lemma GetClusterMetricsSnapshot_result (s : Service) (w : W) :
  let a0 := h _ NodeMetricsesList w in
  let a1 := h _ NodesList a0.2 in
  result_of h (GetClusterMetricsSnapshot s) w =
  if negb (hasMetricsClient s) then
    Err "metrics client not initialized, ensure Metrics Server is installed and API has permissions"
  else
    match a0.1.2 with
    | Some e => Err ("failed to list node metrics: " ++ e)
    | None =>
        match a1.1.2 with
        | Some e => Err ("failed to list nodes: " ++ e)
        | None => Ok (summarize (foldl (measure a0.1.1) noTotals a1.1.1))
        end
    end.
Proof.
  cbv zeta. unfold GetClusterMetricsSnapshot.
  destruct (negb (hasMetricsClient s)); [done|].
  rewrite result_call.
  destruct (h _ NodeMetricsesList w) as [[items [e|]] w0]; cbn [fst snd]; [done|].
  rewrite result_call.
  destruct (h _ NodesList w0) as [[nodes [e|]] w1]; cbn [fst snd]; [done|].
  by rewrite result_bind, nodesLoop_result.
Qed.

(** C5: a node of the node list without an entry in the node-metrics
    list has an entry in the per-node list of the snapshot, at its
    place, with zero CPU and memory usage and its allocatable capacity;
    and the four totals of the snapshot are the sums, in [int64], of the
    columns of the per-node list, that entry included. *)
Theorem snapshot_node_without_metrics (s : Service) (w : W)
    (items : list NodeMetricsItem) (pre post : list Node) (n : Node) :
  hasMetricsClient s = true ->
  (h _ NodeMetricsesList w).1 = (items, None) ->
  (h _ NodesList (h _ NodeMetricsesList w).2).1 = ((pre ++ n :: post)%list, None) ->
  Forall (fun nm => nmName nm <> nName n) items ->
  exists snapshot entry,
    result_of h (GetClusterMetricsSnapshot s) w = Ok snapshot /\
    Nodes snapshot !! length pre = Some entry /\
    length (Nodes snapshot) = length (pre ++ n :: post)%list /\
    nodeName entry = nName n /\
    CPUUsageMilliCores entry = 0 /\
    MemoryUsageBytes entry = 0 /\
    CPUAvailableMilliCores entry = MilliValue (index (nAllocatable n) "cpu") /\
    MemoryAvailableBytes entry = Value (index (nAllocatable n) "memory") /\
    TotalCPUUsageMilliCores snapshot
    = wrap64 (sumZ (map CPUUsageMilliCores (Nodes snapshot))) /\
    TotalCPUCapacityMilliCores snapshot
    = wrap64 (sumZ (map CPUAvailableMilliCores (Nodes snapshot))) /\
    TotalMemoryUsageBytes snapshot
    = wrap64 (sumZ (map MemoryUsageBytes (Nodes snapshot))) /\
    TotalMemoryCapacityBytes snapshot
    = wrap64 (sumZ (map MemoryAvailableBytes (Nodes snapshot))).
Proof.
  intros Hclient Hitems Hnodes Habsent.
  eexists _, (entryOf items n). split.
  { rewrite GetClusterMetricsSnapshot_result. cbv zeta.
    by rewrite Hclient, Hitems, Hnodes. }
  cbn [fst snd summarize Nodes TotalCPUUsageMilliCores TotalCPUCapacityMilliCores
       TotalMemoryUsageBytes TotalMemoryCapacityBytes].
  rewrite measure_detailed. cbn [noTotals detailedNodeMetrics app].
  destruct (measure_totals items (pre ++ n :: post) noTotals 0 0 0 0)
    as (Ha & Hb & Hc & Hd); try done.
  cbv zeta in Ha, Hb, Hc, Hd. rewrite Z.add_0_l in Ha, Hb, Hc, Hd.
  assert (usageOf items n = (NewMilliQuantity 0 DecimalSI, NewQuantity 0 BinarySI)) as Husage.
  { unfold usageOf. by rewrite findMetrics_absent. }
  split_and!; try done.
  - rewrite map_app. cbn [map]. rewrite lookup_app_r by (by rewrite length_map).
    by rewrite length_map, Nat.sub_diag.
  - by rewrite length_map.
  - cbn. by rewrite Husage.
  - cbn. by rewrite Husage.
Qed.

(** C6: in every snapshot the service returns, a node whose allocatable
    CPU (memory) is zero has CPU (memory) usage percentage 0.0, and the
    average CPU (memory) percentage is 0.0 when the total CPU (memory)
    capacity is zero: no division takes place. *)
Theorem snapshot_zero_capacity (s : Service) (w : W) (snapshot : ClusterMetrics) :
  result_of h (GetClusterMetricsSnapshot s) w = Ok snapshot ->
  Forall (fun entry =>
            (CPUAvailableMilliCores entry = 0 -> CPUUsagePercentage entry = float64_zero) /\
            (MemoryAvailableBytes entry = 0 -> MemUsagePercentage entry = float64_zero))
         (Nodes snapshot) /\
  (TotalCPUCapacityMilliCores snapshot = 0 ->
   AverageCPUUsagePercentage snapshot = float64_zero) /\
  (TotalMemoryCapacityBytes snapshot = 0 ->
   AverageMemUsagePercentage snapshot = float64_zero).
Proof.
  rewrite GetClusterMetricsSnapshot_result. cbv zeta.
  destruct (negb (hasMetricsClient s)); [done|].
  destruct (h _ NodeMetricsesList w) as [[items [e|]] w0]; cbn [fst snd]; [done|].
  destruct (h _ NodesList w0) as [[nodes [e|]] w1]; cbn [fst snd]; [done|].
  intros [= <-].
  cbn [summarize Nodes TotalCPUCapacityMilliCores TotalMemoryCapacityBytes
       AverageCPUUsagePercentage AverageMemUsagePercentage].
  split; [|split].
  - rewrite measure_detailed. cbn [noTotals detailedNodeMetrics app].
    apply Forall_map, Forall_forall. intros n _. cbn.
    split; intros ->; reflexivity.
  - intros ->. reflexivity.
  - intros ->. reflexivity.
Qed.

End MetricsFacts.

(** [node-b] of [Metrics.threeNodes] has no metrics entry. *)
Lemma snapshot_node_without_metrics_witness :
  exists snapshot entry,
    result_of Metrics.servers (Metrics.GetClusterMetricsSnapshot Metrics.service)
      Metrics.threeNodes = Ok snapshot /\
    Metrics.Nodes snapshot !! 1%nat = Some entry /\
    length (Metrics.Nodes snapshot) = 3%nat /\
    Metrics.nodeName entry = "node-b" /\
    Metrics.CPUUsageMilliCores entry = 0 /\
    Metrics.MemoryUsageBytes entry = 0 /\
    Metrics.CPUAvailableMilliCores entry = 4000 /\
    Metrics.MemoryAvailableBytes entry = 16384.
Proof.
  destruct (snapshot_node_without_metrics (ops := Metrics.MilliUnits)
              Metrics.servers eq_refl eq_refl
              Metrics.service Metrics.threeNodes Metrics.measured
              [Metrics.nodeA] [Metrics.nodeC] Metrics.nodeB)
    as (snapshot & entry & Hresult & Hentry & Hlength & Hname & Hcpu & Hmem
        & Hcap & Hmemcap & _); try reflexivity.
  { repeat constructor; discriminate. }
  exists snapshot, entry. split_and!; assumption.
Defined.

(** [node-c] of [Metrics.threeNodes] has no allocatable capacity. *)
Lemma snapshot_zero_capacity_witness :
  exists snapshot,
    result_of Metrics.servers (Metrics.GetClusterMetricsSnapshot Metrics.service)
      Metrics.threeNodes = Ok snapshot /\
    Forall (fun entry =>
              (Metrics.CPUAvailableMilliCores entry = 0 ->
               Metrics.CPUUsagePercentage entry = Metrics.float64_zero) /\
              (Metrics.MemoryAvailableBytes entry = 0 ->
               Metrics.MemUsagePercentage entry = Metrics.float64_zero))
           (Metrics.Nodes snapshot) /\
    Metrics.CPUAvailableMilliCores <$> Metrics.Nodes snapshot !! 2%nat = Some 0.
Proof.
  eexists. split; [vm_compute; reflexivity|]. split.
  - eapply (proj1 (snapshot_zero_capacity Metrics.servers Metrics.service
                     Metrics.threeNodes _ _)).
  - vm_compute. reflexivity.
  Unshelve. vm_compute. reflexivity.
Defined.

(* ===================================================================== *)
(** * One synchronization pass at a time *)
(* ===================================================================== *)

Section SchedFacts.
Import Helm Observe Sched.
Context {W : Type} (h : Handler Cmd W).

Lemma Disciplined_mono {A : Type} (held : bool) (p : HProg A) (post post' : bool -> A -> Prop) :
  (forall b a, post b a -> post' b a) ->
  Disciplined held p post -> Disciplined held p post'.
Proof.
  intros Hpost. revert held. induction p as [a | X c k IH]; intros held; cbn [Disciplined].
  - apply Hpost.
  - destruct c; try (destruct held; [|done]); try (destruct held; [done|]);
      intros Hk x; by apply IH.
Qed.

Lemma Disciplined_bind {A B : Type} (held : bool) (p : HProg A) (f : A -> HProg B)
    (post : bool -> B -> Prop) :
  Disciplined held p (fun b a => Disciplined b (f a) post) ->
  Disciplined held (bind p f) post.
Proof.
  revert held. induction p as [a | X c k IH]; intros held; cbn [Disciplined bind]; [done|].
  destruct c; try (destruct held; [|done]); try (destruct held; [done|]);
    intros Hk x; by apply IH.
Qed.

(** Code without mutex commands keeps the mutex as it found it, if it
    runs subprocesses only while holding it. *)
Lemma Disciplined_quiet {A : Type} (held : bool) (p : HProg A) :
  Issues (Without [KLock; KUnlock]) p ->
  (held = false -> Issues (Without [KSubprocess]) p) ->
  Disciplined held p (fun b _ => b = held).
Proof.
  revert held. induction p as [a | X c k IH]; intros held Hmutex Hsub; cbn [Disciplined]; [done|].
  destruct Hmutex as [Hc Hk].
  assert (forall x, Disciplined held (k x) (fun b _ => b = held)) as Hrest.
  { intros x. apply IH; [apply Hk|]. intros ->. by apply Hsub. }
  destruct c; try done.
  destruct held; [done|]. by destruct (Hsub eq_refl) as [? _].
Qed.

Lemma UpdateRepos_disciplined (hc : HelmClient) (charts : list ChartDefinition) :
  Disciplined false (UpdateRepos hc charts) released.
Proof.
  unfold UpdateRepos. cbn [Disciplined bind call]. intros _.
  apply Disciplined_bind.
  eapply Disciplined_mono; [|apply (Disciplined_quiet true)].
  - intros b r ->. cbn [Disciplined bind call]. done.
  - eapply Issues_weaken; [|apply UpdateRepos_body_pass]. by intros X [].
  - done.
Qed.

Lemma released_bind {A B : Type} (p : HProg A) (f : A -> HProg B) :
  Disciplined false p released ->
  (forall a, Disciplined false (f a) released) ->
  Disciplined false (bind p f) released.
Proof.
  intros Hp Hf. apply Disciplined_bind.
  eapply Disciplined_mono; [|exact Hp]. intros b a ->. apply Hf.
Qed.

Lemma released_quiet {A : Type} (p : HProg A) :
  Issues (Without [KLock; KUnlock; KSubprocess]) p ->
  Disciplined false p released.
Proof.
  intros Hp. eapply Disciplined_mono; [|apply (Disciplined_quiet false)].
  - by intros b a ->.
  - eapply Issues_weaken; [|exact Hp]. intros X c. by destruct c.
  - intros _. eapply Issues_weaken; [|exact Hp]. intros X c. by destruct c.
Qed.

Lemma locateWithRetry_disciplined (hc : HelmClient) (cd : ChartDefinition) :
  Disciplined false (locateWithRetry hc cd) released.
Proof.
  unfold locateWithRetry, log. cbn [Disciplined bind call]. intros _.
  intros [cp [e|]]; cbn [Disciplined bind call]; [|done]. intros _.
  apply released_bind; [apply UpdateRepos_disciplined|].
  intros [eu|]; cbn [Disciplined bind call].
  - intros _. by intros [cp2 [e2|]].
  - by intros [cp2 [e2|]].
Qed.

Lemma InstallChart_disciplined (hc : HelmClient) (cd : ChartDefinition)
    (releaseName : string) (values : Values) :
  Disciplined false (InstallChart hc cd releaseName values) released.
Proof.
  unfold InstallChart. cbn [Disciplined bind call]. intros [history err].
  destruct (checkHistory _ _ _ _); [done|].
  apply released_bind; [apply locateWithRetry_disciplined|].
  intros [cp|msg]; [|done].
  apply released_quiet. eapply Without_incl; [|apply loadAndInstall_kinds].
  intros k Hk; simpl in *; tauto.
Qed.

Lemma getReleaseNodePorts_quiet (releaseName namespace : string) :
  Issues (Without [KLock; KUnlock; KSubprocess])
         (getReleaseNodePorts releaseName namespace).
Proof.
  unfold getReleaseNodePorts, log. cbn [Issues bind call]. split; [done|].
  by intros [items [e|]]; cbn [Issues bind call].
Qed.

Lemma ListInstalledReleases_disciplined :
  Disciplined false ListInstalledReleases released.
Proof.
  apply released_quiet. unfold ListInstalledReleases. cbn [Issues bind call].
  split; [done|]. intros [results [e|]]; [done|].
  apply Issues_bind; [|done].
  induction results as [|rel rest IH]; cbn [ListInstalledReleases_loop]; [done|].
  apply Issues_bind; [apply getReleaseNodePorts_quiet|]. intros nodePorts.
  by apply Issues_bind.
Qed.

Lemma UninstallRelease_disciplined (hc : HelmClient) (releaseName : string) :
  Disciplined false (UninstallRelease hc releaseName) released.
Proof.
  apply released_quiet. unfold UninstallRelease, log. cbn [Issues bind call].
  split; [done|]. intros _. split; [done|].
  intros [res [e|]]; cbn [Issues bind call].
  - by destruct (Contains e "release: not found").
  - done.
Qed.

Lemma GetReleaseStatus_disciplined (hc : HelmClient) (releaseName : string) :
  Disciplined false (GetReleaseStatus hc releaseName) released.
Proof.
  apply released_quiet. unfold GetReleaseStatus. cbn [Issues bind call].
  split; [done|]. intros [[out stderr] [e|]]; cbn [Issues bind call]; [done|].
  split; [done|]. by intros [statusData [e|]].
Qed.

Lemma spawn_disciplined (hc : HelmClient) (call : ClientCall) :
  disciplined false (spawn hc call).
Proof.
  destruct call; cbn [spawn disciplined].
  - apply UpdateRepos_disciplined.
  - apply InstallChart_disciplined.
  - apply ListInstalledReleases_disciplined.
  - apply UninstallRelease_disciplined.
  - apply GetReleaseStatus_disciplined.
Qed.

Lemma start_well_locked (hc : HelmClient) (calls : list ClientCall) (w : W) :
  WellLocked (start hc calls w).
Proof.
  split; [done|]. split; [done|]. intros i g Hg. cbn in Hg.
  apply list_lookup_fmap_Some in Hg as (call & -> & Hcall).
  apply spawn_disciplined.
Qed.

Lemma passOf_snoc (tr : list (nat * Event Cmd)) (ev : nat * Event Cmd) :
  passOf (tr ++ [ev]) = observe (passOf tr) ev.
Proof. unfold passOf. by rewrite foldl_app. Qed.

Lemma observe_Broken (ev : nat * Event Cmd) : observe Broken ev = Broken.
Proof. destruct ev as [i [X c x]]. by destruct c. Qed.

Lemma passOf_Broken (tr : list (nat * Event Cmd)) : foldl observe Broken tr = Broken.
Proof. induction tr as [|ev tr IH]; simpl; [done|]. by rewrite observe_Broken. Qed.

Lemma passOf_prefix (pre post : list (nat * Event Cmd)) (ev : nat * Event Cmd) :
  passOf (pre ++ ev :: post) <> Broken -> observe (passOf pre) ev <> Broken.
Proof.
  unfold passOf. rewrite foldl_app. simpl. intros H Hbroken. apply H.
  rewrite Hbroken. apply passOf_Broken.
Qed.

Lemma pool_update (pool : list Goroutine) (i : nat) (g g' : Goroutine) (st st' : Pass) :
  pool !! i = Some g ->
  (forall j g, pool !! j = Some g -> disciplined (holds st j) g) ->
  disciplined (holds st' i) g' ->
  (forall j, j <> i -> holds st' j = holds st j) ->
  forall j g, <[i := g']> pool !! j = Some g -> disciplined (holds st' j) g.
Proof.
  intros Hi Hpool Hg' Hothers j gj Hj. destruct (decide (j = i)) as [->|Hne].
  - rewrite list_lookup_insert_eq in Hj by (by eapply lookup_lt_Some).
    by injection Hj as <-.
  - rewrite list_lookup_insert_ne in Hj by done.
    rewrite Hothers by done. by apply Hpool.
Qed.

Lemma holds_other (i j : nat) : j <> i -> Nat.eqb j i = false.
Proof. intros Hne. by apply Nat.eqb_neq. Qed.

(** A step keeps the invariant. *)
Lemma step_well_locked (i : nat) (m m' : Machine W) :
  WellLocked m -> step h i m = Some m' -> WellLocked m'.
Proof.
  intros (Hst & Hlocked & Hpool). unfold step.
  destruct (pool m !! i) as [[A [a | X c k]]|] eqn:Hi; try done.
  pose proof (Hpool i _ Hi) as Hdisc. cbn [disciplined] in Hdisc.
  destruct (passOf (history m)) as [|j0|] eqn:Hpass; [| |done].
  - (* nobody holds the mutex *)
    cbn [isHeld] in Hlocked. cbn [holds] in Hdisc. rewrite Hlocked.
    destruct c; cbn [mutexOp Disciplined] in *; try done;
      try (destruct (h _ _ (world m)) as [x w1]); intros [= <-];
      (split; [|split]); cbn [history locked pool];
      rewrite ?passOf_snoc, ?Hpass; cbn [observe isHeld]; try done.
    all: eapply pool_update; eauto; cbn [disciplined holds]; try (by apply Hdisc).
    + by rewrite Nat.eqb_refl.
    + intros j Hne. by apply holds_other.
  - (* goroutine [j0] holds the mutex *)
    cbn [isHeld] in Hlocked. cbn [holds] in Hdisc. rewrite Hlocked.
    destruct c; cbn [mutexOp Disciplined] in *;
      try (destruct (Nat.eqb_spec i j0) as [->|Hne]; [|done]);
      try done;
      try (destruct (h _ _ (world m)) as [x w1]); intros [= <-];
      (split; [|split]); cbn [history locked pool];
      rewrite ?passOf_snoc, ?Hpass; cbn [observe isHeld];
      rewrite ?Nat.eqb_refl; try done.
    all: eapply pool_update; eauto; cbn [disciplined holds]; rewrite ?Nat.eqb_refl;
      try (by apply Hdisc).
    intros j Hne. symmetry. by apply holds_other.
Qed.

Lemma exec_well_locked (schedule : list nat) (m : Machine W) :
  WellLocked m -> WellLocked (exec h schedule m).
Proof.
  revert m. induction schedule as [|i schedule IH]; intros m Hm; [done|].
  cbn [exec foldl]. apply IH. unfold turn.
  destruct (step h i m) as [m'|] eqn:Hstep; [|done]. by eapply step_well_locked.
Qed.

(** C10: [UpdateRepos] locks the mutex of the client first and unlocks
    it last.  Whatever calls on one client run as goroutines, and
    whatever the schedule, the history of the machine is a history of
    disjoint synchronization passes: the mutex is locked only when it is
    free,
    and between the [Lock] of a goroutine and its [Unlock] no other
    goroutine locks, unlocks or runs a [helm] subprocess; the mutex is
    locked exactly while a pass is under way; and a goroutine that is
    about to lock has no step while the mutex is locked. *)
Theorem passes_do_not_interleave (hc : HelmClient) (calls : list ClientCall) (w : W)
    (schedule : list nat) :
  let m := exec h schedule (start hc calls w) in
  (forall charts w0,
     exists pass,
       trace_of h (UpdateRepos hc charts) w0
       = (Ev Lock tt :: pass ++ [Ev Unlock tt])%list /\
       count (ofKind KLock) pass = 0%nat /\ count (ofKind KUnlock) pass = 0%nat) /\
  serialized (history m) = true /\
  (locked m = true <-> exists i, passOf (history m) = Held i) /\
  (forall pre j e post,
     history m = (pre ++ (j, e) :: post)%list ->
     match passOf pre with
     | Free => ofKind KUnlock e = false /\ ofKind KSubprocess e = false
     | Held i =>
         ofKind KLock e = false /\
         (ofKind KUnlock e = true \/ ofKind KSubprocess e = true -> j = i)
     | Broken => False
     end) /\
  (forall i A (k : unit -> HProg A),
     locked m = true -> pool m !! i = Some (Go (Vis Lock k)) -> step h i m = None).
Proof.
  intros m.
  destruct (exec_well_locked schedule _ (start_well_locked hc calls w))
    as (Hst & Hlocked & Hpool). fold m in Hst, Hlocked, Hpool.
  split; [|split; [|split; [|split]]].
  - intros charts w0. unfold UpdateRepos.
    rewrite trace_call, trace_bind, trace_call, trace_ret.
    destruct (h _ Lock w0).1, (h _ Unlock _).1.
    eexists. split; [reflexivity|].
    split; apply (Without_count _ _ _ _ _ (UpdateRepos_body_kinds hc charts)); simpl; tauto.
  - unfold serialized. by destruct (passOf (history m)).
  - rewrite Hlocked. destruct (passOf (history m)); cbn [isHeld]; split;
      try done; try (by intros [i [=]]); by eauto.
  - intros pre j e post Hhistory. rewrite Hhistory in Hst.
    apply passOf_prefix in Hst. destruct e as [X c x].
    destruct (passOf pre) as [|i|]; [| |by rewrite observe_Broken in Hst].
    + by destruct c.
    + destruct c; cbn [observe ofKind kind Kind_eqb] in *; try done;
        (split; [done|]); try (by intros [|]);
        intros _; by destruct (Nat.eqb_spec j i).
  - intros i A k Hm Hi. unfold step. rewrite Hi. cbn [mutexOp]. by rewrite Hm.
Qed.

End SchedFacts.

(** After eight turns the first goroutine is inside its pass, six
    commands have run, and the second goroutine, at its [Lock], has no
    step. *)
Lemma passes_do_not_interleave_witness :
  Sched.serialized (Sched.history Cluster.contended) = true /\
  Sched.passOf (Sched.history Cluster.contended) = Sched.Held 0 /\
  Sched.locked Cluster.contended = true /\
  length (Sched.history Cluster.contended) = 6%nat /\
  Sched.step Cluster.backend 1 Cluster.contended = None.
Proof.
  destruct (passes_do_not_interleave Cluster.backend Cluster.hc Cluster.racing
              Cluster.empty Cluster.eightTurns)
    as (_ & Hserialized & Hlocked & _ & _).
  assert (Sched.passOf (Sched.history Cluster.contended) = Sched.Held 0) as Hpass
    by (vm_compute; reflexivity).
  split; [exact Hserialized|]. split; [exact Hpass|].
  split; [exact (proj2 Hlocked (ex_intro _ 0%nat Hpass))|].
  split; vm_compute; reflexivity.
Defined.

(* ===================================================================== *)
(** * The chart catalog *)
(* ===================================================================== *)

Section CatalogFacts.
Import Helm Catalog.
Context {W : Type} (h : Handler Catalog.Cmd W).

Lemma GetChartByName_loop_Ok (charts : list ChartMeta) (name : string) (chart : ChartMeta) :
  GetChartByName_loop charts name = Ok chart -> cmName chart = name.
Proof.
  induction charts as [|c charts IH]; cbn [GetChartByName_loop]; [done|].
  destruct (String.eqb_spec (cmName c) name) as [Heq|Hne]; [|exact IH].
  by intros [= <-].
Qed.

Lemma GetChartByName_loop_absent (charts : list ChartMeta) (name : string) :
  Forall (fun c => cmName c <> name) charts ->
  GetChartByName_loop charts name = Err ("chart '" ++ name ++ "' not found in configured list").
Proof.
  induction 1 as [|c charts Hc _ IH]; cbn [GetChartByName_loop]; [done|].
  by rewrite (proj2 (String.eqb_neq _ _) Hc).
Qed.

(** The catalog lookup returns the first chart of the configured list
    with the name asked for, whatever entries of the same name follow
    it; it fails, with the text that names the chart, exactly when no
    entry has the name. *)
Theorem GetChartByName_first_match (s : Service) (name : string) :
  match GetChartByName s name with
  | Ok chart =>
      cmName chart = name /\
      exists pre post,
        charts s = (pre ++ chart :: post)%list /\ Forall (fun c => cmName c <> name) pre
  | Err msg =>
      msg = "chart '" ++ name ++ "' not found in configured list" /\
      Forall (fun c => cmName c <> name) (charts s)
  end.
Proof.
  unfold GetChartByName. generalize (charts s). intros charts.
  induction charts as [|c charts IH]; cbn [GetChartByName_loop]; [by split|].
  destruct (String.eqb_spec (cmName c) name) as [Heq|Hne].
  - split; [done|]. by exists [], charts.
  - destruct (GetChartByName_loop charts name) as [chart|msg].
    + destruct IH as (Hname & pre & post & -> & Hpre). split; [done|].
      exists (c :: pre), post. split; [done|]. by constructor.
    + destruct IH as [-> Hall]. split; [done|]. by constructor.
Qed.

Lemma LoadChartRegistryFromFile_run (filePath : string) (w : W) :
  let a0 := h _ (ReadFile filePath) w in
  let a1 := h _ (YamlUnmarshal a0.1.1) a0.2 in
  run h (LoadChartRegistryFromFile filePath) w =
  match a0.1.2 with
  | Some e =>
      (Err ("failed to read chart config file " ++ filePath ++ ": " ++ e), a0.2,
       [Ev (ReadFile filePath) a0.1])
  | None =>
      (match a1.1.2 with
       | Some e => Err ("failed to unmarshal chart config from " ++ filePath ++ ": " ++ e)
       | None => Ok a1.1.1
       end, a1.2, [Ev (ReadFile filePath) a0.1; Ev (YamlUnmarshal a0.1.1) a1.1])
  end.
Proof.
  cbv zeta. unfold LoadChartRegistryFromFile. cbn [run bind call].
  destruct (h _ (ReadFile filePath) w) as [[data [e|]] w0]; cbn [fst snd run]; [done|].
  by destruct (h _ (YamlUnmarshal data) w0) as [[charts [e|]] w1].
Qed.

(** [NewService] hands the configured charts to one background
    goroutine, the initial repository update over their definitions, and
    returns the service without waiting for it; the service holds the
    charts as the registry file gave them.  When the file cannot be read
    or decoded it fails and starts no goroutine. *)
Theorem NewService_starts_one_update (chartConfigPath : string) (hc : HelmClient) (w : W) :
  let tr := trace_of h (NewService chartConfigPath hc) w in
  match result_of h (NewService chartConfigPath hc) w with
  | Ok s =>
      helmClient s = hc /\
      omap Traces.started tr = [initialRepoUpdate hc (toChartDefinition <$> charts s)] /\
      exists data,
        (h _ (ReadFile chartConfigPath) w).1 = (data, None) /\
        Ev (YamlUnmarshal data) (charts s, None) ∈ tr
  | Err msg =>
      omap Traces.started tr = [] /\
      HasPrefix msg "could not load chart registry: " = true
  end.
Proof.
  cbv zeta. unfold NewService, result_of, trace_of. rewrite run_bind.
  rewrite LoadChartRegistryFromFile_run. cbv zeta.
  destruct (h _ (ReadFile chartConfigPath) w) as [[data [e|]] w0]; cbn [fst snd run].
  { split; [done|]. apply HasPrefix_app. }
  destruct (h _ (YamlUnmarshal data) w0) as [[charts [e|]] w1]; cbn [fst snd run].
  { split; [done|]. apply HasPrefix_app. }
  cbn [bind call run].
  destruct (h _ (Log _) w1) as [u2 w2]. destruct (h _ (GoFunc _) w2) as [u3 w3].
  cbn [fst snd]. split; [done|]. split; [done|].
  exists data. split; [done|]. set_solver.
Qed.

End CatalogFacts.

(* ===================================================================== *)
(** * Installations *)
(* ===================================================================== *)

Section InstallationFacts.
Import Helm Observe Traces.
Context {W : Type} (h : Handler Helm.Cmd W).

Lemma installAttempts_app (t1 t2 : list (Event Cmd)) :
  installAttempts (t1 ++ t2)%list = (installAttempts t1 ++ installAttempts t2)%list.
Proof. apply omap_app. Qed.

Lemma installAttempts_without (tr : list (Event Cmd)) :
  Forall (command_of (Without [KInstallRun])) tr -> installAttempts tr = [].
Proof.
  induction 1 as [|[X c x] tr Hc _ IH]; [done|].
  unfold installAttempts in *. cbn [omap list_omap]. rewrite IH. by destruct c.
Qed.

Lemma UpdateRepos_installs_nothing (hc : HelmClient) (charts : list ChartDefinition) (w : W) :
  installAttempts (trace_of h (UpdateRepos hc charts) w) = [].
Proof.
  apply installAttempts_without, Issues_trace.
  eapply Issues_weaken; [|apply UpdateRepos_sync]. by intros X [].
Qed.

Lemma locateWithRetry_installs_nothing (hc : HelmClient) (cd : ChartDefinition) (w : W) :
  installAttempts (trace_of h (locateWithRetry hc cd) w) = [].
Proof.
  unfold trace_of. rewrite locateWithRetry_run. cbv zeta.
  destruct (h _ (LocateChart _ _) _).1.2; [|done]. cbn [snd].
  rewrite !installAttempts_app, UpdateRepos_installs_nothing. done.
Qed.

Lemma loadAndInstall_run (hc : HelmClient) (client : Install) (rn : string)
    (values : Values) (cp : string) (w : W) :
  exists t0,
    installAttempts t0 = [] /\
    ((exists msg,
        run h (loadAndInstall hc client rn values cp) w = (Err msg, world_of h (loadAndInstall hc client rn values cp) w, t0)) \/
     (exists chrt answer t1,
        installAttempts t1 = [] /\
        trace_of h (loadAndInstall hc client rn values cp) w
        = (t0 ++ Ev (InstallRun client chrt values) answer :: t1)%list /\
        result_of h (loadAndInstall hc client rn values cp) w
        = match answer.2 with
          | None => Ok answer.1
          | Some e => Err ("failed to install chart '" ++ chName chrt ++ "': " ++ e)
          end)).
Proof.
  unfold loadAndInstall, log, result_of, world_of, trace_of. cbn [run bind call].
  destruct (h _ (Log _) w) as [u0 w0].
  destruct (h _ (LoaderLoad cp) w0) as [[chrt [e|]] w1]; cbn [run fst snd].
  { eexists. split; [|left; eexists; reflexivity]. done. }
  destruct (h _ (Log _) w1) as [u2 w2].
  destruct (h _ (InstallRun _ _ _) w2) as [[rel [e|]] w3] eqn:Hinstall; cbn [run fst snd].
  - exists [Ev (Log ("Found chart at path: " ++ cp)) u0; Ev (LoaderLoad cp) (chrt, None);
            Ev (Log (installing hc chrt rn)) u2].
    split; [done|]. right. exists chrt, (rel, Some e), []. split_and!; reflexivity.
  - destruct (h _ (Log _) w3) as [u4 w4]. cbn [fst snd].
    exists [Ev (Log ("Found chart at path: " ++ cp)) u0; Ev (LoaderLoad cp) (chrt, None);
            Ev (Log (installing hc chrt rn)) u2].
    split; [done|]. right. exists chrt, (rel, None). eexists [Ev (Log _) u4]. split_and!; reflexivity.
Qed.

(** The trace of [InstallChart]: commands that install nothing and,
    unless the call gave up before, one installation, on whose answer
    the result depends. *)
Lemma InstallChart_trace (hc : HelmClient) (cd : ChartDefinition)
    (releaseName : string) (values : Values) (w : W) :
  let rn := resolveReleaseName cd releaseName in
  let result := result_of h (InstallChart hc cd releaseName values) w in
  let tr := trace_of h (InstallChart hc cd releaseName values) w in
  exists t0,
    installAttempts t0 = [] /\
    ((tr = t0 /\ exists msg, result = Err msg) \/
     (exists chrt answer t1,
        installAttempts t1 = [] /\
        tr = (t0 ++ Ev (InstallRun (installClient hc cd rn) chrt values) answer :: t1)%list /\
        result = match answer.2 with
                 | None => Ok answer.1
                 | Some e => Err ("failed to install chart '" ++ chName chrt ++ "': " ++ e)
                 end)).
Proof.
  cbv zeta. unfold result_of, trace_of. rewrite InstallChart_run. cbv zeta.
  set (rn := resolveReleaseName cd releaseName).
  destruct (h _ (HistoryRun 1 rn) w) as [[history herr] w0]. cbn [fst snd].
  destruct (checkHistory hc rn history herr) as [msg|].
  { eexists. split; [|left; split; [reflexivity|by eauto]]. done. }
  pose proof (locateWithRetry_installs_nothing hc cd w0) as Hlocate.
  unfold trace_of in Hlocate.
  destruct (run h (locateWithRetry hc cd) w0) as [[[cp|msg] w1] t1]; cbn [fst snd] in *.
  2:{ eexists. split; [|left; split; [reflexivity|by eauto]].
      change (installAttempts (?e :: t1)) with (installAttempts ([e] ++ t1)).
      by rewrite installAttempts_app, Hlocate. }
  destruct (loadAndInstall_run hc (installClient hc cd rn) rn values cp w1)
    as (t0 & Ht0 & [[msg Hrun]|(chrt & answer & t2 & Ht2 & Htrace & Hresult)]).
  - rewrite Hrun. cbn [fst snd].
    eexists. split; [|left; split; [reflexivity|by eauto]].
    change (installAttempts (?e :: ?t)) with (installAttempts ([e] ++ t)).
    by rewrite !installAttempts_app, Hlocate, Ht0.
  - unfold trace_of, result_of in *.
    destruct (run h (loadAndInstall _ _ _ _ _) w1) as [[r w2] tl]. cbn [fst snd] in *.
    subst tl r.
    exists (Ev (HistoryRun 1 rn) (history, herr) :: t1 ++ t0)%list. split.
    { change (installAttempts (?e :: ?t)) with (installAttempts ([e] ++ t)).
      by rewrite !installAttempts_app, Hlocate, Ht0. }
    right. exists chrt, answer, t2. split; [done|]. split; [|done].
    cbn [app]. by rewrite <- app_assoc.
Qed.

(** One call of [InstallChart] asks the backend to install at most
    once.  If it does not ask, it returns an error.  If it asks, the
    installation is into the namespace of the client, under the resolved
    release name, of the version of the definition, waiting with the
    timeout of the client, with the values of the caller; and the call
    returns the release exactly when the backend answers without error,
    else the "failed to install chart" error. *)
Theorem InstallChart_installs_at_most_once (hc : HelmClient) (cd : ChartDefinition)
    (releaseName : string) (values : Values) (w : W) :
  let rn := resolveReleaseName cd releaseName in
  let result := result_of h (InstallChart hc cd releaseName values) w in
  match installAttempts (trace_of h (InstallChart hc cd releaseName values) w) with
  | [] => exists msg, result = Err msg
  | [(client, chrt, vals, answer)] =>
      client = {| iNamespace := AppInstallNamespace (config hc);
                  iReleaseName := rn;
                  iVersion := Version cd;
                  iWait := true;
                  iTimeout := HelmTimeout (config hc) |} /\
      vals = values /\
      result = match answer.2 with
               | None => Ok answer.1
               | Some e => Err ("failed to install chart '" ++ chName chrt ++ "': " ++ e)
               end
  | _ => False
  end.
Proof.
  cbv zeta.
  destruct (InstallChart_trace hc cd releaseName values w)
    as (t0 & Ht0 & [[-> Herr]|(chrt & answer & t1 & Ht1 & -> & Hresult)]).
  - by rewrite Ht0.
  - rewrite installAttempts_app, Ht0. cbn [app].
    change (installAttempts (?e :: t1)) with (installAttempts ([e] ++ t1)).
    rewrite installAttempts_app, Ht1. cbn. done.
Qed.

Ltac count_all :=
  repeat first [rewrite count_cons | rewrite count_app | rewrite count_nil].

(** [InstallChart] goes to the repositories only when the chart cannot
    be located: if the first [LocateChart] succeeds, the call locates the
    chart once, does not lock the mutex of the client, runs no [helm]
    subprocess and loads the chart from the path it was given. *)
Theorem InstallChart_located_at_once (hc : HelmClient) (cd : ChartDefinition)
    (releaseName : string) (values : Values) (w : W) (cp : string) :
  let tr := trace_of h (InstallChart hc cd releaseName values) w in
  firstLocateChart tr = Some (cp, None) ->
  count (ofKind KLocateChart) tr = 1%nat /\
  count (ofKind KLock) tr = 0%nat /\
  count (ofKind KSubprocess) tr = 0%nat /\
  exists answer, Ev (LoaderLoad cp) answer ∈ tr.
Proof.
  cbv zeta. unfold trace_of. rewrite InstallChart_run. cbv zeta.
  set (rn := resolveReleaseName cd releaseName).
  destruct (h _ (HistoryRun 1 rn) w) as [[history herr] w0]. cbn [fst snd].
  destruct (checkHistory hc rn history herr) as [msg|]; [by cbn [fst snd firstLocateChart]|].
  rewrite locateWithRetry_run. cbv zeta.
  destruct (h _ (Log (locating cd)) w0) as [u0 wa]. cbn [fst snd].
  destruct (h _ (LocateChart (Version cd) (Chart cd)) wa) as [[cp1 [e1|]] wb];
    cbn [fst snd].
  { destruct (h _ (LocateChart _ _) _) as [[cp2 [e2|]] wc]; cbn [fst snd].
    - by cbn [firstLocateChart app].
    - destruct (run h (loadAndInstall _ _ _ _ _) wc) as [[r w2] t2].
      by cbn [fst snd firstLocateChart app]. }
  pose proof (loadAndInstall_kinds hc (installClient hc cd rn) rn values cp1) as Hkinds.
  pose proof (Without_count h _ KLocateChart _ wb Hkinds ltac:(simpl; tauto)) as Hlocate.
  pose proof (Without_count h _ KLock _ wb Hkinds ltac:(simpl; tauto)) as Hlock.
  pose proof (Without_count h _ KSubprocess _ wb Hkinds ltac:(simpl; tauto)) as Hsub.
  assert (exists answer rest,
            trace_of h (loadAndInstall hc (installClient hc cd rn) rn values cp1) wb
            = Ev (Log ("Found chart at path: " ++ cp1)) tt :: Ev (LoaderLoad cp1) answer :: rest)
    as (answer & rest & Hload).
  { unfold loadAndInstall, log. rewrite !trace_call.
    destruct (h _ (Log _) wb).1. by eauto. }
  unfold trace_of in *.
  destruct (run h (loadAndInstall _ _ _ _ _) wb) as [[r w2] t2]. cbn [fst snd] in *.
  cbn [fst snd firstLocateChart]. intros [= ->]. count_all. rewrite Hlocate, Hlock, Hsub. cbn.
  split_and!; try done. exists answer. rewrite Hload. cbn [app].
  do 4 apply list_elem_of_further. apply list_elem_of_here.
Qed.

(** When the history query itself fails, [InstallChart] gives up with
    the "error checking history" error and does nothing else, unless the
    text of the failure contains "release: not found": that failure
    counts as "no such release" and the call goes on to locate the
    chart. *)
Theorem InstallChart_history_failure (hc : HelmClient) (cd : ChartDefinition)
    (releaseName : string) (values : Values) (w : W) (history : list Release) (e : string) :
  let rn := resolveReleaseName cd releaseName in
  let tr := trace_of h (InstallChart hc cd releaseName values) w in
  (h _ (HistoryRun 1 rn) w).1 = (history, Some e) ->
  if Contains e "release: not found" then
    (1 <= count (ofKind KLocateChart) tr)%nat
  else
    result_of h (InstallChart hc cd releaseName values) w
    = Err ("error checking history for release " ++ rn ++ ": " ++ e) /\
    tr = [Ev (HistoryRun 1 rn) (history, Some e)].
Proof.
  cbv zeta. unfold trace_of, result_of. rewrite InstallChart_run. cbv zeta.
  set (rn := resolveReleaseName cd releaseName).
  destruct (h _ (HistoryRun 1 rn) w) as [[history' herr] w0]. cbn [fst snd].
  intros [= -> ->]. cbn [checkHistory].
  destruct (Contains e "release: not found"); cbn [negb]; [|done].
  rewrite locateWithRetry_run. cbv zeta.
  destruct (h _ (Log (locating cd)) w0) as [u0 wa]. cbn [fst snd].
  destruct (h _ (LocateChart (Version cd) (Chart cd)) wa) as [[cp1 [e1|]] wb];
    cbn [fst snd].
  - destruct (h _ (LocateChart _ _) _) as [[cp2 [e2|]] wc]; cbn [fst snd].
    + count_all. cbn. lia.
    + destruct (run h (loadAndInstall _ _ _ _ _) wc) as [[r w2] t2]. cbn [fst snd].
      count_all. cbn. lia.
  - destruct (run h (loadAndInstall _ _ _ _ _) wb) as [[r w2] t2]. cbn [fst snd].
    count_all. cbn. lia.
Qed.

End InstallationFacts.

(** The repository of the chart is in the cache: the chart is located at
    the first attempt. *)
Lemma InstallChart_located_at_once_witness :
  let tr := trace_of Cluster.backend (Helm.InstallChart Cluster.hc Cluster.nginx "" [])
              Scenario.cached in
  Observe.firstLocateChart tr = Some ("/cache/bitnami/nginx-15.0.0.tgz", None) /\
  Observe.count (Observe.ofKind Observe.KLocateChart) tr = 1%nat /\
  Observe.count (Observe.ofKind Observe.KLock) tr = 0%nat /\
  Observe.count (Observe.ofKind Observe.KSubprocess) tr = 0%nat.
Proof.
  intros tr.
  assert (Observe.firstLocateChart tr = Some ("/cache/bitnami/nginx-15.0.0.tgz", None))
    as Hfirst by (vm_compute; reflexivity).
  split; [exact Hfirst|].
  destruct (InstallChart_located_at_once Cluster.backend Cluster.hc Cluster.nginx "" []
              Scenario.cached _ Hfirst) as (Hlocate & Hlock & Hsub & _).
  split; [exact Hlocate|]. split; [exact Hlock | exact Hsub].
Defined.

(** The release store cannot be reached: the history query fails with a
    text that is not "release: not found". *)
Lemma InstallChart_history_failure_witness :
  Contains Scenario.unreachable "release: not found" = false /\
  result_of (Scenario.failing [Observe.KHistory])
    (Helm.InstallChart Cluster.hc Cluster.nginx "" []) Scenario.cached
  = Err ("error checking history for release nginx: " ++ Scenario.unreachable) /\
  trace_of (Scenario.failing [Observe.KHistory])
    (Helm.InstallChart Cluster.hc Cluster.nginx "" []) Scenario.cached
  = [Ev (Helm.HistoryRun 1 "nginx") ([], Some Scenario.unreachable)].
Proof.
  split; [vm_compute; reflexivity|].
  exact (InstallChart_history_failure (Scenario.failing [Observe.KHistory])
           Cluster.hc Cluster.nginx "" [] Scenario.cached [] Scenario.unreachable eq_refl).
Defined.

(* ===================================================================== *)
(** * Listing releases and asking for a status *)
(* ===================================================================== *)

Section ListingFacts.
Import Helm Observe Traces.
Context {W : Type} (h : Handler Helm.Cmd W).

Lemma serviceQueries_app (t1 t2 : list (Event Cmd)) :
  serviceQueries (t1 ++ t2)%list = (serviceQueries t1 ++ serviceQueries t2)%list.
Proof. apply omap_app. Qed.

Lemma getReleaseNodePorts_query (releaseName namespace : string) (w : W) :
  let a := (h _ (ServicesList namespace (instanceSelector releaseName)) w).1 in
  serviceQueries (trace_of h (getReleaseNodePorts releaseName namespace) w)
  = [(namespace, instanceSelector releaseName, a)] /\
  result_of h (getReleaseNodePorts releaseName namespace) w = portsOf a.
Proof.
  cbv zeta. unfold trace_of, result_of. rewrite getReleaseNodePorts_run. cbv zeta.
  unfold portsOf.
  by destruct (h _ (ServicesList _ _) w) as [[items [e|]] w1].
Qed.

Lemma ListInstalledReleases_loop_run (results : list Release) (w : W) :
  let tr := trace_of h (ListInstalledReleases_loop results) w in
  (fun q => q.1) <$> serviceQueries tr
  = (fun rel => (rNamespace rel, instanceSelector (rName rel))) <$> results /\
  result_of h (ListInstalledReleases_loop results) w
  = zip_with (fun rel q => toReleaseInfo rel (portsOf q.2)) results (serviceQueries tr).
Proof.
  cbv zeta. revert w. induction results as [|rel rest IH]; intros w; [done|].
  cbn [ListInstalledReleases_loop].
  rewrite !trace_bind, !result_bind, trace_ret, app_nil_r, serviceQueries_app.
  destruct (getReleaseNodePorts_query (rName rel) (rNamespace rel) w) as [-> ->].
  cbn [app fmap list_fmap zip_with fst snd].
  destruct (IH (world_of h (getReleaseNodePorts (rName rel) (rNamespace rel)) w))
    as [Hq Hr].
  split; [by rewrite <- Hq | by rewrite <- Hr].
Qed.

(** [ListInstalledReleases] fails only when the listing of the release
    store fails, and then asks nothing else.  Otherwise it returns one
    entry per release, in the order of the store: it asks once per
    release for the Services with the instance label of the release in
    the namespace of the release, and the entry has the fields of the
    release and the node ports made of the answer ([portsOf]: none
    when the query failed). *)
Theorem ListInstalledReleases_one_entry_per_release (w : W) :
  let listing := (h _ ListRun w).1 in
  let tr := trace_of h ListInstalledReleases w in
  match listing.2 with
  | Some e =>
      result_of h ListInstalledReleases w = Err ("failed to list Helm releases: " ++ e) /\
      tr = [Ev ListRun listing]
  | None =>
      (fun q => q.1) <$> serviceQueries tr
      = (fun rel => (rNamespace rel, "app.kubernetes.io/instance=" ++ rName rel))
        <$> listing.1 /\
      result_of h ListInstalledReleases w
      = Ok (zip_with (fun rel q => toReleaseInfo rel (portsOf q.2))
              listing.1 (serviceQueries tr))
  end.
Proof.
  cbv zeta. unfold ListInstalledReleases.
  rewrite trace_call, result_call.
  destruct (h _ ListRun w) as [[results [e|]] w0]; cbn [fst snd]; [done|].
  rewrite trace_bind, result_bind, trace_ret, app_nil_r.
  destruct (ListInstalledReleases_loop_run results w0) as [Hq Hr]. cbv zeta in Hq, Hr.
  change (serviceQueries (Ev ListRun (results, None) :: ?t)) with (serviceQueries t).
  split; [exact Hq|]. by rewrite Hr.
Qed.

Lemma GetReleaseStatus_run (hc : HelmClient) (releaseName : string) (w : W) :
  let status :=
    CmdRun "helm"
      ["status"; releaseName; "-n"; AppInstallNamespace (config hc); "-o"; "json"]
      (helmEnv hc) in
  let a0 := h _ status w in
  let a1 := h _ (Unmarshal a0.1.1.1) a0.2 in
  run h (GetReleaseStatus hc releaseName) w =
  match a0.1.2 with
  | Some e =>
      (Err ("error getting status for release '" ++ releaseName ++ "': " ++ e
            ++ ". Stderr: " ++ a0.1.1.2), a0.2, [Ev status a0.1])
  | None =>
      (match a1.1.2 with
       | Some e =>
           Err ("error unmarshalling status JSON for release '" ++ releaseName
                ++ "': " ++ e)
       | None => Ok a1.1.1
       end, a1.2, [Ev status a0.1; Ev (Unmarshal a0.1.1.1) a1.1])
  end.
Proof.
  cbv zeta. unfold GetReleaseStatus. cbn [run bind call].
  destruct (h _ (CmdRun _ _ _) w) as [[[out stderr] [e|]] w0]; cbn [fst snd run]; [done|].
  by destruct (h _ (Unmarshal out) w0) as [[statusData [e|]] w1].
Qed.

End ListingFacts.

(* ===================================================================== *)
(** * The handlers *)
(* ===================================================================== *)

Section HandlerFacts.
Import Catalog Helm Api ApiHandlers Observe Traces.
Context {W : Type} (h : Handler Helm.Cmd W).

Lemma Contains_middle (a s b sub : string) :
  Contains s sub = true -> Contains (a ++ s ++ b) sub = true.
Proof.
  intros Hs. destruct (Contains_inv _ _ Hs) as (x & y & ->).
  rewrite !append_assoc, <- (append_assoc a x). apply Contains_intro.
Qed.

Lemma Contains_app_r (a s sub : string) :
  Contains s sub = true -> Contains (a ++ s) sub = true.
Proof.
  intros Hs. destruct (Contains_inv _ _ Hs) as (x & y & ->).
  rewrite <- (append_assoc a x). apply Contains_intro.
Qed.

Lemma Contains_app_l (s b sub : string) :
  Contains s sub = true -> Contains (s ++ b) sub = true.
Proof.
  intros Hs. destruct (Contains_inv _ _ Hs) as (x & y & ->).
  rewrite !append_assoc. apply Contains_intro.
Qed.

Lemma Contains_release_not_found (s : string) :
  Contains s "release: not found" = true -> Contains s "not found" = true.
Proof.
  intros Hs. destruct (Contains_inv _ _ Hs) as (x & y & ->).
  apply (Contains_middle x "release: not found" y). reflexivity.
Qed.

(** The test of [GetReleaseStatusHandler] is the test for "not found". *)
Lemma not_found_test (msg : string) :
  Contains msg "release: not found" || Contains msg "not found" = Contains msg "not found".
Proof.
  destruct (Contains msg "release: not found") eqn:Hr; [|done].
  by rewrite (Contains_release_not_found _ Hr).
Qed.

(** [GetReleaseStatusHandler] answers 200 with the decoded status when
    [helm status] exits with status zero and its output decodes.  It
    answers 404 whenever the text of the failure contains "not found",
    so whenever the standard error of [helm status], the text of its
    exit or the release name itself does; every other failure is a 500
    with the text of the failure.  The first of the two tests of the
    handler, for "release: not found", decides nothing. *)
Theorem GetReleaseStatusHandler_not_found (hc : HelmClient) (releaseName : string) (w : W) :
  let a0 :=
    (h _ (CmdRun "helm"
            ["status"; releaseName; "-n"; AppInstallNamespace (config hc); "-o"; "json"]
            (helmEnv hc)) w) in
  let a1 := h _ (Unmarshal a0.1.1.1) a0.2 in
  let reply := result_of h (GetReleaseStatusHandler hc releaseName) w in
  let notFound :=
    {| status := 404; body := ErrorBody ("Release '" ++ releaseName ++ "' not found.") |} in
  match a0.1.2 with
  | Some e =>
      let msg := "error getting status for release '" ++ releaseName ++ "': " ++ e
                 ++ ". Stderr: " ++ a0.1.1.2 in
      reply = (if Contains msg "not found" then notFound
               else {| status := 500; body := ErrorBody msg |}) /\
      (Contains a0.1.1.2 "not found" = true \/ Contains e "not found" = true
       \/ Contains releaseName "not found" = true -> reply = notFound)
  | None =>
      match a1.1.2 with
      | Some e =>
          let msg := "error unmarshalling status JSON for release '" ++ releaseName
                     ++ "': " ++ e in
          reply = (if Contains msg "not found" then notFound
                   else {| status := 500; body := ErrorBody msg |})
      | None => reply = {| status := 200; body := StatusBody a1.1.1 |}
      end
  end.
Proof.
  cbv zeta. unfold GetReleaseStatusHandler, result_of. rewrite run_bind.
  rewrite GetReleaseStatus_run. cbv zeta.
  destruct (h _ (CmdRun _ _ _) w) as [[[out stderr] [e|]] w0]; cbn [fst snd run].
  - rewrite not_found_test.
    set (msg := "error getting status for release '" ++ releaseName ++ "': " ++ e
                ++ ". Stderr: " ++ stderr).
    assert (Contains stderr "not found" = true \/ Contains e "not found" = true
            \/ Contains releaseName "not found" = true -> Contains msg "not found" = true)
      as Hmsg.
    { subst msg. intros [Hs|[He|Hn]].
      - by do 5 apply Contains_app_r.
      - do 3 apply Contains_app_r. by apply Contains_app_l.
      - apply Contains_app_r. by apply Contains_app_l. }
    destruct (Contains msg "not found") eqn:Hc; cbn [run fst]; (split; [done|]).
    + done.
    + intros H. by apply Hmsg in H.
  - destruct (h _ (Unmarshal out) w0) as [[statusData [e|]] w1]; cbn [fst snd run]; [|done].
    rewrite not_found_test.
    by destruct (Contains _ "not found").
Qed.

Lemma installAttempts_logs (tr : list (Event Cmd)) :
  Forall (fun e => isLog e = true) tr -> installAttempts tr = [].
Proof.
  induction 1 as [|[X c x] tr Hc _ IH]; [done|].
  unfold installAttempts in *. cbn [omap list_omap]. rewrite IH. by destruct c.
Qed.

Lemma bindRequest_run (name : string) (req : InstallRequest) (bindErr : error) (w : W) :
  irReleaseName (result_of h (bindRequest name req bindErr) w) = irReleaseName req /\
  entries (irValues (result_of h (bindRequest name req bindErr) w)) = entries (irValues req) /\
  Forall (fun e => isLog e = true) (trace_of h (bindRequest name req bindErr) w).
Proof.
  unfold bindRequest, log, result_of, trace_of. destruct bindErr as [e|]; [|by split_and!].
  destruct (negb (String.eqb e "EOF")), (irValues req) eqn:Hv; cbn [run bind call];
    try destruct (h _ (Log _) w) as [u w0]; cbn [fst snd irReleaseName irValues];
    rewrite ?Hv; split_and!; try done; by repeat constructor.
Qed.

Lemma InstallChartHandler_run (cs : Catalog.Service) (hc : HelmClient) (name : string)
    (req : InstallRequest) (bindErr : error) (w : W) :
  let bound := result_of h (bindRequest name req bindErr) w in
  let w0 := world_of h (bindRequest name req bindErr) w in
  let t0 := trace_of h (bindRequest name req bindErr) w in
  run h (InstallChartHandler cs hc name req bindErr) w =
  match GetChartByName cs name with
  | Err msg => ({| status := StatusNotFound; body := ErrorBody msg |}, w0, t0)
  | Ok chartMeta =>
      let '(r, w1, t1) :=
        run h (InstallChart hc (toChartDefinition chartMeta) (irReleaseName bound)
                 (entries (irValues bound))) w0 in
      (match r with
       | Err msg => {| status := StatusInternalServerError; body := ErrorBody msg |}
       | Ok release =>
           {| status := StatusOK;
              body := InstalledBody (installedMessage chartMeta release)
                        (rName release) (rNamespace release) (rVersion release)
                        (rStatus release) |}
       end, w1, (t0 ++ t1)%list)
  end.
Proof.
  cbv zeta. unfold InstallChartHandler, result_of, world_of, trace_of. rewrite run_bind.
  destruct (run h (bindRequest name req bindErr) w) as [[bound w0] t0]. cbn [fst snd].
  destruct (GetChartByName cs name) as [chartMeta|msg]; cbn [run]; [|by rewrite app_nil_r].
  rewrite run_bind.
  destruct (run h (InstallChart _ _ _ _) w0) as [[[release|msg] w1] t1]; cbn [run];
    by rewrite app_nil_r.
Qed.

(** A chart name that is not in the catalog is answered with 404 and the
    text of the catalog, and the client is not asked for anything: the
    handler has at most written a log line about the request body. *)
Theorem InstallChartHandler_unknown_chart (cs : Catalog.Service) (hc : HelmClient)
    (name : string) (req : InstallRequest) (bindErr : error) (w : W) :
  Forall (fun c => cmName c <> name) (charts cs) ->
  result_of h (InstallChartHandler cs hc name req bindErr) w
  = {| status := 404;
       body := ErrorBody ("chart '" ++ name ++ "' not found in configured list") |} /\
  Forall (fun e => isLog e = true)
    (trace_of h (InstallChartHandler cs hc name req bindErr) w).
Proof.
  intros Hnone. unfold result_of, trace_of. rewrite InstallChartHandler_run. cbv zeta.
  unfold GetChartByName. rewrite (GetChartByName_loop_absent _ _ Hnone). cbn [fst snd].
  split; [done|]. apply bindRequest_run.
Qed.

(** [InstallChartHandler] answers 200, 404 or 500, and 200 exactly when
    the backend carried out an installation without error.  That
    installation is of the chart the catalog has under the name in the
    route, with the version of the catalog, into the namespace of the
    client, under the release name of the request or else the name in
    the route, with the values of the request; and the answer reports
    the name, namespace, revision and status of the release the backend
    returned. *)
Theorem InstallChartHandler_reports_installation (cs : Catalog.Service) (hc : HelmClient)
    (name : string) (req : InstallRequest) (bindErr : error) (w : W) :
  let reply := result_of h (InstallChartHandler cs hc name req bindErr) w in
  let attempts :=
    installAttempts (trace_of h (InstallChartHandler cs hc name req bindErr) w) in
  (status reply = 200 \/ status reply = 404 \/ status reply = 500) /\
  (status reply = 200 <->
   exists client chrt vals rel, attempts = [(client, chrt, vals, (rel, None))]) /\
  (forall client chrt vals rel,
     attempts = [(client, chrt, vals, (rel, None))] ->
     exists chartMeta,
       GetChartByName cs name = Ok chartMeta /\
       client = {| iNamespace := AppInstallNamespace (config hc);
                   iReleaseName := if String.eqb (irReleaseName req) "" then name
                                   else irReleaseName req;
                   iVersion := cmVersion chartMeta;
                   iWait := true;
                   iTimeout := HelmTimeout (config hc) |} /\
       vals = entries (irValues req) /\
       body reply = InstalledBody (installedMessage chartMeta rel)
                      (rName rel) (rNamespace rel) (rVersion rel) (rStatus rel)).
Proof.
  cbv zeta. unfold result_of, trace_of. rewrite InstallChartHandler_run. cbv zeta.
  destruct (bindRequest_run name req bindErr w) as (Hname & Hvalues & Hlogs).
  apply installAttempts_logs in Hlogs. rewrite Hname, Hvalues.
  unfold GetChartByName.
  destruct (GetChartByName_loop (charts cs) name) as [chartMeta|msg] eqn:Hchart.
  2:{ cbn [fst snd status]. rewrite Hlogs.
      split; [by right; left|]. split; [|done].
      split; [done|]. by intros (? & ? & ? & ? & ?). }
  pose proof (GetChartByName_loop_Ok _ _ _ Hchart) as Hmeta.
  destruct (InstallChart_trace h hc (toChartDefinition chartMeta) (irReleaseName req)
              (entries (irValues req)) (world_of h (bindRequest name req bindErr) w))
    as (t0 & Ht0 & Hcases).
  unfold result_of, trace_of in Hcases.
  destruct (run h (InstallChart _ _ _ _) _) as [[r w1] t1]. cbn [fst snd] in *.
  rewrite installAttempts_app, Hlogs. cbn [app].
  destruct Hcases as [[-> [msg ->]]|(chrt & [rel err] & t2 & Ht2 & -> & ->)].
  - rewrite Ht0. cbn [status].
    split; [by right; right|]. split; [|done].
    split; [done|]. by intros (? & ? & ? & ? & ?).
  - rewrite installAttempts_app, Ht0. cbn [app].
    change (installAttempts (?e :: t2)) with (installAttempts ([e] ++ t2)).
    rewrite installAttempts_app, Ht2.
    cbn [installAttempts installAttempt omap list_omap app fst snd].
    unfold installClient, resolveReleaseName, toChartDefinition. cbn [Name Version].
    rewrite Hmeta.
    destruct err as [e|]; cbn [status body].
    + split; [by right; right|]. split; [|done].
      split; [done|]. by intros (? & ? & ? & ? & ?).
    + split; [by left|]. split; [split; [by eauto|done]|].
      intros ? ? ? ? [= <- <- <- <-]. by exists chartMeta.
Qed.

(** A release name that is taken is answered with 500 and the "already
    exists" text of the client, and nothing is installed: the handler
    has no 409. *)
Theorem InstallChartHandler_existing_release (cs : Catalog.Service) (hc : HelmClient)
    (name : string) (req : InstallRequest) (bindErr : error) (w : W)
    (chartMeta : ChartMeta) (history : list Release) :
  let rn := if String.eqb (irReleaseName req) "" then name else irReleaseName req in
  let w0 := world_of h (bindRequest name req bindErr) w in
  GetChartByName cs name = Ok chartMeta ->
  (h _ (HistoryRun 1 rn) w0).1 = (history, None) -> history <> [] ->
  result_of h (InstallChartHandler cs hc name req bindErr) w
  = {| status := 500;
       body := ErrorBody ("release '" ++ rn ++ "' already exists in namespace '"
                          ++ AppInstallNamespace (config hc) ++ "'") |} /\
  installAttempts (trace_of h (InstallChartHandler cs hc name req bindErr) w) = [].
Proof.
  cbv zeta. intros Hchart Hhistory Hne.
  unfold result_of, trace_of. rewrite InstallChartHandler_run. cbv zeta. rewrite Hchart.
  destruct (bindRequest_run name req bindErr w) as (Hname & Hvalues & Hlogs).
  apply installAttempts_logs in Hlogs. rewrite Hname, Hvalues.
  pose proof (GetChartByName_loop_Ok _ _ _ Hchart) as Hmeta.
  rewrite InstallChart_run. cbv zeta.
  unfold resolveReleaseName, toChartDefinition. cbn [Name]. rewrite Hmeta, Hhistory.
  cbn [fst snd]. rewrite checkHistory_exists by done. cbn [fst snd].
  rewrite installAttempts_app. rewrite Hlogs. done.
Qed.

(** [ListReleasesHandler] answers 500 exactly when the listing of the
    release store fails; otherwise 200 with one entry per release, also
    when Services could not be listed. *)
Theorem ListReleasesHandler_status (w : W) :
  let listing := (h _ ListRun w).1 in
  let reply := result_of h ListReleasesHandler w in
  match listing.2 with
  | Some e =>
      reply = {| status := 500; body := ErrorBody ("failed to list Helm releases: " ++ e) |}
  | None =>
      exists releases,
        reply = {| status := 200; body := ReleasesBody releases |} /\
        riName <$> releases = rName <$> listing.1
  end.
Proof.
  cbv zeta. unfold ListReleasesHandler, ListInstalledReleases.
  rewrite !result_bind, result_single, world_single.
  destruct (h _ ListRun w) as [[results [e|]] w0]; cbn [fst snd]; [done|].
  rewrite result_bind. eexists. split; [reflexivity|].
  destruct (ListInstalledReleases_loop_run h results w0) as [Hq ->]. cbv zeta in Hq.
  apply (f_equal length) in Hq. rewrite !length_fmap in Hq.
  revert Hq. generalize (serviceQueries (trace_of h (ListInstalledReleases_loop results) w0)).
  induction results as [|rel rest IH]; intros [|q qs] Hlen; try done.
  cbn. f_equal. apply IH. by injection Hlen.
Qed.

End HandlerFacts.

(** The catalog of [Scenario.catalog] has no chart named "mysql". *)
Lemma InstallChartHandler_unknown_chart_witness :
  result_of Cluster.backend
    (ApiHandlers.InstallChartHandler Scenario.catalog Cluster.hc "mysql"
       Scenario.emptyObject None) Cluster.empty
  = {| ApiHandlers.status := 404;
       ApiHandlers.body :=
         ApiHandlers.ErrorBody "chart 'mysql' not found in configured list" |} /\
  Forall (fun e => Observe.isLog e = true)
    (trace_of Cluster.backend
       (ApiHandlers.InstallChartHandler Scenario.catalog Cluster.hc "mysql"
          Scenario.emptyObject None) Cluster.empty).
Proof.
  apply (InstallChartHandler_unknown_chart Cluster.backend Scenario.catalog Cluster.hc
           "mysql" Scenario.emptyObject None Cluster.empty).
  repeat constructor; discriminate.
Defined.

(** A request without body for the chart "nginx", whose default release
    name is taken in [Scenario.deployed]. *)
Lemma InstallChartHandler_existing_release_witness :
  result_of Cluster.backend
    (ApiHandlers.InstallChartHandler Scenario.catalog Cluster.hc "nginx"
       Scenario.emptyObject (Some "EOF")) Scenario.deployed
  = {| ApiHandlers.status := 500;
       ApiHandlers.body :=
         ApiHandlers.ErrorBody
           "release 'nginx' already exists in namespace 'app-store-apps'" |} /\
  Traces.installAttempts
    (trace_of Cluster.backend
       (ApiHandlers.InstallChartHandler Scenario.catalog Cluster.hc "nginx"
          Scenario.emptyObject (Some "EOF")) Scenario.deployed) = [].
Proof.
  apply (InstallChartHandler_existing_release Cluster.backend Scenario.catalog Cluster.hc
           "nginx" Scenario.emptyObject (Some "EOF") Scenario.deployed
           Scenario.nginxMeta [Scenario.nginxRelease]).
  - reflexivity.
  - vm_compute. reflexivity.
  - discriminate.
Defined.

(* ===================================================================== *)
(** * More on UpdateRepos *)
(* ===================================================================== *)

Section RefreshFacts.
Import Catalog Helm Observe Traces.
Context {W : Type} (h : Handler Helm.Cmd W).

Ltac count_all :=
  repeat first [rewrite count_cons | rewrite count_app | rewrite count_nil].

(** The successful registrations of the loop are the keys it adds to
    [addedRepos], and the loop does not refresh. *)
Lemma UpdateRepos_loop_registered (hc : HelmClient) (charts : list ChartDefinition)
    (addedRepos : gmap string bool) (w : W) :
  let tr := trace_of h (UpdateRepos_loop hc charts addedRepos) w in
  (count registered tr + size addedRepos)%nat
  = size (result_of h (UpdateRepos_loop hc charts addedRepos) w) /\
  count isRepoUpdate tr = 0%nat.
Proof.
  cbv zeta. revert addedRepos w.
  induction charts as [|chart rest IH]; intros addedRepos w; cbn [UpdateRepos_loop]; [done|].
  destruct (String.eqb (RepoURL chart) ""); [apply IH|].
  destruct (length (SplitN2 (Chart chart) "/") <? 2)%nat.
  { unfold log. rewrite trace_call, result_call. count_all. apply IH. }
  set (repoName := nth 0 (SplitN2 (Chart chart) "/") "").
  destruct (addedRepos !! repoName) eqn:Hadded; [apply IH|].
  unfold log. rewrite !trace_call, !result_call. count_all.
  match goal with
  | |- context [h ?X (CombinedOutput ?a ?b ?c) ?w1] =>
      destruct (h X (CombinedOutput a b c) w1) as [[output err] w2] eqn:Hcmd
  end.
  cbn [fst snd].
  assert (isRepoUpdate (Ev (CombinedOutput "helm" (repoAddArgs repoName (RepoURL chart))
                              (helmEnv hc)) (output, err)) = false) as Hupdate.
  { cbn. by rewrite bool_decide_eq_false_2. }
  assert (isRepoAdd (Ev (CombinedOutput "helm" (repoAddArgs repoName (RepoURL chart))
                           (helmEnv hc)) (output, err)) = true) as Hadd by done.
  rewrite Hupdate. unfold registered at 2. rewrite Hadd.
  cbn [failed answerError snd andb].
  destruct err as [e|]; rewrite trace_call, result_call; count_all; cbn [negb].
  - destruct (IH addedRepos (h _ (Log ("Error adding/updating repo " ++ repoName
                ++ " with Helm CLI: " ++ e ++ nl ++ "Output: " ++ output)) w2).2)
      as [Hsize Hnone].
    cbn [registered isRepoAdd isRepoUpdate isRepoUpdateCmd andb]. split; [exact Hsize|exact Hnone].
  - destruct (IH (<[repoName := true]> addedRepos)
                (h _ (Log ("Repo " ++ repoName
                           ++ " added/updated successfully via Helm CLI.")) w2).2)
      as [Hsize Hnone].
    rewrite map_size_insert_None in Hsize by done.
    cbn [registered isRepoAdd isRepoUpdate isRepoUpdateCmd andb].
    split; [rewrite <- Hsize; lia | exact Hnone].
Qed.

Lemma UpdateRepos_refresh_run (hc : HelmClient) (addedRepos : gmap string bool) (w : W) :
  let tr := trace_of h (UpdateRepos_refresh hc addedRepos) w in
  count isRepoUpdate tr = (if (0 <? size addedRepos)%nat then 1 else 0)%nat /\
  count isRepoAdd tr = 0%nat /\
  count isSubprocess tr = (if (0 <? size addedRepos)%nat then 1 else 0)%nat.
Proof.
  cbv zeta. unfold UpdateRepos_refresh, log. destruct (0 <? size addedRepos)%nat; [|done].
  rewrite !trace_call. count_all.
  match goal with
  | |- context [h ?X (CombinedOutput ?a ?b ?c) ?w1] =>
      destruct (h X (CombinedOutput a b c) w1) as [[output [e|]] w2]
  end; cbn [fst snd]; rewrite trace_single; count_all; done.
Qed.

Lemma count_registered_le (tr : list (Event Cmd)) :
  (count registered tr <= count isRepoAdd tr)%nat.
Proof.
  induction tr as [|e tr IH]; [done|]. count_all. unfold registered at 1.
  destruct (isRepoAdd e), (failed e); cbn; lia.
Qed.

(** [UpdateRepos] runs [helm repo update] exactly when one of its
    [helm repo add] exited with status zero, and then once, after the
    last [helm repo add]: a call that registers nothing, be it that the
    list is empty, that no definition has a repository, or that every
    registration failed, refreshes nothing. *)
Theorem UpdateRepos_refreshes_after_registration (hc : HelmClient)
    (charts : list ChartDefinition) (w : W) :
  let tr := trace_of h (UpdateRepos hc charts) w in
  count isRepoUpdate tr = (if (0 <? count registered tr)%nat then 1 else 0)%nat /\
  exists registrations refresh,
    tr = (registrations ++ refresh)%list /\
    count isRepoUpdate registrations = 0%nat /\
    count isRepoAdd refresh = 0%nat /\
    count isSubprocess refresh = count isRepoUpdate tr.
Proof.
  cbv zeta. unfold UpdateRepos.
  rewrite trace_call, trace_bind, trace_call, trace_ret.
  set (w0 := (h _ Lock w).2).
  generalize (h _ Unlock (world_of h (UpdateRepos_body hc charts) w0)).1.
  generalize (h _ Lock w).1. intros u0 u1.
  unfold UpdateRepos_body. rewrite !trace_bind, trace_ret, !app_nil_r.
  set (tloop := trace_of h (UpdateRepos_loop hc charts ∅) w0).
  set (added := result_of h (UpdateRepos_loop hc charts ∅) w0).
  set (trefresh := trace_of h (UpdateRepos_refresh hc added) _).
  destruct (UpdateRepos_loop_registered hc charts ∅ w0) as [Hsize Hnone].
  cbv zeta in Hsize, Hnone. fold tloop added in Hsize, Hnone.
  rewrite map_size_empty, Nat.add_0_r in Hsize.
  destruct (UpdateRepos_refresh_run hc added (world_of h (UpdateRepos_loop hc charts ∅) w0))
    as (Hupdate & Hadd & Hsub).
  cbv zeta in Hupdate, Hadd, Hsub. fold trefresh in Hupdate, Hadd, Hsub.
  pose proof (count_registered_le trefresh) as Hle.
  assert (count isRepoUpdate (Ev Lock u0 :: (tloop ++ trefresh) ++ [Ev Unlock u1])
          = (if (0 <? size added)%nat then 1 else 0)%nat) as Htotal.
  { count_all. rewrite Hnone, Hupdate. cbn. lia. }
  split.
  - rewrite Htotal. count_all. rewrite Hadd in Hle.
    replace (count registered trefresh) with 0%nat by lia. rewrite Hsize.
    cbn. by rewrite !Nat.add_0_r.
  - exists (Ev Lock u0 :: tloop), (trefresh ++ [Ev Unlock u1])%list.
    split; [by rewrite <- app_assoc|].
    rewrite Htotal. count_all. rewrite Hnone, Hadd, Hsub. cbn. split_and!; lia.
Qed.

Lemma count_isRepoAdd_le (tr : list (Event Cmd)) :
  (count isRepoAdd tr <= count isSubprocess tr)%nat.
Proof.
  induction tr as [|e tr IH]; [done|]. count_all.
  assert (isRepoAdd e = true -> isSubprocess e = true) as Himp.
  { destruct e as [X c x]. by destruct c. }
  destruct (isRepoAdd e) eqn:Ha; [rewrite Himp by done | destruct (isSubprocess e)]; lia.
Qed.

Lemma UpdateRepos_single_add (hc : HelmClient) (cd : ChartDefinition) (w : W) :
  (count isRepoAdd (trace_of h (UpdateRepos hc [cd]) w) <= 1)%nat.
Proof.
  unfold UpdateRepos. rewrite trace_call, trace_bind, trace_call, trace_ret.
  unfold UpdateRepos_body. rewrite !trace_bind, trace_ret, !app_nil_r. count_all.
  rewrite (proj1 (proj2 (UpdateRepos_refresh_run hc _ _))).
  cbn [isRepoAdd]. rewrite !Nat.add_0_r, Nat.add_0_l.
  cbn [UpdateRepos_loop].
  destruct (String.eqb (RepoURL cd) ""); [rewrite trace_ret; cbn; lia|].
  destruct (length (SplitN2 (Chart cd) "/") <? 2)%nat.
  { unfold log. rewrite trace_call, trace_ret. count_all. cbn. lia. }
  rewrite lookup_empty. unfold log. rewrite !trace_call. count_all.
  match goal with
  | |- context [h ?X (CombinedOutput ?a ?b ?c) ?w1] =>
      destruct (h X (CombinedOutput a b c) w1) as [[output [e|]] w2]
  end; cbn [fst snd]; rewrite trace_call, trace_ret; count_all; cbn [isRepoAdd];
    repeat match goal with
           | |- context [if ?b then 1%nat else 0%nat] => destruct b
           end; lia.
Qed.

Lemma InstallChart_from_chart (hc : HelmClient) (cd : ChartDefinition)
    (releaseName : string) (values : Values) :
  Issues (FromCharts hc [cd]) (InstallChart hc cd releaseName values).
Proof.
  unfold InstallChart. cbn [Issues bind call]. split; [done|]. intros [history err].
  destruct (checkHistory _ _ _ _); [done|].
  apply Issues_bind.
  - unfold locateWithRetry, log. cbn [Issues bind call]. split; [done|]. intros _.
    split; [done|]. intros [cp [e|]]; cbn [Issues bind call]; [|done].
    split; [done|]. intros _. apply Issues_bind; [apply UpdateRepos_from_charts|].
    intros [eu|]; cbn [Issues bind call].
    + split; [done|]. intros _. split; [done|]. by intros [cp2 [e2|]].
    + split; [done|]. by intros [cp2 [e2|]].
  - intros [cp|msg]; [|done].
    unfold loadAndInstall, log. cbn [Issues bind call]. split; [done|]. intros _.
    split; [done|]. intros [chrt [e|]]; cbn [Issues bind call]; [done|].
    split; [done|]. intros _. split; [done|]. by intros [rel [e|]]; cbn [Issues bind call].
Qed.

(** An installation registers no repository but the one of its chart,
    and that at most once: every [helm repo add] of a call of
    [InstallChart] is for the text before the first "/" of the chart
    reference of the definition, with the repository URL of the
    definition, which is not empty. *)
Theorem InstallChart_registers_own_repository (hc : HelmClient) (cd : ChartDefinition)
    (releaseName : string) (values : Values) (w : W) :
  let tr := trace_of h (InstallChart hc cd releaseName values) w in
  (count isRepoAdd tr <= 1)%nat /\
  Forall (fun e =>
            isRepoAdd e = true ->
            exists repoName after x,
              RepoURL cd <> "" /\
              Chart cd = repoName ++ "/" ++ after /\ Contains repoName "/" = false /\
              e = Ev (CombinedOutput "helm"
                        ["repo"; "add"; repoName; RepoURL cd; "--force-update"]
                        (helmEnv hc)) x)
         tr.
Proof.
  cbv zeta. split.
  - unfold trace_of. rewrite InstallChart_run. cbv zeta.
    set (rn := resolveReleaseName cd releaseName).
    destruct (h _ (HistoryRun 1 rn) w) as [[history herr] w0]. cbn [fst snd].
    destruct (checkHistory hc rn history herr) as [msg|]; [cbn; lia|].
    rewrite locateWithRetry_run. cbv zeta.
    destruct (h _ (Log (locating cd)) w0) as [u0 wa]. cbn [fst snd].
    assert (forall cp wl,
              count isRepoAdd (trace_of h (loadAndInstall hc (installClient hc cd rn) rn
                                             values cp) wl) = 0%nat) as Hload.
    { intros cp wl. pose proof (count_isRepoAdd_le (trace_of h (loadAndInstall hc
                      (installClient hc cd rn) rn values cp) wl)) as Hle.
      unfold isSubprocess in Hle.
      rewrite (Without_count h _ KSubprocess _ wl (loadAndInstall_kinds hc _ rn values cp))
        in Hle by (simpl; tauto). lia. }
    destruct (h _ (LocateChart (Version cd) (Chart cd)) wa) as [[cp1 [e1|]] wb];
      cbn [fst snd].
    + pose proof (UpdateRepos_single_add hc cd (h _ (Log (retrying cd e1)) wb).2) as Hpass.
      destruct (h _ (LocateChart _ _) _) as [[cp2 [e2|]] wc]; cbn [fst snd].
      * count_all. cbn [isRepoAdd]. lia.
      * specialize (Hload cp2 wc). unfold trace_of in Hload.
        destruct (run h (loadAndInstall _ _ _ _ _) wc) as [[r w2] t2]. cbn [fst snd] in *.
        count_all. cbn [isRepoAdd]. lia.
    + specialize (Hload cp1 wb). unfold trace_of in Hload.
      destruct (run h (loadAndInstall _ _ _ _ _) wb) as [[r w2] t2]. cbn [fst snd] in *.
      count_all. cbn [isRepoAdd]. lia.
  - eapply Forall_impl; [apply Issues_trace, InstallChart_from_chart|].
    intros [X c x] Hc Hadd. destruct c; try done. cbn [command_of FromCharts] in Hc.
    destruct Hc as [->|(d & repoName & after & Hd & Hurl & Hcut & -> & -> & ->)]; [done|].
    apply list_elem_of_singleton in Hd as ->.
    exists repoName, after, x. split_and!; try done.
    + by apply Cut_Some.
    + by eapply Cut_slash_before.
Qed.

(** The goroutine of [NewService] runs one synchronization pass over the
    definitions it was given and then reports completion, whatever the
    pass met: [UpdateRepos] returns no error, so the warning the
    goroutine has for a failed update is never written. *)
Theorem initialRepoUpdate_reports_completion (hc : HelmClient)
    (defs : list ChartDefinition) (w : W) :
  let starting := Log "Starting initial Helm repo update in background..." in
  trace_of h (initialRepoUpdate hc defs) w
  = (Ev starting tt :: trace_of h (UpdateRepos hc defs) (h _ starting w).2
     ++ [Ev (Log "Initial background Helm repo update completed.") tt])%list.
Proof.
  cbv zeta. unfold initialRepoUpdate, log.
  rewrite trace_call, trace_bind, UpdateRepos_result, trace_single.
  by destruct (h _ (Log _) w).1, (h _ (Log "Initial background Helm repo update completed.") _).1.
Qed.

End RefreshFacts.

(* ===================================================================== *)
(** * More on node ports *)
(* ===================================================================== *)

Section PortFacts.
Import Helm Traces.

Lemma collectPorts_snoc (ports : list ServicePort) (port : ServicePort) (m : gmap string Z) :
  collectPorts (ports ++ [port]) m = addPort (collectPorts ports m) port.
Proof. unfold collectPorts. by rewrite foldl_app. Qed.

Lemma collectPorts_cons (port : ServicePort) (ports : list ServicePort) (m : gmap string Z) :
  collectPorts (port :: ports) m = collectPorts ports (addPort m port).
Proof. done. Qed.

Lemma collectPorts_app (pre post : list ServicePort) (m : gmap string Z) :
  collectPorts (pre ++ post) m = collectPorts post (collectPorts pre m).
Proof. unfold collectPorts. by rewrite foldl_app. Qed.

Lemma addPort_other (m : gmap string Z) (port : ServicePort) (k : string) :
  ~ reports k port -> addPort m port !! k = m !! k.
Proof.
  unfold reports, addPort. intros Hno.
  destruct (Z.ltb_spec 0 (pNodePort port)) as [Hpos|]; [|done].
  apply lookup_insert_ne. intros Hk. by apply Hno.
Qed.

Lemma collectPorts_others (ports : list ServicePort) (m : gmap string Z) (k : string) :
  Forall (fun p => ~ reports k p) ports -> collectPorts ports m !! k = m !! k.
Proof.
  intros Hall. revert m. induction Hall as [|p ports Hp _ IH]; intros m; [done|].
  rewrite collectPorts_cons, IH. by apply addPort_other.
Qed.

Lemma reports_dec (k : string) (port : ServicePort) : {reports k port} + {~ reports k port}.
Proof.
  unfold reports.
  destruct (Z_lt_dec 0 (pNodePort port)), (decide (portName port = k)); tauto.
Qed.

(** The map made of the ports of a Service has the entry [k] exactly
    when a port with a node port goes by [k], be it its name or, for a
    port without name, its number in decimal; the value is the node port
    of the last such port: where two ports go by the same key, the later
    one replaces the earlier. *)
Theorem collectPorts_last_wins (ports : list ServicePort) (k : string) (v : Z) :
  collectPorts ports ∅ !! k = Some v <->
  exists pre port post,
    ports = (pre ++ port :: post)%list /\
    0 < pNodePort port /\
    (if String.eqb (pName port) "" then pretty (pPort port) else pName port) = k /\
    pNodePort port = v /\
    Forall (fun p => ~ reports k p) post.
Proof.
  split.
  - induction ports as [|p ports IH] using rev_ind; [done|].
    rewrite collectPorts_snoc. destruct (reports_dec k p) as [[Hpos Hname]|Hno].
    + unfold addPort. rewrite (proj2 (Z.ltb_lt _ _) Hpos), Hname, lookup_insert_eq.
      intros [= <-]. exists ports, p, []. by split_and!.
    + rewrite addPort_other by done. intros Hk.
      destruct (IH Hk) as (pre & port & post & -> & Hpos & Hname & Hv & Hpost).
      exists pre, port, (post ++ [p])%list. split_and!; try done.
      * by rewrite <- app_assoc.
      * apply Forall_app. split; [done|]. by constructor.
  - intros (pre & port & post & -> & Hpos & Hname & Hv & Hpost).
    rewrite collectPorts_app, collectPorts_cons, collectPorts_others by done.
    unfold addPort. rewrite (proj2 (Z.ltb_lt _ _) Hpos).
    change (portName port = k) in Hname. rewrite Hname, lookup_insert_eq. by rewrite Hv.
Qed.

End PortFacts.

(* ===================================================================== *)
(** * The server: one synchronization pass at a time *)
(* ===================================================================== *)

Section ServerFacts.
Import Catalog Helm Api ApiHandlers Observe Sched Server.
Context {W : Type} (h : Handler Helm.Cmd W).

Lemma initialRepoUpdate_disciplined (hc : HelmClient) (defs : list ChartDefinition) :
  Disciplined false (initialRepoUpdate hc defs) released.
Proof.
  unfold initialRepoUpdate, log. cbn [Disciplined bind call]. intros _.
  apply released_bind; [apply UpdateRepos_disciplined|].
  by intros [e|]; cbn [Disciplined bind call].
Qed.

Lemma bindRequest_disciplined (name : string) (req : InstallRequest) (bindErr : error) :
  Disciplined false (bindRequest name req bindErr) released.
Proof.
  unfold bindRequest, log. destruct bindErr as [e|]; [|done].
  by destruct (negb (String.eqb e "EOF")), (irValues req); cbn [Disciplined bind call].
Qed.

Lemma handle_disciplined (cs : Catalog.Service) (hc : HelmClient) (r : Request) :
  disciplined false (handle cs hc r).
Proof.
  destruct r; cbn [handle disciplined].
  - done.
  - unfold InstallChartHandler. apply released_bind; [apply bindRequest_disciplined|].
    intros bound. destruct (GetChartByName cs chartName) as [chartMeta|msg]; [|done].
    apply released_bind; [apply InstallChart_disciplined|]. by intros [release|msg].
  - unfold ListReleasesHandler.
    apply released_bind; [apply ListInstalledReleases_disciplined|]. by intros [releases|msg].
  - unfold GetReleaseStatusHandler.
    apply released_bind; [apply GetReleaseStatus_disciplined|].
    intros [statusData|msg]; [done|]. by destruct (_ || _).
  - unfold UninstallReleaseHandler.
    apply released_bind; [apply UninstallRelease_disciplined|].
    intros [res|msg]; [done|]. by destruct (Contains msg "not found").
Qed.

Lemma serving_well_locked (cs : Catalog.Service) (requests : list Request) (w : W) :
  WellLocked (serving cs requests w).
Proof.
  split; [done|]. split; [done|]. intros [|i] g Hg; cbn in Hg.
  - injection Hg as <-. apply initialRepoUpdate_disciplined.
  - apply list_lookup_fmap_Some in Hg as (r & -> & Hr). apply handle_disciplined.
Qed.

(** Whatever requests are in flight next to the goroutine that
    [NewService] started, and however the goroutines are scheduled, the
    history of the server is a history of disjoint synchronization
    passes: the mutex of the client is locked exactly while a goroutine
    is between its [Lock] and its [Unlock], and in between no other
    goroutine locks, unlocks or runs [helm repo add] or
    [helm repo update]; outside a pass none of the two runs at all. *)
Theorem server_passes_do_not_interleave (cs : Catalog.Service) (requests : list Request)
    (w : W) (schedule : list nat) :
  let m := exec h schedule (serving cs requests w) in
  serialized (history m) = true /\
  (locked m = true <-> exists i, passOf (history m) = Held i) /\
  (forall pre j e post,
     history m = (pre ++ (j, e) :: post)%list ->
     match passOf pre with
     | Free => ofKind KUnlock e = false /\ ofKind KSubprocess e = false
     | Held i =>
         ofKind KLock e = false /\
         (ofKind KUnlock e = true \/ ofKind KSubprocess e = true -> j = i)
     | Broken => False
     end).
Proof.
  intros m.
  destruct (exec_well_locked h schedule _ (serving_well_locked cs requests w))
    as (Hst & Hlocked & Hpool). fold m in Hst, Hlocked, Hpool.
  split; [|split].
  - unfold serialized. by destruct (passOf (history m)).
  - rewrite Hlocked. destruct (passOf (history m)); cbn [isHeld]; split;
      try done; try (by intros [i [=]]); by eauto.
  - intros pre j e post Hhistory. rewrite Hhistory in Hst.
    apply passOf_prefix in Hst. destruct e as [X c x].
    destruct (passOf pre) as [|i|]; [| |by rewrite observe_Broken in Hst].
    + by destruct c.
    + destruct c; cbn [observe ofKind kind Kind_eqb] in *; try done;
        (split; [done|]); try (by intros [|]);
        intros _; by destruct (Nat.eqb_spec j i).
Qed.

(** The goroutine inside a pass is one of the pool. *)
Lemma step_holder (i : nat) (m m' : Machine W) :
  step h i m = Some m' ->
  (forall j, passOf (history m) = Held j -> is_Some (pool m !! j)) ->
  forall j, passOf (history m') = Held j -> is_Some (pool m' !! j).
Proof.
  unfold step. destruct (pool m !! i) as [[A [a | X c k]]|] eqn:Hi; try done.
  intros Hstep Hinv j.
  assert (forall g, is_Some (pool m !! j) -> is_Some (<[i := g]> (pool m) !! j)) as Hkeep.
  { intros g Hj. apply lookup_lt_is_Some_2. rewrite length_insert.
    by apply lookup_lt_is_Some_1. }
  assert (is_Some (pool m !! i)) as Hsome by (by rewrite Hi).
  destruct c; cbn [mutexOp] in Hstep; try destruct (locked m);
    try destruct (h _ _ (world m)) as [x w1]; try done;
    injection Hstep as <-; cbn [history pool]; rewrite passOf_snoc;
    destruct (passOf (history m)) as [|j0|] eqn:Hst; cbn [observe]; try done;
    try (destruct (Nat.eqb_spec i j0) as [->|Hne]; try done);
    intros [= <-]; apply Hkeep; by auto.
Qed.

Lemma exec_holder (schedule : list nat) (m : Machine W) :
  (forall j, passOf (history m) = Held j -> is_Some (pool m !! j)) ->
  forall j, passOf (history (exec h schedule m)) = Held j ->
            is_Some (pool (exec h schedule m) !! j).
Proof.
  revert m. induction schedule as [|i schedule IH]; intros m Hm; [done|].
  cbn [exec foldl]. apply IH. unfold turn.
  destruct (step h i m) as [m'|] eqn:Hstep; [|done]. by eapply step_holder.
Qed.

Lemma forallb_finished (pool : list Goroutine) :
  forallb finished pool = false ->
  exists i A X (c : Cmd X) (k : X -> HProg A), pool !! i = Some (Go (Vis c k)).
Proof.
  induction pool as [|[A [a | X c k]] pool IH]; cbn [forallb finished andb]; [done| |].
  - intros Hrest. destruct (IH Hrest) as (i & B & Y & c & k & Hi).
    by exists (S i), B, Y, c, k.
  - intros _. by exists 0%nat, A, X, c, k.
Qed.

(** A goroutine that keeps the discipline has a step unless it waits
    for a mutex that is locked. *)
Lemma disciplined_step (i : nat) (m : Machine W) {A X : Type} (c : Cmd X) (k : X -> HProg A) :
  pool m !! i = Some (Go (Vis c k)) ->
  disciplined (locked m) (Go (Vis c k)) ->
  exists m', step h i m = Some m'.
Proof.
  intros Hi Hdisc. unfold step. rewrite Hi. cbn [disciplined Disciplined] in Hdisc.
  destruct c; cbn [mutexOp]; destruct (locked m); try done;
    try destruct (h _ _ (world m)) as [x w1]; by eauto.
Qed.

(** The server cannot deadlock on the mutex of the client and does not
    leak it.  The outside answers every command; then, however the
    goroutines have been scheduled, as long as one of them has not
    returned one of them can take a step, and once all have returned
    the mutex is unlocked. *)
Theorem server_never_deadlocks (cs : Catalog.Service) (requests : list Request)
    (w : W) (schedule : list nat) :
  let m := exec h schedule (serving cs requests w) in
  if forallb finished (pool m) then locked m = false
  else exists j m', step h j m = Some m'.
Proof.
  intros m.
  destruct (exec_well_locked h schedule _ (serving_well_locked cs requests w))
    as (Hst & Hlocked & Hpool). fold m in Hst, Hlocked, Hpool.
  assert (forall j, passOf (history m) = Held j -> is_Some (pool m !! j)) as Hholder.
  { apply exec_holder. by intros j. }
  destruct (passOf (history m)) as [|i|] eqn:Hpass; [| |done]; cbn [isHeld holds] in *.
  - destruct (forallb finished (pool m)) eqn:Hall; [done|].
    destruct (forallb_finished _ Hall) as (i & A & X & c & k & Hi).
    exists i. apply (disciplined_step i m c k Hi). rewrite Hlocked. exact (Hpool i _ Hi).
  - destruct (Hholder i eq_refl) as [g Hi].
    pose proof (Hpool i g Hi) as Hdisc. rewrite Nat.eqb_refl in Hdisc.
    destruct g as [A [a | X c k]]; [done|].
    destruct (forallb finished (pool m)) eqn:Hall.
    + rewrite forallb_forall in Hall. apply list_elem_of_lookup_2, list_elem_of_In in Hi.
      by apply Hall in Hi.
    + exists i. apply (disciplined_step i m c k Hi). by rewrite Hlocked.
Qed.

End ServerFacts.

(* ===================================================================== *)
(** * More on the metrics snapshot *)
(* ===================================================================== *)

Section SnapshotFacts.
Import Metrics Traces.
Context {Quantity : Type} {ops : QuantityOps Quantity}.
Context {W : Type} (h : Handler (@Cmd Quantity) W).


Lemma findMetrics_first (pre post : list NodeMetricsItem) (nm : NodeMetricsItem)
    (name : string) :
  nmName nm = name -> Forall (fun x => nmName x <> name) pre ->
  findMetrics (pre ++ nm :: post) name
  = Some (index (nmUsage nm) "cpu", index (nmUsage nm) "memory").
Proof.
  intros Hnm Hpre. induction Hpre as [|x pre Hx _ IH]; cbn [app findMetrics].
  - by rewrite (proj2 (String.eqb_eq _ _) Hnm).
  - by rewrite (proj2 (String.eqb_neq _ _) Hx).
Qed.



(** A snapshot has one entry per node of the node list, in the order of
    that list, with the name and the allocatable CPU and memory of the
    node; the usage of a node is the usage of the first entry of the
    metrics list that has its name, whatever entries of the same name
    follow. *)
Theorem snapshot_lists_every_node (s : Service) (w : W) (snapshot : ClusterMetrics) :
  let items := (h _ NodeMetricsesList w).1.1 in
  let nodes := (h _ NodesList (h _ NodeMetricsesList w).2).1.1 in
  result_of h (GetClusterMetricsSnapshot s) w = Ok snapshot ->
  nodeName <$> Nodes snapshot = nName <$> nodes /\
  CPUAvailableMilliCores <$> Nodes snapshot
  = (fun n => MilliValue (index (nAllocatable n) "cpu")) <$> nodes /\
  MemoryAvailableBytes <$> Nodes snapshot
  = (fun n => Value (index (nAllocatable n) "memory")) <$> nodes /\
  (forall i n entry pre nm post,
     nodes !! i = Some n -> Nodes snapshot !! i = Some entry ->
     items = (pre ++ nm :: post)%list ->
     nmName nm = nName n -> Forall (fun x => nmName x <> nName n) pre ->
     CPUUsageMilliCores entry = MilliValue (index (nmUsage nm) "cpu") /\
     MemoryUsageBytes entry = Value (index (nmUsage nm) "memory")).
Proof.
  cbv zeta. rewrite GetClusterMetricsSnapshot_result. cbv zeta.
  destruct (negb (hasMetricsClient s)); [done|].
  destruct (h _ NodeMetricsesList w) as [[items [e|]] w0]; cbn [fst snd]; [done|].
  destruct (h _ NodesList w0) as [[nodes [e|]] w1]; cbn [fst snd]; [done|].
  intros [= <-]. cbn [summarize Nodes]. rewrite measure_detailed.
  cbn [noTotals detailedNodeMetrics app].
  change (map (entryOf items) nodes) with (entryOf items <$> nodes).
  rewrite <- !list_fmap_compose. split_and!; try done.
  intros i n entry pre nm post Hn Hentry -> Hnm Hpre.
  rewrite list_lookup_fmap, Hn in Hentry. injection Hentry as <-.
  unfold entryOf, usageOf. rewrite (findMetrics_first pre post nm (nName n)) by done.
  done.
Qed.

End SnapshotFacts.

(** [Metrics.threeNodes]: the first node has a metrics entry. *)
Lemma snapshot_lists_every_node_witness :
  exists snapshot,
    result_of Metrics.servers (Metrics.GetClusterMetricsSnapshot Metrics.service)
      Metrics.threeNodes = Ok snapshot /\
    Metrics.nodeName <$> Metrics.Nodes snapshot = ["node-a"; "node-b"; "node-c"] /\
    Metrics.CPUAvailableMilliCores <$> Metrics.Nodes snapshot = [2000; 4000; 0] /\
    Metrics.MemoryAvailableBytes <$> Metrics.Nodes snapshot = [8192; 16384; 0].
Proof.
  eexists. split; [vm_compute; reflexivity|].
  destruct (snapshot_lists_every_node (ops := Metrics.MilliUnits) Metrics.servers
              Metrics.service Metrics.threeNodes _ eq_refl) as (Hnames & Hcpu & Hmem & _).
  split; [exact Hnames|]. split; [exact Hcpu | exact Hmem].
Defined.

(* ===================================================================== *)
(** * The construction of the client *)
(* ===================================================================== *)

Section EnvFacts.
Import Helm Traces.

Lemma UpdateRepos_env (hc : HelmClient) (charts : list ChartDefinition) :
  Issues (UsesEnv (helmEnv hc)) (UpdateRepos hc charts).
Proof.
  unfold UpdateRepos, UpdateRepos_body. cbn [Issues bind call]. split; [done|]. intros _.
  apply Issues_bind; [apply Issues_bind|].
  - generalize (∅ : gmap string bool).
    induction charts as [|chart rest IH]; intros addedRepos; cbn [UpdateRepos_loop]; [done|].
    destruct (String.eqb (RepoURL chart) ""); [apply IH|].
    destruct (length (SplitN2 (Chart chart) "/") <? 2)%nat.
    { cbn [Issues bind call log]. split; [done|]. intros _. apply IH. }
    destruct (addedRepos !! _); [apply IH|].
    unfold log. cbn [Issues bind call]. split; [done|]. intros _. split; [done|].
    intros [output [e|]]; cbn [Issues bind call]; (split; [done|]); intros _; apply IH.
  - intros addedRepos. apply Issues_bind; [|done].
    unfold UpdateRepos_refresh, log. destruct (0 <? size addedRepos)%nat; [|done].
    cbn [Issues bind call]. split; [done|]. intros _. split; [done|].
    by intros [output [e|]]; cbn [Issues bind call].
  - intros r. by cbn [Issues bind call].
Qed.

Lemma InstallChart_env (hc : HelmClient) (cd : ChartDefinition) (releaseName : string)
    (values : Values) :
  Issues (UsesEnv (helmEnv hc)) (InstallChart hc cd releaseName values).
Proof.
  unfold InstallChart. cbn [Issues bind call]. split; [done|]. intros [history err].
  destruct (checkHistory _ _ _ _); [done|].
  apply Issues_bind.
  - unfold locateWithRetry, log. cbn [Issues bind call]. split; [done|]. intros _.
    split; [done|]. intros [cp [e|]]; cbn [Issues bind call]; [|done].
    split; [done|]. intros _. apply Issues_bind; [apply UpdateRepos_env|].
    intros [eu|]; cbn [Issues bind call].
    + split; [done|]. intros _. split; [done|]. by intros [cp2 [e2|]].
    + split; [done|]. by intros [cp2 [e2|]].
  - intros [cp|msg]; [|done].
    unfold loadAndInstall, log. cbn [Issues bind call]. split; [done|]. intros _.
    split; [done|]. intros [chrt [e|]]; cbn [Issues bind call]; [done|].
    split; [done|]. intros _. split; [done|]. by intros [rel [e|]]; cbn [Issues bind call].
Qed.

Lemma GetReleaseStatus_env (hc : HelmClient) (releaseName : string) :
  Issues (UsesEnv (helmEnv hc)) (GetReleaseStatus hc releaseName).
Proof.
  unfold GetReleaseStatus. cbn [Issues bind call]. split; [done|].
  intros [[out stderr] [e|]]; cbn [Issues bind call]; [done|].
  split; [done|]. by intros [statusData [e|]].
Qed.

End EnvFacts.

Section SetupFacts.
Import Helm Startup Traces.
Context {W : Type} (h : Handler Startup.Cmd W).

Lemma inCluster_run (w : W) :
  let host := h _ (Getenv "KUBERNETES_SERVICE_HOST") w in
  let port := h _ (Getenv "KUBERNETES_SERVICE_PORT") host.2 in
  result_of h inCluster w = negb (String.eqb host.1 "") && negb (String.eqb port.1 "") /\
  initializations (trace_of h inCluster w) = [].
Proof.
  cbv zeta. unfold inCluster, result_of, trace_of. cbn [run bind call].
  destruct (h _ (Getenv "KUBERNETES_SERVICE_HOST") w) as [host w0]. cbn [fst snd].
  destruct (negb (String.eqb host "")); cbn [run fst snd andb]; [|done].
  by destruct (h _ (Getenv "KUBERNETES_SERVICE_PORT") w0) as [port w1].
Qed.

Lemma initialize_run (cfg : Config.AppConfig) (flagsKubeConfig settingsKubeConfig : string)
    (w : W) :
  exists answer,
    initializations (trace_of h (initialize cfg flagsKubeConfig settingsKubeConfig) w)
    = [(flagsKubeConfig, Config.AppInstallNamespace cfg, Config.HelmDriver cfg, answer)] /\
    result_of h (initialize cfg flagsKubeConfig settingsKubeConfig) w
    = match answer with
      | Some e => Err ("failed to initialize Helm action configuration: " ++ e)
      | None => Ok (clientOf cfg settingsKubeConfig)
      end.
Proof.
  unfold initialize, result_of, trace_of. cbn [run bind call].
  destruct (h _ (ActionInit _ _ _) w) as [[e|] w0]; cbn [run fst snd].
  { by exists (Some e). }
  exists None.
  destruct (h _ (NamespacesGet _) w0) as [[e|] w1]; cbn [run bind call fst snd]; [|done].
  destruct (Contains e "not found"); cbn [run bind call];
    by destruct (h _ (Log _) w1) as [u w2].
Qed.

(** Outside a cluster, that is unless [KUBERNETES_SERVICE_HOST] and
    [KUBERNETES_SERVICE_PORT] are both set, [NewHelmClient] needs a
    kubeconfig path: without one it fails before the Helm SDK is
    initialized.  Otherwise it initializes the SDK once, for the
    namespace and the driver of the configuration, with the kubeconfig
    path outside a cluster and none inside; it fails when that fails
    and else returns a client for the namespace and the timeout of the
    configuration.  What the check of the namespace finds does not
    change the outcome. *)
Theorem NewHelmClient_outcome (cfg : Config.AppConfig) (w : W) :
  let new := h _ CliNew w in
  let host := h _ (Getenv "KUBERNETES_SERVICE_HOST") new.2 in
  let port := h _ (Getenv "KUBERNETES_SERVICE_PORT") host.2 in
  let inCluster := negb (String.eqb host.1 "") && negb (String.eqb port.1 "") in
  let result := result_of h (NewHelmClient cfg) w in
  let inits := initializations (trace_of h (NewHelmClient cfg) w) in
  if negb inCluster && String.eqb (Config.KubeconfigPath cfg) "" then
    result = Err "kubeconfig path is not set for out-of-cluster configuration" /\
    inits = []
  else
    exists answer,
      inits = [(if inCluster then "" else Config.KubeconfigPath cfg,
                Config.AppInstallNamespace cfg, Config.HelmDriver cfg, answer)] /\
      result = match answer with
               | Some e => Err ("failed to initialize Helm action configuration: " ++ e)
               | None =>
                   Ok {| config := {| AppInstallNamespace := Config.AppInstallNamespace cfg;
                                      HelmTimeout := Config.HelmTimeout cfg |};
                         settings_KubeConfig :=
                           if inCluster then new.1 else Config.KubeconfigPath cfg |}
               end.
Proof.
  cbv zeta. unfold NewHelmClient.
  rewrite result_call, trace_call, result_bind, trace_bind.
  destruct (h _ CliNew w) as [settingsKubeConfig w0]. cbn [fst snd].
  destruct (inCluster_run w0) as [-> Hinits]. cbv zeta.
  set (inside := negb _ && negb _).
  change (initializations (Ev CliNew settingsKubeConfig :: ?t)) with (initializations t).
  unfold initializations in *. rewrite omap_app, Hinits. cbn [app].
  destruct inside; cbn [negb andb].
  - apply initialize_run.
  - destruct (String.eqb (Config.KubeconfigPath cfg) ""); [done|]. apply initialize_run.
Qed.

(** A client built outside a cluster has the kubeconfig path of the
    configuration, which is not empty. *)
Lemma NewHelmClient_outside (cfg : Config.AppConfig) (w : W) (hc : HelmClient) :
  let host := h _ (Getenv "KUBERNETES_SERVICE_HOST") (h _ CliNew w).2 in
  let port := h _ (Getenv "KUBERNETES_SERVICE_PORT") host.2 in
  result_of h (NewHelmClient cfg) w = Ok hc ->
  host.1 = "" \/ port.1 = "" ->
  Config.KubeconfigPath cfg <> "" /\
  hc = clientOf cfg (Config.KubeconfigPath cfg).
Proof.
  cbv zeta. unfold NewHelmClient. rewrite result_call, result_bind.
  destruct (inCluster_run (h _ CliNew w).2) as [-> _]. cbv zeta.
  intros Hresult Houtside. revert Hresult.
  replace (negb _ && negb _) with false
    by (destruct Houtside as [-> | ->]; [done|by rewrite andb_false_r]).
  cbn [negb]. destruct (String.eqb_spec (Config.KubeconfigPath cfg) "") as [|Hpath]; [done|].
  destruct (initialize_run cfg (Config.KubeconfigPath cfg) (Config.KubeconfigPath cfg)
              (world_of h inCluster (h _ CliNew w).2)) as ([e|] & _ & ->); [done|].
  by intros [= <-].
Qed.

End SetupFacts.

(** The kubeconfig path of the configuration reaches [helm]: a client
    built outside a cluster hands [KUBECONFIG=<path>] to every [helm]
    process that [UpdateRepos], [InstallChart] and [GetReleaseStatus]
    start, and asks [helm status] for the namespace of the
    configuration. *)
Theorem NewHelmClient_kubeconfig_reaches_helm {W W' : Type}
    (h : Handler Startup.Cmd W) (h' : Handler Helm.Cmd W')
    (cfg : Config.AppConfig) (w : W) (hc : Helm.HelmClient)
    (charts : list Helm.ChartDefinition) (cd : Helm.ChartDefinition)
    (releaseName : string) (values : Helm.Values) (w' : W') :
  let host := h _ (Startup.Getenv "KUBERNETES_SERVICE_HOST") (h _ Startup.CliNew w).2 in
  let port := h _ (Startup.Getenv "KUBERNETES_SERVICE_PORT") host.2 in
  let env := ["KUBECONFIG=" ++ Config.KubeconfigPath cfg] in
  result_of h (Startup.NewHelmClient cfg) w = Ok hc ->
  host.1 = "" \/ port.1 = "" ->
  Forall (command_of (Traces.UsesEnv env)) (trace_of h' (Helm.UpdateRepos hc charts) w') /\
  Forall (command_of (Traces.UsesEnv env))
    (trace_of h' (Helm.InstallChart hc cd releaseName values) w') /\
  exists answer rest,
    trace_of h' (Helm.GetReleaseStatus hc releaseName) w'
    = Ev (Helm.CmdRun "helm"
            ["status"; releaseName; "-n"; Config.AppInstallNamespace cfg; "-o"; "json"]
            env) answer :: rest.
Proof.
  cbv zeta. intros Hresult Houtside.
  destruct (NewHelmClient_outside h cfg w hc Hresult Houtside) as [Hpath ->].
  assert (Helm.helmEnv (Startup.clientOf cfg (Config.KubeconfigPath cfg))
          = ["KUBECONFIG=" ++ Config.KubeconfigPath cfg]) as Henv.
  { unfold Helm.helmEnv, Startup.clientOf. cbn [Helm.settings_KubeConfig].
    by rewrite (proj2 (String.eqb_neq _ _) Hpath). }
  rewrite <- Henv. split; [|split].
  - apply Issues_trace, UpdateRepos_env.
  - apply Issues_trace, InstallChart_env.
  - unfold trace_of. rewrite GetReleaseStatus_run. cbv zeta.
    destruct (h' _ (Helm.CmdRun _ _ _) w') as [[[out stderr] [e|]] w0]; cbn [fst snd];
      by eauto.
Qed.

(** On a workstation with a kubeconfig the client is built, although
    the namespace is missing. *)
Lemma NewHelmClient_kubeconfig_reaches_helm_witness :
  (exists hc,
     result_of Scenario.host
       (Startup.NewHelmClient (Scenario.settings "/home/dev/.kube/config"))
       Scenario.workstation = Ok hc /\
     Forall (command_of (Traces.UsesEnv ["KUBECONFIG=/home/dev/.kube/config"]))
       (trace_of Cluster.backend (Helm.UpdateRepos hc [Cluster.nginx]) Cluster.empty)) /\
  Observe.count Observe.isSubprocess
    (trace_of Cluster.backend
       (Helm.UpdateRepos
          {| Helm.config := {| Helm.AppInstallNamespace := "app-store-apps";
                               Helm.HelmTimeout := 300 * 1000000000 |};
             Helm.settings_KubeConfig := "/home/dev/.kube/config" |}
          [Cluster.nginx]) Cluster.empty) = 2%nat.
Proof.
  split; [|vm_compute; reflexivity].
  eexists. split; [vm_compute; reflexivity|].
  eapply (proj1 (NewHelmClient_kubeconfig_reaches_helm Scenario.host Cluster.backend
                   (Scenario.settings "/home/dev/.kube/config") Scenario.workstation _
                   [Cluster.nginx] Cluster.nginx "" [] Cluster.empty eq_refl
                   (or_introl eq_refl))).
Defined.

(* ===================================================================== *)
(** * The configuration *)
(* ===================================================================== *)

Section ConfigFacts.
Import Config Startup.
Context {W : Type} (h : Handler Startup.Cmd W).
Context (Quote : string -> string) (Join : list string -> string).

Lemma digitOf_pretty (d : N) : (d < 10)%N -> digitOf (pretty_N_char d) = Some d.
Proof.
  intros Hd.
  assert (d = 0 \/ d = 1 \/ d = 2 \/ d = 3 \/ d = 4 \/ d = 5 \/ d = 6 \/ d = 7
          \/ d = 8 \/ d = 9)%N as Hcases by lia.
  by repeat destruct Hcases as [->|Hcases]; try subst d.
Qed.

Lemma pretty_char_no_sign (d : N) :
  Ascii.eqb (pretty_N_char d) minus = false /\ Ascii.eqb (pretty_N_char d) plus = false.
Proof. unfold pretty_N_char. by repeat case_match. Qed.

(** Reading back what [pretty_N_go] wrote in front of [s]. *)
Lemma digits_pretty_N_go (x : N) (s : string) :
  digits (pretty_N_go x s) 0 = digits s x.
Proof.
  revert s. induction (N.lt_wf_0 x) as [x _ IH]; intros s.
  destruct (decide (x = 0)%N) as [->|Hx]; [done|].
  rewrite pretty_N_go_step by lia. rewrite IH by (apply N.div_lt; lia).
  cbn [digits]. rewrite digitOf_pretty by (apply N.mod_lt; lia).
  f_equal. pose proof (N.div_mod x 10 ltac:(lia)). lia.
Qed.

Lemma pretty_N_go_digit (x : N) (s : string) :
  (0 < x)%N -> exists d rest, pretty_N_go x s = String (pretty_N_char d) rest.
Proof.
  revert s. induction (N.lt_wf_0 x) as [x _ IH]; intros s Hx.
  rewrite pretty_N_go_step by done.
  destruct (decide (x `div` 10 = 0)%N) as [->|Hdiv]; [by eauto|].
  apply IH.
  - apply N.div_lt; lia.
  - apply N.neq_0_lt_0. exact Hdiv.
Qed.

Lemma integer_positive (p : positive) :
  integer (pretty_N_go (Npos p) "") = Some (Zpos p).
Proof.
  destruct (pretty_N_go_digit (Npos p) "") as (d & rest & Hs); [lia|].
  pose proof (digits_pretty_N_go (Npos p) "") as Hdigits.
  destruct (pretty_char_no_sign d) as [Hminus Hplus].
  rewrite Hs in *. unfold integer, unsigned. rewrite Hminus, Hplus, Hdigits. done.
Qed.

(** [strconv.Atoi] reads back what [fmt.Sprintf("%d", n)] writes. *)
Lemma integer_pretty (n : Z) : integer (Helm.Sprintf_d n) = Some n.
Proof.
  destruct n as [|p|p]; [done| |].
  - change (Helm.Sprintf_d (Z.pos p)) with (pretty_N_go (N.pos p) "").
    apply integer_positive.
  - change (Helm.Sprintf_d (Z.neg p)) with (String minus (pretty_N_go (N.pos p) "")).
    pose proof (integer_positive p) as Hp.
    destruct (pretty_N_go_digit (Npos p) "") as (d & rest & Hs); [lia|].
    destruct (pretty_char_no_sign d) as [Hminus Hplus].
    rewrite Hs in *. unfold integer in Hp. rewrite Hminus, Hplus in Hp.
    unfold integer. rewrite Ascii.eqb_refl, Hp. done.
Qed.

Lemma digits_invalid (pre post : string) (ch : Ascii.ascii) (n : N) :
  digitOf ch = None -> digits (pre ++ String ch post) n = None.
Proof.
  intros Hch. revert n. induction pre as [|c pre IH]; intros n.
  - change (digits (String ch post) n = None). cbn [digits]. by rewrite Hch.
  - change (digits (String c (pre ++ String ch post)) n = None). cbn [digits].
    destruct (digitOf c); [apply IH | done].
Qed.

Lemma unsigned_invalid (pre post : string) (ch : Ascii.ascii) :
  digitOf ch = None -> unsigned (pre ++ String ch post) = None.
Proof.
  intros Hch. unfold unsigned. rewrite digits_invalid by done.
  by destruct (pre ++ String ch post).
Qed.

Lemma integer_invalid (pre post : string) (ch : Ascii.ascii) :
  digitOf ch = None -> ch <> plus -> ch <> minus ->
  integer (pre ++ String ch post) = None.
Proof.
  intros Hch Hplus Hminus. destruct pre as [|c pre].
  - change (integer (String ch post) = None). cbn [integer].
    rewrite (proj2 (Ascii.eqb_neq _ _) Hminus), (proj2 (Ascii.eqb_neq _ _) Hplus).
    exact (unsigned_invalid "" post ch Hch).
  - change (integer (String c (pre ++ String ch post)) = None). cbn [integer].
    destruct (Ascii.eqb c minus); [by rewrite unsigned_invalid|].
    destruct (Ascii.eqb c plus); [by rewrite unsigned_invalid|].
    exact (unsigned_invalid (String c pre) post ch Hch).
Qed.

Lemma getEnv_run (key fallback : string) (w : W) :
  let a := h _ (LookupEnv key) w in
  result_of h (getEnv key fallback) w = (if a.1.2 then a.1.1 else fallback) /\
  world_of h (getEnv key fallback) w = a.2.
Proof.
  cbv zeta. unfold getEnv, result_of, world_of. cbn [run bind call].
  by destruct (h _ (LookupEnv key) w) as [[value [|]] w0].
Qed.

(** The timeout [LoadConfig] settles on, in seconds. *)
Lemma LoadConfig_timeout (w : W) :
  let var := (h _ (LookupEnv "HELM_TIMEOUT_SECONDS") (h _ HomeDir w).2).1 in
  let helmTimeoutStr := if var.2 then var.1 else "300" in
  let answer := Atoi Quote helmTimeoutStr in
  HelmTimeout (result_of h (LoadConfig Quote Join) w).1
  = Metrics.wrap64 ((match answer.2 with Some _ => 300 | None => answer.1 end) * Second) /\
  (result_of h (LoadConfig Quote Join) w).2 = None.
Proof.
  cbv zeta. unfold LoadConfig. rewrite result_call, result_bind.
  destruct (getEnv_run "HELM_TIMEOUT_SECONDS" "300" (h _ HomeDir w).2) as [-> ->].
  destruct (Atoi Quote _) as [parsed [e|]]; cbn [fst snd];
    rewrite !result_bind; by unfold result_of at 1 2.
Qed.

(** The Helm timeout of the configuration is 300 seconds when
    [HELM_TIMEOUT_SECONDS] is not set, and also when it is set to
    something [strconv.Atoi] does not read: the empty string, or a text
    with a character that is neither a digit nor a sign.  When it is
    set to the decimal of an [int64] [n], the timeout is [n] seconds
    computed in [int64] nanoseconds: exactly [n] seconds for [n] between
    0 and 9223372036, wrapped around beyond.  [LoadConfig] returns no
    error. *)
Theorem LoadConfig_helm_timeout (w : W) (n : Z) :
  let var := (h _ (LookupEnv "HELM_TIMEOUT_SECONDS") (h _ HomeDir w).2).1 in
  let loaded := result_of h (LoadConfig Quote Join) w in
  loaded.2 = None /\
  (var.2 = false -> HelmTimeout loaded.1 = 300 * 1000000000) /\
  (var = ("", true) -> HelmTimeout loaded.1 = 300 * 1000000000) /\
  (forall pre ch post,
     var = (pre ++ String ch post, true) ->
     digitOf ch = None -> ch <> plus -> ch <> minus ->
     HelmTimeout loaded.1 = 300 * 1000000000) /\
  (var = (Helm.Sprintf_d n, true) -> - 2 ^ 63 <= n < 2 ^ 63 ->
   HelmTimeout loaded.1 = Metrics.wrap64 (n * 1000000000)) /\
  (var = (Helm.Sprintf_d n, true) -> 0 <= n <= 9223372036 ->
   HelmTimeout loaded.1 = n * 1000000000).
Proof.
  cbv zeta. destruct (LoadConfig_timeout w) as [Htimeout Herr]. cbv zeta in Htimeout.
  rewrite Htimeout. clear Htimeout. split; [exact Herr|].
  assert (forall n, - 2 ^ 63 <= n < 2 ^ 63 ->
            Atoi Quote (Helm.Sprintf_d n) = (n, None)) as Hread.
  { intros k Hk. unfold Atoi. rewrite integer_pretty.
    destruct (Z.leb_spec (- 2 ^ 63) k), (Z.ltb_spec k (2 ^ 63)); cbn [andb]; done || lia. }
  split_and!.
  - intros ->. reflexivity.
  - intros ->. reflexivity.
  - intros pre ch post -> Hch Hplus Hminus. cbn [fst snd]. unfold Atoi.
    by rewrite integer_invalid.
  - intros -> Hn. cbn [fst snd]. by rewrite Hread.
  - intros -> Hn. cbn [fst snd]. rewrite Hread by lia. cbn [fst snd].
    unfold Metrics.wrap64, Second. rewrite Z.mod_small; lia.
Qed.

End ConfigFacts.

(** [HELM_TIMEOUT_SECONDS=5m] is not a number of seconds: the timeout is
    the default; [HELM_TIMEOUT_SECONDS=600] is ten minutes. *)
Example LoadConfig_helm_timeout_minutes :
  let quote := fun s => "'" ++ s ++ "'" in
  let join := String.concat "/" in
  let env := fun value =>
    {| Scenario.variables := [("HOME", "/home/dev"); ("HELM_TIMEOUT_SECONDS", value)];
       Scenario.initError := None; Scenario.namespaceError := None |} in
  Config.HelmTimeout (result_of Scenario.host (Startup.LoadConfig quote join) (env "5m")).1
  = 300 * Config.Second /\
  Config.HelmTimeout (result_of Scenario.host (Startup.LoadConfig quote join) (env "600")).1
  = 600 * Config.Second /\
  Config.KubeconfigPath (result_of Scenario.host (Startup.LoadConfig quote join) (env "600")).1
  = "/home/dev/.kube/config".
Proof. vm_compute. done. Qed.
